(** * jira-mcp: the document normalisation and relationship pipeline of
      [src/services/jira-api.ts] (class [JiraApiService]).

    The development embeds the service's methods as Rocq functions and
    proves the properties the specification states about them.

    Conventions of the embedding.
    - A JavaScript string is a [string]: a sequence of code units, here the
      code units below 256.  The regular expressions of the source have no
      [i] or [u] flag, so [[A-Z]] and [\d] are the ASCII ranges.
    - Document content is typed [any[]] in the source and is embedded as an
      untyped JSON [value]; reading a property of [null] or [undefined],
      or calling a method the receiver does not have, is a [TypeError].
    - The payloads of the remote API are records with the fields the code
      reads; a field that may be missing is an [option] ([None] is
      [undefined]).
    - A method that can throw returns a [result]; a method that talks to
      the remote system runs in [IO], which also records the requests that
      were issued. *)

From Stdlib Require Import List String Ascii Bool Arith NArith.
From Stdlib Require Import DecimalString.
From Stdlib Require Import Lia.
Import ListNotations.

Local Open Scope list_scope.
Local Open Scope string_scope.

Set Implicit Arguments.
Set Warnings "-register-all".

(** ** Exceptions and results *)

(** What the code can throw.  [TypeError] is a type error raised by the
    runtime itself (its message is the engine's); [Failure] is any error
    object whose [message] the program can read: [new Error(...)] of the
    source, the rejection of [fetch], the [SyntaxError] of
    [response.json()]. *)
Inductive exn : Type :=
| TypeError
| Failure (message : string).

Inductive result (A : Type) : Type :=
| Ok (a : A)
| Err (e : exn).

Arguments Ok {A} a.
Arguments Err {A} e.

Definition rbind {A B} (r : result A) (f : A -> result B) : result B :=
  match r with
  | Ok a => f a
  | Err e => Err e
  end.

Declare Scope result_scope.
Delimit Scope result_scope with result.
Notation "x <- r ;; k" := (rbind r (fun x => k))
  (at level 61, r at next level, right associativity) : result_scope.
Local Open Scope result_scope.

Section ListTraversals.
Context {A B : Type}.

(** [Array.prototype.map] with a callback that may throw. *)
Section MapR.
Variable f : A -> result B.

Fixpoint mapR (l : list A) : result (list B) :=
  match l with
  | [] => Ok []
  | a :: l' => b <- f a ;; bs <- mapR l' ;; Ok (b :: bs)
  end.
End MapR.

(** [Array.prototype.forEach] with a callback that updates a state and may
    throw. *)
Section ForEachR.
Variable f : A -> B -> result B.

Fixpoint forEachR (l : list A) (st : B) : result B :=
  match l with
  | [] => Ok st
  | a :: l' => st' <- f a st ;; forEachR l' st'
  end.
End ForEachR.

(** Reading one property of a property list and continuing with its value:
    [k v] when the first entry named [name] holds [v], [d] when there is
    none. *)
Section WithProp.
Variable name : string.
Variable k : A -> B.
Variable d : B.

Fixpoint with_prop (props : list (string * A)) : B :=
  match props with
  | [] => d
  | (n, v) :: rest => if String.eqb n name then k v else with_prop rest
  end.
End WithProp.
End ListTraversals.

(** ** JSON values *)

(** A JavaScript value as [JSON.parse] produces it, plus [undefined].
    A number is carried as the text [Number.prototype.toString] gives for
    it (["5"], ["0.5"], ["-3"]): the program never computes with numbers,
    it only tests them for truthiness and prints them.  An object is its
    list of own properties in enumeration order, no name twice. *)
Inductive value : Type :=
| VUndefined
| VNull
| VBool (b : bool)
| VNum (repr : string)
| VStr (s : string)
| VArr (items : list value)
| VObj (props : list (string * value)).

(** [o[name]] for a property list. *)
Definition lookup (props : list (string * value)) (name : string) : value :=
  with_prop name (fun v => v) VUndefined props.

Definition has_own (props : list (string * value)) (name : string) : bool :=
  with_prop name (fun _ : value => true) false props.

(** [v.name] for the property names the program reads ([type], [text],
    [content], [attrs], [url], ...): none of them is on a prototype, so a
    primitive or an array has none of them. *)
Definition get (v : value) (name : string) : result value :=
  match v with
  | VUndefined | VNull => Err TypeError
  | VObj props => Ok (lookup props name)
  | _ => Ok VUndefined
  end.

(** [v?.name] *)
Definition get_opt (v : value) (name : string) : value :=
  match v with
  | VObj props => lookup props name
  | _ => VUndefined
  end.

(** ToBoolean *)
Definition truthy (v : value) : bool :=
  match v with
  | VUndefined | VNull => false
  | VBool b => b
  | VNum repr => negb (String.eqb repr "0" || String.eqb repr "NaN")
  | VStr s => negb (String.eqb s "")
  | VArr _ | VObj _ => true
  end.

(** [a || b] *)
Definition or_else (a b : value) : value := if truthy a then a else b.

(** [v === "s"] *)
Definition is_string (v : value) (s : string) : bool :=
  match v with
  | VStr s' => String.eqb s' s
  | _ => false
  end.

(** ToString.  An object from JSON has no callable [toString] of its own:
    without an own property of that name it prints as [[object Object]]
    through [Object.prototype.toString], with one the conversion finds
    nothing callable that returns a primitive and throws.  An array prints
    as its [join(",")], in which [null] and [undefined] print as nothing. *)
Fixpoint ToString (v : value) : result string :=
  match v with
  | VUndefined => Ok "undefined"
  | VNull => Ok "null"
  | VBool true => Ok "true"
  | VBool false => Ok "false"
  | VNum repr => Ok repr
  | VStr s => Ok s
  | VArr items =>
      parts <- mapR (fun item =>
                 match item with
                 | VUndefined | VNull => Ok ""
                 | _ => ToString item
                 end) items ;;
      Ok (String.concat "," parts)
  | VObj props =>
      if has_own props "toString" then Err TypeError else Ok "[object Object]"
  end.

(** [Array.prototype.join(sep)] *)
Definition Array_join (sep : string) (items : list value) : result string :=
  parts <- mapR (fun item =>
             match item with
             | VUndefined | VNull => Ok ""
             | _ => ToString item
             end) items ;;
  Ok (String.concat sep parts).

(** ** The two regular expressions *)

Definition is_upper (c : ascii) : bool :=
  let n := nat_of_ascii c in (Nat.leb 65 n && Nat.leb n 90)%bool.

Definition is_digit (c : ascii) : bool :=
  let n := nat_of_ascii c in (Nat.leb 48 n && Nat.leb n 57)%bool.

(** The longest prefix of [s] whose characters satisfy [p], and the rest. *)
Fixpoint span (p : ascii -> bool) (s : string) : string * string :=
  match s with
  | String c s' =>
      if p c then let (run, rest) := span p s' in (String c run, rest)
      else ("", s)
  | EmptyString => ("", "")
  end.

(** [/[A-Z]+-\d+/] anchored at the start of [s]: the matched text and what
    follows it.  [[A-Z]+] is greedy; giving back letters never helps, as
    the character after a shorter run is a letter and not the hyphen; the
    final [\d+] takes every digit. *)
Definition match_key (s : string) : option (string * string) :=
  let (letters, after_letters) := span is_upper s in
  match letters, after_letters with
  | String _ _, String c after =>
      if Ascii.eqb c "-" then
        let (digits, rest) := span is_digit after in
        match digits with
        | String _ _ => Some (letters ++ "-" ++ digits, rest)
        | EmptyString => None
        end
      else None
  | _, _ => None
  end.

(** [text.match(/[A-Z]+-\d+/g) || []]: every match, left to right, the
    search resuming where the previous match ended.  [skip] counts the
    characters of the current match still to pass over. *)
Fixpoint match_keys_from (skip : nat) (s : string) : list string :=
  match s with
  | EmptyString => []
  | String _ s' =>
      match skip with
      | S n => match_keys_from n s'
      | O =>
          match match_key s with
          | Some (m, _) => m :: match_keys_from (String.length m - 1) s'
          | None => match_keys_from 0 s'
          end
      end
  end.

Definition match_keys (text : string) : list string := match_keys_from 0 text.

Fixpoint strip_prefix (p s : string) : option string :=
  match p, s with
  | EmptyString, _ => Some s
  | String a p', String b s' => if Ascii.eqb a b then strip_prefix p' s' else None
  | String _ _, EmptyString => None
  end.

(** [url.match(/\/browse\/([A-Z]+-\d+)/)]: the capture group of the
    leftmost match, [None] for [null]. *)
Fixpoint match_browse (url : string) : option string :=
  let here := match strip_prefix "/browse/" url with
              | Some after => match_key after
              | None => None
              end in
  match here with
  | Some (k, _) => Some k
  | None =>
      match url with
      | String _ rest => match_browse rest
      | EmptyString => None
      end
  end.

(** ** Relationship entries *)

Inductive Kind : Type := Mention | Link.
Inductive Source : Type := Description | Comment.

(** An element of [CleanJiraIssue["relatedIssues"]]. *)
Record RelatedIssue : Type := {
  ri_key : string;
  ri_summary : option string;
  ri_type : Kind;
  ri_relationship : option string;
  ri_source : Source;
  ri_commentId : option string
}.

Definition mk_mention (k : string) (source : Source) (commentId : option string)
  : RelatedIssue :=
  {| ri_key := k; ri_summary := None; ri_type := Mention;
     ri_relationship := None; ri_source := source; ri_commentId := commentId |}.

(** ** [new Map(entries)] with string keys *)

(** [map.set(k, v)]: an existing key keeps its place and gets the new
    value, a new key goes last. *)
Fixpoint Map_set {V : Type} (m : list (string * V)) (k : string) (v : V)
  : list (string * V) :=
  match m with
  | [] => [(k, v)]
  | (k', v') :: m' =>
      if String.eqb k' k then (k', v) :: m' else (k', v') :: Map_set m' k v
  end.

Definition Map_of_entries {V : Type} (entries : list (string * V))
  : list (string * V) :=
  fold_left (fun m e => Map_set m (fst e) (snd e)) entries [].

Definition Map_values {V : Type} (m : list (string * V)) : list V := map snd m.

(** ** Mention Extractor *)

Section Extract.
Variable source : Source.
Variable commentId : option string.

(** [processNode], with the [mentions] array it pushes to passed in and
    returned. *)
Fixpoint processNode (node : value) (mentions : list RelatedIssue)
  : result (list RelatedIssue) :=
  match node with
  | VUndefined | VNull => Err TypeError
  | VObj props =>
      let type := lookup props "type" in
      (* if (node.type === "inlineCard" && node.attrs?.url) *)
      mentions1 <-
        (if is_string type "inlineCard"
            && truthy (get_opt (lookup props "attrs") "url")
         then
           match get_opt (lookup props "attrs") "url" with
           | VStr url =>
               match match_browse url with
               | Some k => Ok (mentions ++ [mk_mention k source commentId])%list
               | None => Ok mentions
               end
           | _ => Err TypeError
           end
         else Ok mentions) ;;
      (* if (node.type === "text" && node.text) *)
      mentions2 <-
        (if is_string type "text" && truthy (lookup props "text") then
           match lookup props "text" with
           | VStr text =>
               Ok (mentions1
                     ++ map (fun k => mk_mention k source commentId)
                          (match_keys text))%list
           | _ => Err TypeError
           end
         else Ok mentions1) ;;
      (* if (node.content) node.content.forEach(processNode) *)
      with_prop "content"
        (fun content =>
           if truthy content then
             match content with
             | VArr children => forEachR processNode children mentions2
             | _ => Err TypeError
             end
           else Ok mentions2)
        (Ok mentions2) props
  | _ => Ok mentions
  end.

(** [extractIssueMentions(content, source, commentId)] *)
Definition extractIssueMentions (content : value)
  : result (list RelatedIssue) :=
  match content with
  | VArr nodes =>
      mentions <- forEachR processNode nodes [] ;;
      Ok (Map_values (Map_of_entries (map (fun m => (ri_key m, m)) mentions)))
  | _ => Err TypeError
  end.
End Extract.

(** ** Document Text Extractor *)

(** [extractTextContent(content)].  The callback of [map] yields a value
    ([node.text || ""] can be any truthy value), and [join("")] prints
    it. *)
Fixpoint extractTextContent (content : value) : result string :=
  match content with
  | VArr nodes =>
      pieces <- mapR (fun node =>
                  match node with
                  | VUndefined | VNull => Err TypeError
                  | VObj props =>
                      if is_string (lookup props "type") "text" then
                        Ok (or_else (lookup props "text") (VStr ""))
                      else
                        with_prop "content"
                          (fun c =>
                             if truthy c then
                               s <- extractTextContent c ;; Ok (VStr s)
                             else Ok (VStr ""))
                          (Ok (VStr "")) props
                  | _ => Ok (VStr "")
                  end) nodes ;;
      Array_join "" pieces
  | _ => Ok ""
  end.

(** ** String methods *)

(** [s.includes(sub)] *)
Fixpoint includes (s sub : string) : bool :=
  if String.prefix sub s then true
  else match s with
       | String _ s' => includes s' sub
       | EmptyString => false
       end.

(** The lower-case form of one code unit below 256: [A]-[Z] and the
    Latin-1 capitals (192 to 222 except the multiplication sign 215). *)
Definition lower_char (c : ascii) : ascii :=
  let n := nat_of_ascii c in
  if (Nat.leb 65 n && Nat.leb n 90)
     || (Nat.leb 192 n && Nat.leb n 222 && negb (Nat.eqb n 215))
  then ascii_of_nat (n + 32) else c.

(** [s.toLowerCase()] *)
Fixpoint toLowerCase (s : string) : string :=
  match s with
  | EmptyString => EmptyString
  | String c s' => String (lower_char c) (toLowerCase s')
  end.

(** [s.split(sep)[0]] for a one-character separator: the text before the
    first [sep], the whole of [s] when it has none. *)
Fixpoint before_first (sep : ascii) (s : string) : string :=
  match s with
  | EmptyString => EmptyString
  | String c s' => if Ascii.eqb c sep then EmptyString
                   else String c (before_first sep s')
  end.

(** A string in a boolean position: only [""] is falsy. *)
Definition nonempty (s : string) : bool := negb (String.eqb s "").

Definition hex_digit (upper : bool) (n : nat) : ascii :=
  if Nat.ltb n 10 then ascii_of_nat (48 + n)
  else ascii_of_nat ((if upper then 55 else 87) + n).

(** [`${n}`] for a non-negative integer such as an HTTP status. *)
Definition N_to_string (n : N) : string := NilZero.string_of_uint (N.to_uint n).

(** ** [URLSearchParams] *)

(** The [application/x-www-form-urlencoded] serialisation of one name or
    value; a code unit from 128 to 255 is written as the two bytes of its
    UTF-8 form. *)
Definition form_urlencode_char (c : ascii) : string :=
  let n := nat_of_ascii c in
  let pct (b : nat) :=
    String "%" (String (hex_digit true (b / 16))
                  (String (hex_digit true (b mod 16)) EmptyString)) in
  if Nat.eqb n 32 then "+"
  else if is_digit c || is_upper c || (Nat.leb 97 n && Nat.leb n 122)
          || Nat.eqb n 42 || Nat.eqb n 45 || Nat.eqb n 46 || Nat.eqb n 95
  then String c EmptyString
  else if Nat.ltb n 128 then pct n
  else pct (192 + n / 64) ++ pct (128 + n mod 64).

Fixpoint form_urlencode (s : string) : string :=
  match s with
  | EmptyString => EmptyString
  | String c s' => form_urlencode_char c ++ form_urlencode s'
  end.

(** [`${new URLSearchParams(entries)}`] *)
Definition URLSearchParams_toString (entries : list (string * string)) : string :=
  String.concat "&"
    (map (fun e => form_urlencode (fst e) ++ "=" ++ form_urlencode (snd e))
       entries).

(** ** [JSON.stringify(value, null, 2)] *)

Definition quote_char (c : ascii) : string :=
  let n := nat_of_ascii c in
  if Nat.eqb n 8 then "\b"
  else if Nat.eqb n 9 then "\t"
  else if Nat.eqb n 10 then "\n"
  else if Nat.eqb n 12 then "\f"
  else if Nat.eqb n 13 then "\r"
  else if Nat.eqb n 34 then String "\" (String c EmptyString)
  else if Nat.eqb n 92 then "\\"
  else if Nat.ltb n 32 then
    "\u00" ++ String (hex_digit false (n / 16))
                (String (hex_digit false (n mod 16)) EmptyString)
  else String c EmptyString.

Fixpoint quote_chars (s : string) : string :=
  match s with
  | EmptyString => EmptyString
  | String c s' => quote_char c ++ quote_chars s'
  end.

(** QuoteJSONString *)
Definition quote_string (s : string) : string :=
  let q := ascii_of_nat 34 in
  String q (quote_chars s) ++ String q EmptyString.

Fixpoint spaces (n : nat) : string :=
  match n with
  | O => EmptyString
  | S n' => String " " (spaces n')
  end.

Definition newline : string := String (ascii_of_nat 10) EmptyString.

(** The text of [v] at nesting depth [depth]; [None] is [undefined]: such
    a property is left out of an object and printed as [null] in an
    array.  A property named [toJSON] is not callable in a value that came
    from JSON, so it is printed like any other. *)
Fixpoint JSON_stringify_at (depth : nat) (v : value) : option string :=
  let inner := spaces (2 * S depth) in
  let outer := spaces (2 * depth) in
  match v with
  | VUndefined => None
  | VNull => Some "null"
  | VBool true => Some "true"
  | VBool false => Some "false"
  | VNum repr =>
      if String.eqb repr "NaN" || String.eqb repr "Infinity"
         || String.eqb repr "-Infinity"
      then Some "null" else Some repr
  | VStr s => Some (quote_string s)
  | VArr [] => Some "[]"
  | VArr items =>
      let parts :=
        map (fun item => match JSON_stringify_at (S depth) item with
                         | Some t => t
                         | None => "null"
                         end) items in
      Some ("[" ++ newline ++ inner
              ++ String.concat ("," ++ newline ++ inner) parts
              ++ newline ++ outer ++ "]")
  | VObj props =>
      let members :=
        flat_map (fun kv => match JSON_stringify_at (S depth) (snd kv) with
                            | Some t => [quote_string (fst kv) ++ ": " ++ t]
                            | None => []
                            end) props in
      match members with
      | [] => Some "{}"
      | _ => Some ("{" ++ newline ++ inner
                     ++ String.concat ("," ++ newline ++ inner) members
                     ++ newline ++ outer ++ "}")
      end
  end.

(** [`${JSON.stringify(v, null, 2)}`] *)
Definition JSON_stringify (v : value) : string :=
  match JSON_stringify_at 0 v with
  | Some t => t
  | None => "undefined"
  end.

(** ** Payloads of the remote API *)

(** [{ fields?: { summary } }] *)
Record RawSummary : Type := { rs_summary : option string }.

(** A lightweight record inside a payload: a parent, a subtask, the issue
    at the other end of a link. *)
Record RawRef : Type := {
  rr_id : string;
  rr_key : string;
  rr_fields : option RawSummary
}.

Record RawLinkType : Type := {
  lt_inward : option string;
  lt_outward : option string
}.

Record RawLink : Type := {
  rl_inwardIssue : option RawRef;
  rl_outwardIssue : option RawRef;
  rl_type : RawLinkType
}.

(** [{ content?: any[] }]: a description or a comment body. *)
Record RawDoc : Type := { doc_content : value }.

Record RawStatus : Type := { st_name : option string }.

Record RawFields : Type := {
  f_summary : option string;
  f_status : option RawStatus;
  f_created : option string;
  f_updated : option string;
  f_description : option RawDoc;
  f_customfield_10016 : option value;
  f_issuelinks : option (list RawLink);
  f_parent : option RawRef;
  f_customfield_10014 : option string;
  f_subtasks : option (list RawRef)
}.

Record RawIssue : Type := {
  raw_id : string;
  raw_key : string;
  raw_fields : option RawFields
}.

Record RawAuthor : Type := { au_displayName : option string }.

Record RawComment : Type := {
  rc_id : string;
  rc_body : option RawDoc;
  rc_author : option RawAuthor;
  rc_created : string;
  rc_updated : string
}.

(** ** Normalised records *)

Record IssueRef : Type := {
  ref_id : string;
  ref_key : string;
  ref_summary : option string
}.

Record CleanComment : Type := {
  c_id : string;
  c_body : string;
  c_author : option string;
  c_created : string;
  c_updated : string;
  c_mentions : list RelatedIssue
}.

Record CleanJiraIssue : Type := {
  id : string;
  key : string;
  summary : option string;
  status : option string;
  created : option string;
  updated : option string;
  description : string;
  relatedIssues : list RelatedIssue;
  storyPoints : option value;
  parent : option IssueRef;
  epicLink : option IssueRef;
  children : option (list IssueRef);
  comments : option (list CleanComment)
}.

(** Assignments to one property of a record under construction. *)
Definition set_relatedIssues (i : CleanJiraIssue) (r : list RelatedIssue)
  : CleanJiraIssue :=
  {| id := id i; key := key i; summary := summary i; status := status i;
     created := created i; updated := updated i; description := description i;
     relatedIssues := r; storyPoints := storyPoints i; parent := parent i;
     epicLink := epicLink i; children := children i; comments := comments i |}.

Definition set_comments (i : CleanJiraIssue) (c : list CleanComment)
  : CleanJiraIssue :=
  {| id := id i; key := key i; summary := summary i; status := status i;
     created := created i; updated := updated i; description := description i;
     relatedIssues := relatedIssues i; storyPoints := storyPoints i;
     parent := parent i; epicLink := epicLink i; children := children i;
     comments := Some c |}.

Definition set_epicLink_summary (i : CleanJiraIssue) (s : option string)
  : CleanJiraIssue :=
  {| id := id i; key := key i; summary := summary i; status := status i;
     created := created i; updated := updated i; description := description i;
     relatedIssues := relatedIssues i; storyPoints := storyPoints i;
     parent := parent i;
     epicLink := match epicLink i with
                 | Some e => Some {| ref_id := ref_id e; ref_key := ref_key e;
                                     ref_summary := s |}
                 | None => None
                 end;
     children := children i; comments := comments i |}.

(** [x?.fields?.summary] *)
Definition summary_of (fields : option RawSummary) : option string :=
  match fields with
  | Some f => rs_summary f
  | None => None
  end.

(** [doc?.content] *)
Definition content_of (doc : option RawDoc) : value :=
  match doc with
  | Some d => doc_content d
  | None => VUndefined
  end.

(** ** Comment Normalizer *)

Definition cleanComment (comment : RawComment) : result CleanComment :=
  let content := content_of (rc_body comment) in
  body <- (if truthy content then extractTextContent content else Ok "") ;;
  mentions <- (if truthy content
               then extractIssueMentions Comment (Some (rc_id comment)) content
               else Ok []) ;;
  Ok {| c_id := rc_id comment;
        c_body := body;
        c_author := match rc_author comment with
                    | Some a => au_displayName a
                    | None => None
                    end;
        c_created := rc_created comment;
        c_updated := rc_updated comment;
        c_mentions := mentions |}.

(** ** Record Normalizer *)

Definition to_ref (r : RawRef) : IssueRef :=
  {| ref_id := rr_id r; ref_key := rr_key r;
     ref_summary := summary_of (rr_fields r) |}.

(** The callback of [issuelinks.map]: [linkedIssue.key] throws when the
    link has neither end. *)
Definition clean_link (l : RawLink) : result RelatedIssue :=
  let linkedIssue := match rl_inwardIssue l with
                     | Some i => Some i
                     | None => rl_outwardIssue l
                     end in
  let relationship := match lt_inward (rl_type l) with
                      | Some s => if nonempty s then Some s
                                  else lt_outward (rl_type l)
                      | None => lt_outward (rl_type l)
                      end in
  match linkedIssue with
  | None => Err TypeError
  | Some li =>
      Ok {| ri_key := rr_key li;
            ri_summary := summary_of (rr_fields li);
            ri_type := Link;
            ri_relationship := relationship;
            ri_source := Description;
            ri_commentId := None |}
  end.

(** [issue.fields?.name] *)
Definition field {A} (issue : RawIssue) (proj : RawFields -> option A) : option A :=
  match raw_fields issue with
  | Some f => proj f
  | None => None
  end.

Definition cleanIssue (issue : RawIssue) : result CleanJiraIssue :=
  let content := content_of (field issue f_description) in
  description <- (if truthy content then extractTextContent content else Ok "") ;;
  (* if (issue.fields?.description?.content) { mentions = ... } *)
  relatedIssues1 <-
    (if truthy content then
       mentions <- extractIssueMentions Description None content ;;
       Ok (if Nat.ltb 0 (List.length mentions) then mentions else [])
     else Ok []) ;;
  (* if (issue.fields?.issuelinks?.length > 0) { ... } *)
  relatedIssues2 <-
    match field issue f_issuelinks with
    | Some ((_ :: _) as issuelinks) =>
        links <- mapR clean_link issuelinks ;;
        Ok (relatedIssues1 ++ links)%list
    | _ => Ok relatedIssues1
    end ;;
  Ok {| id := raw_id issue;
        key := raw_key issue;
        summary := field issue f_summary;
        status := match field issue f_status with
                  | Some s => st_name s
                  | None => None
                  end;
        created := field issue f_created;
        updated := field issue f_updated;
        description := description;
        relatedIssues := relatedIssues2;
        storyPoints := field issue f_customfield_10016;
        parent := option_map to_ref (field issue f_parent);
        epicLink := match field issue f_customfield_10014 with
                    | Some e => if nonempty e
                                then Some {| ref_id := e; ref_key := e;
                                             ref_summary := None |}
                                else None
                    | None => None
                    end;
        children := match field issue f_subtasks with
                    | Some ((_ :: _) as subtasks) => Some (map to_ref subtasks)
                    | _ => None
                    end;
        comments := None |}.

(** ** The remote system *)

Record Request : Type := {
  req_method : string;
  req_url : string;
  req_body : option value      (* the value whose JSON text is the body *)
}.

(** What [response.json()] settles to: a rejection with the parser's
    message, or the parsed body.  The failure path reads the body untyped
    ([errorData as any]), the success path as the [T] its call site
    asserts ([fetchJson<T>]). *)
Inductive Json (T : Type) : Type :=
| SyntaxError (message : string)
| Parsed (any : value) (typed : T).

Arguments SyntaxError {T} message.
Arguments Parsed {T} any typed.

Record Response (T : Type) : Type := {
  resp_status : N;
  resp_statusText : string;
  resp_json : Json T
}.

(** What [fetch] settles to. *)
Inductive FetchOutcome (T : Type) : Type :=
| NetworkFailure (message : string)
| Responded (response : Response T).

Arguments NetworkFailure {T} message.
Arguments Responded {T} response.

(** [response.ok] *)
Definition resp_ok {T} (r : Response T) : bool :=
  (N.leb 200 (resp_status r) && N.leb (resp_status r) 299)%bool.

Record CommentsPayload : Type := { cp_comments : list RawComment }.

Record SearchPayload : Type := {
  sp_total : option value;
  sp_issues : list RawIssue
}.

Record MetaField : Type := { mf_name : option string }.

Record MetaIssueType : Type := {
  it_name : string;
  it_fields : option (list (string * MetaField))   (* in [Object.entries] order *)
}.

Record MetaProject : Type := { mp_issuetypes : option (list MetaIssueType) }.

Record CreateMeta : Type := { cm_projects : option (list MetaProject) }.

(** An issue fetched with [expand=names]: the map from field identifier
    to field name. *)
Record NamesPayload : Type := { np_names : option (list (string * string)) }.

(** The remote API, one function per shape of answer the code asks for. *)
Record Remote : Type := {
  issue_api : Request -> FetchOutcome RawIssue;
  comment_api : Request -> FetchOutcome CommentsPayload;
  search_api : Request -> FetchOutcome SearchPayload;
  createmeta_api : Request -> FetchOutcome CreateMeta;
  names_api : Request -> FetchOutcome NamesPayload;
  update_api : Request -> FetchOutcome unit
}.

Record SearchIssuesResponse : Type := {
  total : option value;
  issues : list CleanJiraIssue
}.

(** ** Computations that talk to the remote system *)

(** The requests issued, in order, and how the computation settles. *)
Definition IO (A : Type) : Type := (list Request * result A)%type.

Definition trace {A} (m : IO A) : list Request := fst m.
Definition outcome {A} (m : IO A) : result A := snd m.

Definition ret {A} (a : A) : IO A := ([], Ok a).
Definition throw {A} (e : exn) : IO A := ([], Err e).
Definition lift {A} (r : result A) : IO A := ([], r).

Definition bind {A B} (m : IO A) (f : A -> IO B) : IO B :=
  match outcome m with
  | Ok a => (trace m ++ trace (f a), outcome (f a))%list
  | Err e => (trace m, Err e)
  end.

(** [try { m } catch (error) { handler(error) }] *)
Definition try_catch {A} (m : IO A) (handler : exn -> IO A) : IO A :=
  match outcome m with
  | Ok a => m
  | Err e => (trace m ++ trace (handler e), outcome (handler e))%list
  end.

Declare Scope io_scope.
Delimit Scope io_scope with io.
Notation "x <~ m ;; k" := (bind m (fun x => k))
  (at level 61, m at next level, right associativity) : io_scope.
Local Open Scope io_scope.

(** The rejection [Promise.all] reports: that of the member which settles
    first among those that reject.  [rejections] pairs the position of
    each rejected member with its error, in position order; [best] is the
    earliest found so far. *)
Fixpoint first_rejection (settle : nat -> nat) (best : nat * exn)
    (rejections : list (nat * exn)) : exn :=
  match rejections with
  | [] => snd best
  | r :: rest =>
      first_rejection settle
        (if Nat.ltb (settle (fst r)) (settle (fst best)) then r else best)
        rest
  end.

Fixpoint rejections_from {A} (i : nat) (outcomes : list (result A))
  : list (nat * exn) :=
  match outcomes with
  | [] => []
  | Ok _ :: rest => rejections_from (S i) rest
  | Err e :: rest => (i, e) :: rejections_from (S i) rest
  end.

Fixpoint fulfilled {A} (outcomes : list (result A)) : list A :=
  match outcomes with
  | [] => []
  | Ok a :: rest => a :: fulfilled rest
  | Err _ :: rest => fulfilled rest
  end.

(** [Promise.all(members)]: every member has been started, so all their
    requests are issued whatever happens; the result is the list of their
    values, or the first rejection. *)
Definition Promise_all {A} (settle : nat -> nat) (members : list (IO A))
  : IO (list A) :=
  (List.concat (map trace members),
   match rejections_from 0 (map outcome members) with
   | [] => Ok (fulfilled (map outcome members))
   | r :: rest => Err (first_rejection settle r rest)
   end).

(** [Promise.all([a, b])] with members of two types. *)
Definition Promise_all2 {A B} (settle : nat -> nat) (a : IO A) (b : IO B)
  : IO (A * B) :=
  ((trace a ++ trace b)%list,
   match outcome a, outcome b with
   | Ok x, Ok y => Ok (x, y)
   | Err e, Ok _ => Err e
   | Ok _, Err e => Err e
   | Err ea, Err eb => Err (first_rejection settle (0, ea) [(1, eb)])
   end).

(** ** Transport *)

(** [handleFetchError(response)]: the error it throws.  The [try] block
    around the reading of the body keeps [statusText] as the message when
    the body is not JSON, is [null], or has an [errorMessages] entry that
    cannot be printed. *)
Definition handleFetchError {T} (response : Response T) : exn :=
  if negb (resp_ok response) then
    let status := resp_status response in
    let default := VStr (resp_statusText response) in
    let errorData := match resp_json response with
                     | Parsed any _ => any
                     | SyntaxError _ => VObj []
                     end in
    let message : value :=
      match resp_json response with
      | SyntaxError _ => default
      | Parsed _ _ =>
          match get errorData "errorMessages" with
          | Err _ => default
          | Ok (VArr ((_ :: _) as errorMessages)) =>
              match Array_join "; " errorMessages with
              | Ok joined => VStr joined
              | Err _ => default
              end
          | Ok _ =>
              if truthy (get_opt errorData "message")
              then get_opt errorData "message"
              else if truthy (get_opt errorData "errorMessage")
              then get_opt errorData "errorMessage"
              else default
          end
      end in
    let details := JSON_stringify errorData in
    let errorCategory :=
      if N.eqb status 401 then " [AUTHENTICATION_ERROR]"
      else if N.eqb status 403 then " [PERMISSION_ERROR]"
      else if N.eqb status 404 then " [NOT_FOUND_ERROR]"
      else if N.eqb status 400 then " [VALIDATION_ERROR]"
      else if N.leb 500 status then " [SERVER_ERROR]"
      else "" in
    match (if truthy message
           then (printed <- ToString message ;; Ok (": " ++ printed))
           else Ok "") with
    | Err e => e
    | Ok errorMessage =>
        Failure ("JIRA API Error" ++ errorCategory ++ errorMessage
                   ++ " (Status: " ++ N_to_string status ++ ")" ++ newline
                   ++ "Details: " ++ details)
    end
  else Failure "Unknown error occurred during fetch operation.".

Section Service.
Variable baseUrl : string.
Variable remote : Remote.

(** The order in which the members of a [Promise.all] settle: [settle i]
    is the time at which member [i] does. *)
Variable settle : nat -> nat.

(** [await fetch(url, init)] *)
Definition fetch {T} (api : Remote -> Request -> FetchOutcome T)
    (request : Request) : IO (Response T) :=
  ([request],
   match api remote request with
   | NetworkFailure message => Err (Failure message)
   | Responded response => Ok response
   end).

(** [fetchJson<T>(url, init)]; [method] and [body] are those of [init]. *)
Definition fetchJson {T} (api : Remote -> Request -> FetchOutcome T)
    (url : string) (method : string) (body : option value) : IO T :=
  response <~ fetch api {| req_method := method; req_url := baseUrl ++ url;
                           req_body := body |} ;;
  if negb (resp_ok response) then throw (handleFetchError response)
  else match resp_json response with
       | Parsed _ typed => ret typed
       | SyntaxError message => throw (Failure message)
       end.

Definition issue_fields : string :=
  String.concat ","
    ["id"; "key"; "summary"; "description"; "status"; "created"; "updated";
     "parent"; "subtasks"; "customfield_10014"; "customfield_10016";
     "issuelinks"].

Definition dq : string := String (ascii_of_nat 34) EmptyString.

Definition searchIssues (searchString : string) : IO SearchIssuesResponse :=
  let params := URLSearchParams_toString
                  [("jql", searchString); ("maxResults", "50");
                   ("fields", issue_fields);
                   ("expand", "names,renderedFields")] in
  data <~ fetchJson search_api ("/rest/api/3/search?" ++ params) "GET" None ;;
  issues <~ lift (mapR cleanIssue (sp_issues data)) ;;
  ret {| total := sp_total data; issues := issues |}.

(** The merge both aggregates perform once the comments are built. *)
Definition with_comments (cleanedIssue : CleanJiraIssue)
    (comments : list CleanComment) : CleanJiraIssue :=
  let commentMentions := flat_map c_mentions comments in
  set_comments
    (set_relatedIssues cleanedIssue
       (relatedIssues cleanedIssue ++ commentMentions)%list)
    comments.

Definition getEpicChildren (epicKey : string) : IO (list CleanJiraIssue) :=
  let params := URLSearchParams_toString
                  [("jql", dq ++ "Epic Link" ++ dq ++ " = " ++ epicKey);
                   ("maxResults", "100");
                   ("fields", issue_fields);
                   ("expand", "names,renderedFields")] in
  data <~ fetchJson search_api ("/rest/api/3/search?" ++ params) "GET" None ;;
  Promise_all settle
    (map (fun issue =>
            commentsData <~ fetchJson comment_api
                              ("/rest/api/3/issue/" ++ raw_key issue ++ "/comment")
                              "GET" None ;;
            cleanedIssue <~ lift (cleanIssue issue) ;;
            comments <~ lift (mapR cleanComment (cp_comments commentsData)) ;;
            ret (with_comments cleanedIssue comments))
       (sp_issues data)).

Definition getIssueWithComments (issueId : string) : IO CleanJiraIssue :=
  let params := URLSearchParams_toString
                  [("fields", issue_fields);
                   ("expand", "names,renderedFields")] in
  fetched <~ try_catch
               (Promise_all2 settle
                  (fetchJson issue_api
                     ("/rest/api/3/issue/" ++ issueId ++ "?" ++ params)
                     "GET" None)
                  (fetchJson comment_api
                     ("/rest/api/3/issue/" ++ issueId ++ "/comment")
                     "GET" None))
               (fun error =>
                  match error with
                  | Failure message =>
                      if includes message "(Status: 404)"
                      then throw (Failure ("Issue not found: " ++ issueId))
                      else throw error
                  | TypeError =>
                      (* the engine's wording of a type error does not
                         quote the status *)
                      throw error
                  end) ;;
  let (issueData, commentsData) := fetched in
  issue <~ lift (cleanIssue issueData) ;;
  comments <~ lift (mapR cleanComment (cp_comments commentsData)) ;;
  let issue := with_comments issue comments in
  match epicLink issue with
  | Some epic =>
      try_catch
        (epicData <~ fetchJson issue_api
                       ("/rest/api/3/issue/" ++ ref_key epic ++ "?fields=summary")
                       "GET" None ;;
         ret (set_epicLink_summary issue (field epicData f_summary)))
        (fun _ => ret issue)
  | None => ret issue
  end.

(** [updateIssue(issueKey, fields)] *)
Definition updateIssue (issueKey : string) (fields : list (string * value))
  : IO unit :=
  response <~ fetch update_api
                {| req_method := "PUT";
                   req_url := baseUrl ++ "/rest/api/3/issue/" ++ issueKey;
                   req_body := Some (VObj [("fields", VObj fields)]) |} ;;
  if negb (resp_ok response) then throw (handleFetchError response)
  else ret tt.

Definition getCreateMeta (projectKey : string) (issueType : string)
  : IO CreateMeta :=
  let params := URLSearchParams_toString
                  ([("projectKeys", projectKey);
                    ("expand", "projects.issuetypes.fields")]
                   ++ (if nonempty issueType
                       then [("issuetypeNames", issueType)] else []))%list in
  fetchJson createmeta_api ("/rest/api/3/issue/createmeta?" ++ params)
    "GET" None.

Definition storyPointsFieldNames : list string :=
  ["story points"; "storypoints"; "story point estimate"; "estimate"; "points"].

Definition commonStoryPointsFields : list string :=
  ["customfield_10002"; "customfield_10016"; "customfield_10020";
   "customfield_10026"; "customfield_10004"; "customfield_10008"].

(** The loop over [Object.entries(storyIssueType.fields)]. *)
Fixpoint scan_fields (entries : list (string * MetaField)) : option string :=
  match entries with
  | [] => None
  | (fieldId, fieldInfo) :: rest =>
      let fieldName := match mf_name fieldInfo with
                       | Some n => toLowerCase n
                       | None => ""
                       end in
      if existsb (fun name => includes fieldName name) storyPointsFieldNames
      then Some fieldId
      else scan_fields rest
  end.

(** The first part of [findStoryPointsField]: the field the creation
    metadata names, if any. *)
Definition scan_createMeta (createMeta : CreateMeta) (issueType : string)
  : option string :=
  match cm_projects createMeta with
  | Some (project :: _) =>
      let storyIssueType :=
        match mp_issuetypes project with
        | Some issuetypes =>
            find (fun it => String.eqb (toLowerCase (it_name it))
                              (toLowerCase issueType)) issuetypes
        | None => None
        end in
      match storyIssueType with
      | Some it =>
          match it_fields it with
          | Some fields => scan_fields fields
          | None => None
          end
      | None => None
      end
  | _ => None
  end.

(** [names[fieldId]] *)
Definition name_of (names : list (string * string)) (fieldId : string)
  : option string :=
  with_prop fieldId (fun n : string => Some n) None names.

(** The loop over [commonStoryPointsFields]. *)
Fixpoint probe_names (fullIssue : NamesPayload) (candidates : list string)
  : option string :=
  match candidates with
  | [] => None
  | fieldId :: rest =>
      let hit :=
        match np_names fullIssue with
        | Some names =>
            match name_of names fieldId with
            | Some n =>
                if nonempty n then
                  let fieldName := toLowerCase n in
                  includes fieldName "story" && includes fieldName "point"
                else false
            | None => false
            end
        | None => false
        end in
      if hit then Some fieldId else probe_names fullIssue rest
  end.

(** [findStoryPointsField(projectKey, issueType = "Story")]; the result
    is [None] for [null]. *)
Definition findStoryPointsField (projectKey : string)
    (issueType : option string) : IO (option string) :=
  let issueType := match issueType with Some t => t | None => "Story" end in
  try_catch
    (createMeta <~ getCreateMeta projectKey issueType ;;
     match scan_createMeta createMeta issueType with
     | Some fieldId => ret (Some fieldId)
     | None =>
         searchResult <~ searchIssues
                           ("project = " ++ projectKey ++ " AND issuetype = "
                              ++ dq ++ issueType ++ dq) ;;
         match issues searchResult with
         | first :: _ =>
             let testIssueKey := key first in
             fullIssue <~ fetchJson names_api
                            ("/rest/api/3/issue/" ++ testIssueKey
                               ++ "?expand=names") "GET" None ;;
             ret (probe_names fullIssue commonStoryPointsFields)
         | [] => ret None
         end
     end)
    (fun _ => ret None).

Definition not_found_message (projectKey : string) : string :=
  "Story points field not found for project " ++ projectKey
    ++ ". Please check if story points are configured for this project and issue type.".

(** [updateStoryPoints(issueKey, storyPoints)] *)
Definition updateStoryPoints (issueKey : string) (storyPoints : value)
  : IO unit :=
  let projectKey := before_first "-" issueKey in
  storyPointsFieldId <~ findStoryPointsField projectKey (Some "Story") ;;
  match storyPointsFieldId with
  | Some fieldId =>
      if nonempty fieldId
      then updateIssue issueKey [(fieldId, storyPoints)]
      else throw (Failure (not_found_message projectKey))
  | None => throw (Failure (not_found_message projectKey))
  end.

End Service.

(** ** Notions the properties are stated with *)

(** The keys of [ks] without repetition, each at the place of its first
    occurrence. *)
Fixpoint first_occurrences (ks : list string) : list string :=
  match ks with
  | [] => []
  | k :: rest =>
      k :: filter (fun k' => negb (String.eqb k' k)) (first_occurrences rest)
  end.

(** The value of the last entry of [entries] under the key [k]. *)
Fixpoint last_entry {V : Type} (k : string) (entries : list (string * V))
  : option V :=
  match entries with
  | [] => None
  | (k', v) :: rest =>
      match last_entry k rest with
      | Some x => Some x
      | None => if String.eqb k' k then Some v else None
      end
  end.

(** The last mention of [mentions] whose identifier is [k]. *)
Definition last_with_key (k : string) (mentions : list RelatedIssue)
  : option RelatedIssue :=
  last_entry k (map (fun m => (ri_key m, m)) mentions).

(** The first value of a property list under a name. *)
Definition assoc {V : Type} (name : string) (props : list (string * V))
  : option V :=
  with_prop name (fun v => Some v) None props.

(** A well-formed node of a rich document: an object whose [text], when
    it has one, is a string, whose [attrs], when it has some, is an object
    with at most a string for [url], and whose [content], when it has one,
    is a list of well-formed nodes. *)
Fixpoint wf_node (node : value) : bool :=
  match node with
  | VObj props =>
      match lookup props "text" with
      | VUndefined | VStr _ => true
      | _ => false
      end
      && match lookup props "attrs" with
         | VUndefined => true
         | VObj attrs => match lookup attrs "url" with
                         | VUndefined | VStr _ => true
                         | _ => false
                         end
         | _ => false
         end
      && with_prop "content"
           (fun c => match c with
                     | VArr children => forallb wf_node children
                     | _ => false
                     end)
           true props
  | _ => false
  end.

(** The text payloads of the text leaves under a node, in depth-first
    document order.  A node tagged [text] is a leaf; any other node is a
    container when it has a child list. *)
Fixpoint text_leaves (node : value) : list string :=
  match node with
  | VObj props =>
      if is_string (lookup props "type") "text" then
        match lookup props "text" with
        | VStr s => [s]
        | _ => []
        end
      else
        with_prop "content"
          (fun c => match c with
                    | VArr children => flat_map text_leaves children
                    | _ => []
                    end)
          [] props
  | _ => []
  end.

(** Induction over a value and the values inside it. *)
Section ValueInduction.
Variable P : value -> Prop.
Hypothesis P_undefined : P VUndefined.
Hypothesis P_null : P VNull.
Hypothesis P_bool : forall b, P (VBool b).
Hypothesis P_num : forall r, P (VNum r).
Hypothesis P_str : forall s, P (VStr s).
Hypothesis P_arr : forall items, Forall P items -> P (VArr items).
Hypothesis P_obj :
  forall props, Forall (fun kv => P (snd kv)) props -> P (VObj props).

Fixpoint value_nested_ind (v : value) : P v :=
  match v with
  | VUndefined => P_undefined
  | VNull => P_null
  | VBool b => P_bool b
  | VNum r => P_num r
  | VStr s => P_str s
  | VArr items =>
      P_arr ((fix all (l : list value) : Forall P l :=
                match l with
                | [] => Forall_nil P
                | x :: l' => Forall_cons x (value_nested_ind x) (all l')
                end) items)
  | VObj props =>
      P_obj ((fix all (l : list (string * value))
                : Forall (fun kv => P (snd kv)) l :=
                match l with
                | [] => Forall_nil _
                | (k, x) :: l' =>
                    Forall_cons (k, x) (value_nested_ind x) (all l')
                end) props)
  end.
End ValueInduction.

(** The callback [extractTextContent] maps over the nodes. *)
Definition text_piece (node : value) : result value :=
  match node with
  | VUndefined | VNull => Err TypeError
  | VObj props =>
      if is_string (lookup props "type") "text" then
        Ok (or_else (lookup props "text") (VStr ""))
      else
        with_prop "content"
          (fun c =>
             if truthy c then s <- extractTextContent c ;; Ok (VStr s)
             else Ok (VStr ""))
          (Ok (VStr "")) props
  | _ => Ok (VStr "")
  end.

(** [Array.isArray(v)] *)
Definition Array_isArray (v : value) : bool :=
  match v with
  | VArr _ => true
  | _ => false
  end.

(** The content of the narrative field is absent, or a well-formed node
    list. *)
Definition wf_content (content : value) : bool :=
  if truthy content then
    match content with
    | VArr nodes => forallb wf_node nodes
    | _ => false
    end
  else true.

(** The narrative mentions of a payload: the Mention Extractor on the
    description's content, nothing when there is no content. *)
Definition narrative_mentions (issue : RawIssue) : result (list RelatedIssue) :=
  let content := content_of (field issue f_description) in
  if truthy content then extractIssueMentions Description None content
  else Ok [].

(** The structured links of a payload, in payload order. *)
Definition issuelinks_of (issue : RawIssue) : list RawLink :=
  match field issue f_issuelinks with
  | Some links => links
  | None => []
  end.

(** The issue at the other end of a link. *)
Definition linked_issue (l : RawLink) : option RawRef :=
  match rl_inwardIssue l with
  | Some i => Some i
  | None => rl_outwardIssue l
  end.

Definition has_linked_issue (l : RawLink) : bool :=
  match linked_issue l with
  | Some _ => true
  | None => false
  end.

(** The paths the aggregates ask for. *)
Definition issue_path (issueId : string) : string :=
  "/rest/api/3/issue/" ++ issueId ++ "?"
    ++ URLSearchParams_toString
         [("fields", issue_fields); ("expand", "names,renderedFields")].

Definition comment_path (issueId : string) : string :=
  "/rest/api/3/issue/" ++ issueId ++ "/comment".

Definition epic_summary_path (epicKey : string) : string :=
  "/rest/api/3/issue/" ++ epicKey ++ "?fields=summary".

Definition epic_children_path (epicKey : string) : string :=
  "/rest/api/3/search?"
    ++ URLSearchParams_toString
         [("jql", dq ++ "Epic Link" ++ dq ++ " = " ++ epicKey);
          ("maxResults", "100");
          ("fields", issue_fields);
          ("expand", "names,renderedFields")].

(** What an aggregate makes of a fetched record and its comments: the
    record's own relationship list, then the mentions of every comment in
    comment order, nothing removed. *)
Definition merged (issue : RawIssue) (commentsData : CommentsPayload)
    (r : CleanJiraIssue) : Prop :=
  exists cleaned cs,
    cleanIssue issue = Ok cleaned
    /\ mapR cleanComment (cp_comments commentsData) = Ok cs
    /\ relatedIssues r
       = (relatedIssues cleaned ++ List.concat (map c_mentions cs))%list
    /\ comments r = Some cs.

(** The two sub-fetches of the single-record aggregate, joined. *)
Definition joined_fetch baseUrl remote settle (issueId : string)
  : IO (RawIssue * CommentsPayload) :=
  Promise_all2 settle
    (fetchJson baseUrl remote issue_api (issue_path issueId) "GET" None)
    (fetchJson baseUrl remote comment_api (comment_path issueId) "GET" None).

(** What the single-record aggregate throws when its joined sub-fetches
    reject with [e]. *)
Definition reported (issueId : string) (e : exn) : exn :=
  match e with
  | Failure message =>
      if includes message "(Status: 404)"
      then Failure ("Issue not found: " ++ issueId)
      else e
  | TypeError => e
  end.

(** A request that only reads. *)
Definition is_GET (r : Request) : Prop := req_method r = "GET".

(** A field of the creation metadata whose lower-cased name contains one
    of the story-point words. *)
Definition names_story_points (info : MetaField) : bool :=
  let name := match mf_name info with
              | Some n => toLowerCase n
              | None => ""
              end in
  existsb (fun word => includes name word) storyPointsFieldNames.

(** The issue type of the creation metadata whose name is the role asked
    for, letter case aside. *)
Definition matching_issue_type (createMeta : CreateMeta) (issueType : string)
  : option MetaIssueType :=
  match cm_projects createMeta with
  | Some (project :: _) =>
      match mp_issuetypes project with
      | Some issuetypes =>
          find (fun it => String.eqb (toLowerCase (it_name it))
                            (toLowerCase issueType)) issuetypes
      | None => None
      end
  | _ => None
  end.

(** The identifier of the first field, in metadata order, of the matching
    issue type that names story points. *)
Definition metadata_field (createMeta : CreateMeta) (issueType : string)
  : option string :=
  match matching_issue_type createMeta issueType with
  | Some it =>
      match it_fields it with
      | Some fields =>
          option_map fst (find (fun kv => names_story_points (snd kv)) fields)
      | None => None
      end
  | None => None
  end.

(** The identifier is present in the field-name map of the probed record
    and its name contains both words. *)
Definition resolves_story_points (fullIssue : NamesPayload) (fieldId : string)
  : bool :=
  match np_names fullIssue with
  | Some names =>
      match name_of names fieldId with
      | Some n =>
          nonempty n
          && includes (toLowerCase n) "story"
          && includes (toLowerCase n) "point"
      | None => false
      end
  | None => false
  end.

(** The first identifier of the shortlist that resolves on the probed
    record. *)
Definition probed_field (fullIssue : NamesPayload) : option string :=
  find (resolves_story_points fullIssue) commonStoryPointsFields.

(** The query that looks for an existing record of a role. *)
Definition probe_jql (projectKey issueType : string) : string :=
  "project = " ++ projectKey ++ " AND issuetype = " ++ dq ++ issueType ++ dq.

Definition names_path (issueKey : string) : string :=
  "/rest/api/3/issue/" ++ issueKey ++ "?expand=names".

(** The role discovery looks for: [Story] unless one is given. *)
Definition role (issueType : option string) : string :=
  match issueType with
  | Some t => t
  | None => "Story"
  end.

(** What discovery is to return: the field the metadata names; failing
    that, the field the probe of one existing record resolves; [None] when
    neither resolves or a collaborator fails. *)
Definition discovered (baseUrl : string) (remote : Remote)
    (projectKey : string) (issueType : option string) : option string :=
  match outcome (getCreateMeta baseUrl remote projectKey (role issueType)) with
  | Err _ => None
  | Ok createMeta =>
      match metadata_field createMeta (role issueType) with
      | Some fieldId => Some fieldId
      | None =>
          match outcome (searchIssues baseUrl remote
                           (probe_jql projectKey (role issueType))) with
          | Err _ => None
          | Ok searchResult =>
              match issues searchResult with
              | [] => None
              | first :: _ =>
                  match outcome (fetchJson baseUrl remote names_api
                                   (names_path (key first)) "GET" None) with
                  | Err _ => None
                  | Ok fullIssue => probed_field fullIssue
                  end
              end
          end
      end
  end.

(** ** Sample data *)

Definition text_node (s : string) : value :=
  VObj [("type", VStr "text"); ("text", VStr s)].

Definition paragraph (children : list value) : value :=
  VObj [("type", VStr "paragraph"); ("content", VArr children)].

Definition inline_card (url : string) : value :=
  VObj [("type", VStr "inlineCard"); ("attrs", VObj [("url", VStr url)])].

(** A paragraph that names [B-1] twice, once on each side of a card for
    [C-2], and a node that is neither text nor container. *)
Definition sample_nodes : list value :=
  [paragraph [text_node "see B-1 and ";
              inline_card "https://jira.example/browse/C-2";
              text_node " then B-1, D-3"];
   VObj [("type", VStr "rule")]].

Definition sample_link (k : string) : RawLink :=
  {| rl_inwardIssue := None;
     rl_outwardIssue := Some {| rr_id := "10003"; rr_key := k;
                                rr_fields := Some {| rs_summary := Some "Other" |} |};
     rl_type := {| lt_inward := Some "is blocked by";
                   lt_outward := Some "blocks" |} |}.

(** A record whose narrative mentions [A-1] and [B-2], with one structured
    link to [C-3] and an epic link to [E-9]. *)
Definition sample_issue : RawIssue :=
  {| raw_id := "10001";
     raw_key := "P-1";
     raw_fields :=
       Some {| f_summary := Some "A story";
               f_status := Some {| st_name := Some "To Do" |};
               f_created := Some "2024-01-01";
               f_updated := Some "2024-01-02";
               f_description :=
                 Some {| doc_content :=
                           VArr [paragraph [text_node "A-1 needs B-2, see A-1"]] |};
               f_customfield_10016 := Some (VNum "3");
               f_issuelinks := Some [sample_link "C-3"];
               f_parent := None;
               f_customfield_10014 := Some "E-9";
               f_subtasks := None |} |}.

Definition sample_comment (i text : string) : RawComment :=
  {| rc_id := i;
     rc_body := Some {| doc_content := VArr [paragraph [text_node text]] |};
     rc_author := Some {| au_displayName := Some "Ann" |};
     rc_created := "2024-01-03";
     rc_updated := "2024-01-03" |}.

(** Two comments, the first mentioning [X-7], the second [Y-8] and
    [X-7]. *)
Definition sample_comments : CommentsPayload :=
  {| cp_comments := [sample_comment "c1" "X-7";
                     sample_comment "c2" "Y-8 and X-7"] |}.

Definition sample_base : string := "https://jira.example".

Definition answered {T : Type} (body : T) : FetchOutcome T :=
  Responded {| resp_status := 200; resp_statusText := "OK";
               resp_json := Parsed VNull body |}.

(** An error answer with Jira's usual body; [filler] stands for the view
    of that body at the type the call site asserts, which is never read. *)
Definition refused {T : Type} (status : N) (statusText message : string)
    (filler : T) : FetchOutcome T :=
  Responded {| resp_status := status; resp_statusText := statusText;
               resp_json := Parsed (VObj [("errorMessages", VArr [VStr message]);
                                          ("errors", VObj [])])
                              filler |}.

(** The answer listed for the request's URL, [otherwise] when none is. *)
Definition by_url {T : Type} (table : list (string * FetchOutcome T))
    (otherwise : FetchOutcome T) (request : Request) : FetchOutcome T :=
  with_prop (req_url request) (fun answer => answer) otherwise table.

Definition no_issue : RawIssue :=
  {| raw_id := ""; raw_key := ""; raw_fields := None |}.

Definition no_comments : CommentsPayload := {| cp_comments := [] |}.

Definition no_results : SearchPayload :=
  {| sp_total := Some (VNum "0"); sp_issues := [] |}.

Definition story_meta (fields : list (string * MetaField)) : CreateMeta :=
  {| cm_projects :=
       Some [{| mp_issuetypes :=
                  Some [{| it_name := "Bug"; it_fields := Some [] |};
                        {| it_name := "Story"; it_fields := Some fields |}] |}] |}.

Definition named (n : string) : MetaField := {| mf_name := Some n |}.

(** A remote that knows the record [P-1], its comments and the children of
    the epic [E-9], but not the epic itself; its creation metadata names a
    story-point field. *)
Definition sample_remote : Remote :=
  {| issue_api :=
       by_url [((sample_base ++ issue_path "P-1"), answered sample_issue)]
         (refused 404 "Not Found" "Issue does not exist" no_issue);
     comment_api :=
       by_url [((sample_base ++ comment_path "P-1"), answered sample_comments)]
         (refused 404 "Not Found" "Issue does not exist" no_comments);
     search_api :=
       by_url [((sample_base ++ epic_children_path "E-9"),
                answered {| sp_total := Some (VNum "1");
                            sp_issues := [sample_issue] |})]
         (answered no_results);
     createmeta_api :=
       fun _ => answered (story_meta [("summary", named "Summary");
                                      ("customfield_10031",
                                       named "Story Point Estimate");
                                      ("customfield_10016",
                                       named "Story Points")]);
     names_api := fun _ => NetworkFailure "fetch failed";
     update_api :=
       fun _ => Responded {| resp_status := 204; resp_statusText := "No Content";
                             resp_json := SyntaxError "Unexpected end of JSON input" |}
  |}.

(** The record is there but its comments answer 404. *)
Definition remote_comments_gone : Remote :=
  {| issue_api := fun _ => answered sample_issue;
     comment_api :=
       fun _ => refused 404 "Not Found" "Issue does not exist" no_comments;
     search_api := search_api sample_remote;
     createmeta_api := createmeta_api sample_remote;
     names_api := names_api sample_remote;
     update_api := update_api sample_remote |}.

(** The record fetch answers 500 with a message that quotes a 404. *)
Definition remote_server_error : Remote :=
  {| issue_api :=
       fun _ => refused 500 "Internal Server Error"
                  "upstream said (Status: 404)" no_issue;
     comment_api := fun _ => answered sample_comments;
     search_api := search_api sample_remote;
     createmeta_api := createmeta_api sample_remote;
     names_api := names_api sample_remote;
     update_api := update_api sample_remote |}.

(** The creation metadata names no story-point field; a story exists and
    its field-name map has [customfield_10016] as [Story Points]. *)
Definition remote_probe : Remote :=
  {| issue_api := issue_api sample_remote;
     comment_api := comment_api sample_remote;
     search_api :=
       fun _ => answered {| sp_total := Some (VNum "1");
                            sp_issues := [sample_issue] |};
     createmeta_api :=
       fun _ => answered (story_meta [("summary", named "Summary")]);
     names_api :=
       fun _ => answered {| np_names :=
                              Some [("summary", "Summary");
                                    ("customfield_10020", "Sprint");
                                    ("customfield_10016", "Story Points")] |};
     update_api := update_api sample_remote |}.

(** Neither the metadata nor a probe resolves: there is no story. *)
Definition remote_unresolved : Remote :=
  {| issue_api := issue_api sample_remote;
     comment_api := comment_api sample_remote;
     search_api := fun _ => answered no_results;
     createmeta_api :=
       fun _ => answered (story_meta [("summary", named "Summary")]);
     names_api := names_api sample_remote;
     update_api := update_api sample_remote |}.

(** Nothing can be reached. *)
Definition remote_down : Remote :=
  {| issue_api := fun _ => NetworkFailure "fetch failed";
     comment_api := fun _ => NetworkFailure "fetch failed";
     search_api := fun _ => NetworkFailure "fetch failed";
     createmeta_api := fun _ => NetworkFailure "fetch failed";
     names_api := fun _ => NetworkFailure "fetch failed";
     update_api := fun _ => NetworkFailure "fetch failed" |}.

(** Members settle in the order they were started. *)
Definition in_order (i : nat) : nat := i.

(** The record answers 404 while its comments are served. *)
Definition remote_record_gone : Remote :=
  {| issue_api :=
       fun _ => refused 404 "Not Found" "Issue does not exist" no_issue;
     comment_api := fun _ => answered sample_comments;
     search_api := search_api sample_remote;
     createmeta_api := createmeta_api sample_remote;
     names_api := names_api sample_remote;
     update_api := update_api sample_remote |}.


(** The metadata names nothing and the probe search cannot be reached. *)
Definition remote_search_down : Remote :=
  {| issue_api := issue_api remote_probe;
     comment_api := comment_api remote_probe;
     search_api := fun _ => NetworkFailure "fetch failed";
     createmeta_api := createmeta_api remote_probe;
     names_api := names_api remote_probe;
     update_api := update_api remote_probe |}.

(** The metadata names nothing and the probed record cannot be fetched. *)
Definition remote_names_down : Remote :=
  {| issue_api := issue_api remote_probe;
     comment_api := comment_api remote_probe;
     search_api := search_api remote_probe;
     createmeta_api := createmeta_api remote_probe;
     names_api := fun _ => NetworkFailure "fetch failed";
     update_api := update_api remote_probe |}.

(** ** Further operations of the service *)

(** [createAdfFromBody(text)] *)
Definition createAdfFromBody (text : string) : value :=
  VObj [("version", VNum "1");
        ("type", VStr "doc");
        ("content",
         VArr [VObj [("type", VStr "paragraph");
                     ("content",
                      VArr [VObj [("type", VStr "text");
                                  ("text", VStr text)]])]])].

(** The numeric value of a string of decimal digits. *)
Fixpoint digits_value (acc : N) (s : string) : option N :=
  match s with
  | EmptyString => Some acc
  | String c s' =>
      if is_digit c
      then digits_value (acc * 10 + N.of_nat (nat_of_ascii c - 48)) s'
      else None
  end.

(** An array index: the canonical decimal text of an integer below
    [2^32 - 1].  An object lists its properties of this kind first, in
    ascending order, and the others after them in order of creation. *)
Definition array_index (k : string) : option N :=
  match k with
  | EmptyString => None
  | _ =>
      match digits_value 0 k with
      | Some n =>
          if String.eqb (N_to_string n) k && N.ltb n 4294967295
          then Some n else None
      | None => None
      end
  end.

(** The place of a new array-index property: before the first property
    that is not an array index or is a greater one. *)
Fixpoint insert_index (props : list (string * value)) (n : N) (k : string)
    (v : value) : list (string * value) :=
  match props with
  | [] => [(k, v)]
  | (k', v') :: rest =>
      match array_index k' with
      | Some n' => if N.ltb n n' then (k, v) :: props
                   else (k', v') :: insert_index rest n k v
      | None => (k, v) :: props
      end
  end.

(** CreateDataProperty: an existing property keeps its place and takes the
    new value, a new one is added. *)
Definition define_property (props : list (string * value)) (k : string)
    (v : value) : list (string * value) :=
  if has_own props k then Map_set props k v
  else match array_index k with
       | Some n => insert_index props n k v
       | None => (props ++ [(k, v)])%list
       end.

(** [{ ...target, ...source }] for the own properties of [source]. *)
Definition spread (target source : list (string * value))
  : list (string * value) :=
  fold_left (fun acc kv => define_property acc (fst kv) (snd kv)) source target.

(** The answer to the creation of an issue. *)
Record CreatedIssue : Type := { ci_id : string; ci_key : string }.

(** [JiraCommentResponse] *)
Record JiraCommentResponse : Type := {
  jc_id : string;
  jc_author : RawAuthor;
  jc_created : string;
  jc_updated : string;
  jc_body : RawDoc
}.

(** [AddCommentResponse] *)
Record AddCommentResponse : Type := {
  ac_id : string;
  ac_author : option string;
  ac_created : string;
  ac_updated : string;
  ac_body : string
}.

(** The [fields] object [createIssue] sends: the three properties it
    always writes, then the description when there is a non-empty one,
    then the caller's fields, each spread over what is there. *)
Definition createIssue_fields (projectKey issueType summary : string)
    (description : option string) (fields : option (list (string * value)))
  : list (string * value) :=
  let base := [("project", VObj [("key", VStr projectKey)]);
               ("summary", VStr summary);
               ("issuetype", VObj [("name", VStr issueType)])] in
  let with_description :=
    match description with
    | Some d => if nonempty d
                then spread base [("description", createAdfFromBody d)]
                else base
    | None => base
    end in
  match fields with
  | Some f => spread with_description f
  | None => with_description
  end.

(** The payload of [transitionIssue]: [update] is set only for a
    non-empty comment. *)
Definition transition_payload (transitionId : string) (comment : option string)
  : value :=
  let transition := ("transition", VObj [("id", VStr transitionId)]) in
  match comment with
  | Some c =>
      if nonempty c then
        let text := VObj [("type", VStr "text"); ("text", VStr c)] in
        let paragraph := VObj [("type", VStr "paragraph");
                               ("content", VArr [text])] in
        let body := VObj [("type", VStr "doc"); ("version", VNum "1");
                          ("content", VArr [paragraph])] in
        let add := VObj [("add", VObj [("body", body)])] in
        VObj [transition; ("update", VObj [("comment", VArr [add])])]
      else VObj [transition]
  | None => VObj [transition]
  end.

Section Writes.
Variable baseUrl : string.
Variable remote : Remote.

(** The remote API for the three requests below, each answering with the
    shape its call site asserts. *)
Variable create_api : Request -> FetchOutcome CreatedIssue.
Variable comment_post_api : Request -> FetchOutcome JiraCommentResponse.
Variable transition_api : Request -> FetchOutcome unit.

Definition createIssue (projectKey issueType summary : string)
    (description : option string) (fields : option (list (string * value)))
  : IO CreatedIssue :=
  let payload :=
    VObj [("fields",
           VObj (createIssue_fields projectKey issueType summary
                   description fields))] in
  fetchJson baseUrl remote (fun _ => create_api) "/rest/api/3/issue"
    "POST" (Some payload).

Definition transitionIssue (issueKey transitionId : string)
    (comment : option string) : IO unit :=
  response <~ fetch remote (fun _ => transition_api)
                {| req_method := "POST";
                   req_url := baseUrl ++ "/rest/api/3/issue/" ++ issueKey
                                ++ "/transitions";
                   req_body := Some (transition_payload transitionId comment) |} ;;
  if negb (resp_ok response) then throw (handleFetchError response)
  else ret tt.

Definition addCommentToIssue (issueIdOrKey body : string)
  : IO AddCommentResponse :=
  let adfBody := createAdfFromBody body in
  let payload := VObj [("body", adfBody)] in
  response <~ fetchJson baseUrl remote (fun _ => comment_post_api)
                ("/rest/api/3/issue/" ++ issueIdOrKey ++ "/comment")
                "POST" (Some payload) ;;
  text <~ lift (extractTextContent (doc_content (jc_body response))) ;;
  ret {| ac_id := jc_id response;
         ac_author := au_displayName (jc_author response);
         ac_created := jc_created response;
         ac_updated := jc_updated response;
         ac_body := text |}.

End Writes.

(** ** Notions the further properties are stated with *)

Fixpoint all_chars (p : ascii -> bool) (s : string) : bool :=
  match s with
  | EmptyString => true
  | String c s' => p c && all_chars p s'
  end.

(** The shape of an issue identifier: capital letters, a hyphen, digits,
    at least one of each. *)
Definition key_shape (k : string) : Prop :=
  exists letters digits,
    k = letters ++ "-" ++ digits
    /\ letters <> "" /\ digits <> ""
    /\ all_chars is_upper letters = true
    /\ all_chars is_digit digits = true.

(** [sub] occurs in [s]. *)
Definition occurs_in (sub s : string) : Prop :=
  exists before after, s = before ++ sub ++ after.

(** A mention as the Mention Extractor makes them for a provenance: an
    identifier of the right shape under that provenance. *)
Definition mention_of (source : Source) (commentId : option string)
    (m : RelatedIssue) : Prop :=
  key_shape (ri_key m) /\ m = mk_mention (ri_key m) source commentId.

(** The request [fetchJson] and [updateIssue] send. *)
Definition request_of (baseUrl url method : string) (body : option value)
  : Request :=
  {| req_method := method; req_url := baseUrl ++ url; req_body := body |}.

(** The text of the status in an error message. *)
Definition status_text (status : N) : string :=
  "(Status: " ++ N_to_string status ++ ")".

(** What [getEpicChildren] does for one record of the search. *)
Definition epic_child (baseUrl : string) (remote : Remote) (issue : RawIssue)
  : IO CleanJiraIssue :=
  commentsData <~ fetchJson baseUrl remote comment_api
                    (comment_path (raw_key issue)) "GET" None ;;
  cleanedIssue <~ lift (cleanIssue issue) ;;
  comments <~ lift (mapR cleanComment (cp_comments commentsData)) ;;
  ret (with_comments cleanedIssue comments).

(** The properties [createIssue] writes itself: the project, the summary,
    the issue type, and the description when it is given and not empty. *)
Definition own_fields (projectKey issueType summary : string)
    (description : option string) : list (string * value) :=
  ([("project", VObj [("key", VStr projectKey)]);
    ("summary", VStr summary);
    ("issuetype", VObj [("name", VStr issueType)])]
   ++ match description with
      | Some d => if nonempty d then [("description", createAdfFromBody d)]
                  else []
      | None => []
      end)%list.

(** The caller's fields, none when they are not given. *)
Definition given_fields (fields : option (list (string * value)))
  : list (string * value) :=
  match fields with
  | Some f => f
  | None => []
  end.

(** A character that needs no escaping in a query string, or belongs to
    an escape. *)
Definition query_safe (c : ascii) : bool :=
  let n := nat_of_ascii c in
  is_digit c || is_upper c || (Nat.leb 97 n && Nat.leb n 122)
  || Nat.eqb n 42 || Nat.eqb n 45 || Nat.eqb n 46 || Nat.eqb n 95
  || Nat.eqb n 37 || Nat.eqb n 43.

(** The number of occurrences of a character. *)
Fixpoint count_char (c : ascii) (s : string) : nat :=
  match s with
  | EmptyString => 0
  | String c' s' => (if Ascii.eqb c' c then 1 else 0) + count_char c s'
  end.


(** The paths of a search and of the creation metadata. *)
Definition search_path (searchString : string) : string :=
  "/rest/api/3/search?"
    ++ URLSearchParams_toString
         [("jql", searchString); ("maxResults", "50");
          ("fields", issue_fields);
          ("expand", "names,renderedFields")].

Definition createmeta_path (projectKey issueType : string) : string :=
  "/rest/api/3/issue/createmeta?"
    ++ URLSearchParams_toString
         ([("projectKeys", projectKey);
           ("expand", "projects.issuetypes.fields")]
          ++ (if nonempty issueType
              then [("issuetypeNames", issueType)] else []))%list.

(** A metadata field with its name in lower case. *)
Definition lower_name (entry : string * MetaField) : string * MetaField :=
  (fst entry, {| mf_name := option_map toLowerCase (mf_name (snd entry)) |}).


(** [Array.isArray(v) && v.length > 0] *)
Definition nonempty_array (v : value) : bool :=
  match v with
  | VArr (_ :: _) => true
  | _ => false
  end.

(** The error built for [response] is an API error that reports [m],
    followed by the status. *)
Definition reports {T} (response : Response T) (m : string) : Prop :=
  exists message,
    handleFetchError response = Failure message
    /\ includes message
         (": " ++ m ++ " " ++ status_text (resp_status response)) = true.

(** ** Sample data for the writes *)

(** A comment as the remote stores it: the posted document, an
    identifier, an author and dates. *)
Definition stored_comment (text : string) : JiraCommentResponse :=
  {| jc_id := "c9";
     jc_author := {| au_displayName := Some "Ann" |};
     jc_created := "2024-01-05";
     jc_updated := "2024-01-05";
     jc_body := {| doc_content := get_opt (createAdfFromBody text) "content" |} |}.

Definition sample_comment_post (text : string)
  : Request -> FetchOutcome JiraCommentResponse :=
  fun _ => answered (stored_comment text).

Definition sample_create : Request -> FetchOutcome CreatedIssue :=
  fun _ => answered {| ci_id := "10002"; ci_key := "P-2" |}.

(** A transition is answered with no content. *)
Definition sample_transition : Request -> FetchOutcome unit :=
  fun _ => Responded {| resp_status := 204; resp_statusText := "No Content";
                        resp_json := SyntaxError "Unexpected end of JSON input" |}.

(** An error answer whose body holds all three places of a message. *)
Definition crowded_refusal : Response unit :=
  {| resp_status := 400; resp_statusText := "Bad Request";
     resp_json := Parsed (VObj [("message", VStr "from message");
                                ("errorMessage", VStr "from errorMessage");
                                ("errorMessages",
                                 VArr [VStr "first"; VStr "second"])])
                    tt |}.
(** * Properties *)

(** ** The insertion-ordered map *)

Lemma Map_set_keys {V} (m : list (string * V)) k v :
  map fst (Map_set m k v)
  = if existsb (String.eqb k) (map fst m) then map fst m
    else (map fst m ++ [k])%list.
Proof.
  induction m as [|[k' v'] m IH]; simpl; [reflexivity|].
  rewrite (String.eqb_sym k k').
  destruct (String.eqb k' k) eqn:E; simpl; [reflexivity|].
  rewrite IH. destruct (existsb (String.eqb k) (map fst m)); reflexivity.
Qed.

Lemma filter_filter_and {A} (p q : A -> bool) l :
  filter p (filter q l) = filter (fun x => q x && p x) l.
Proof.
  induction l as [|a l IH]; simpl; [reflexivity|].
  destruct (q a); simpl; [destruct (p a)|]; rewrite IH; reflexivity.
Qed.

Lemma Map_fold_keys {V} (entries : list (string * V)) :
  forall m,
    map fst (fold_left (fun m e => Map_set m (fst e) (snd e)) entries m)
    = (map fst m
         ++ filter (fun k => negb (existsb (String.eqb k) (map fst m)))
              (first_occurrences (map fst entries)))%list.
Proof.
  induction entries as [|[k v] es IH]; intros m; simpl.
  - rewrite app_nil_r. reflexivity.
  - rewrite IH, Map_set_keys.
    destruct (existsb (String.eqb k) (map fst m)) eqn:E; simpl.
    + f_equal. rewrite filter_filter_and. apply filter_ext. intros x.
      destruct (String.eqb x k) eqn:Exk; [|reflexivity].
      apply String.eqb_eq in Exk. subst x. rewrite E. reflexivity.
    + rewrite <- app_assoc. simpl. f_equal. f_equal.
      rewrite filter_filter_and. apply filter_ext. intros x.
      rewrite existsb_app. simpl. rewrite orb_false_r.
      destruct (existsb (String.eqb x) (map fst m)), (String.eqb x k); reflexivity.
Qed.

Lemma Map_of_entries_keys {V} (entries : list (string * V)) :
  map fst (Map_of_entries entries) = first_occurrences (map fst entries).
Proof.
  unfold Map_of_entries. rewrite Map_fold_keys. simpl.
  induction (first_occurrences (map fst entries)) as [|a l IH]; simpl; congruence.
Qed.

Lemma first_occurrences_In ks k : In k (first_occurrences ks) <-> In k ks.
Proof.
  induction ks as [|a ks IH]; simpl; [tauto|].
  rewrite filter_In, IH. split.
  - intros [H|[H _]]; auto.
  - intros [H|H]; auto. destruct (String.eqb k a) eqn:E.
    + apply String.eqb_eq in E. auto.
    + right. auto.
Qed.

Lemma NoDup_filter {A} (p : A -> bool) l : NoDup l -> NoDup (filter p l).
Proof.
  induction 1 as [|a l Hin Hnd IH]; simpl; [constructor|].
  destruct (p a); [constructor; [rewrite filter_In; tauto | exact IH] | exact IH].
Qed.

Lemma first_occurrences_NoDup ks : NoDup (first_occurrences ks).
Proof.
  induction ks as [|a ks IH]; simpl; constructor.
  - rewrite filter_In, String.eqb_refl. simpl. intros [_ H]. discriminate.
  - apply NoDup_filter, IH.
Qed.

Lemma Map_set_assoc {V} (m : list (string * V)) k v k0 :
  assoc k0 (Map_set m k v) = if String.eqb k k0 then Some v else assoc k0 m.
Proof.
  unfold assoc. induction m as [|[k' v'] m IH]; simpl.
  - reflexivity.
  - destruct (String.eqb k' k) eqn:E; simpl.
    + apply String.eqb_eq in E. subst k'. destruct (String.eqb k k0); reflexivity.
    + destruct (String.eqb k' k0) eqn:E0.
      * destruct (String.eqb k k0) eqn:E1; [|reflexivity].
        apply String.eqb_eq in E0, E1. subst. rewrite String.eqb_refl in E. discriminate.
      * exact IH.
Qed.

Lemma Map_fold_assoc {V} (entries : list (string * V)) k0 :
  forall m,
    assoc k0 (fold_left (fun m e => Map_set m (fst e) (snd e)) entries m)
    = match last_entry k0 entries with
      | Some v => Some v
      | None => assoc k0 m
      end.
Proof.
  induction entries as [|[k v] es IH]; intros m; simpl; [reflexivity|].
  rewrite IH, Map_set_assoc.
  destruct (last_entry k0 es); [reflexivity|].
  destruct (String.eqb k k0); reflexivity.
Qed.

Lemma In_assoc_NoDup {V} (m : list (string * V)) k v :
  NoDup (map fst m) -> In (k, v) m -> assoc k m = Some v.
Proof.
  unfold assoc. induction m as [|[k' v'] m IH]; simpl; intros Hnd Hin; [tauto|].
  inversion Hnd as [|? ? Hnotin Hnd']; subst.
  destruct Hin as [H|H].
  - inversion H; subst. rewrite String.eqb_refl. reflexivity.
  - destruct (String.eqb k' k) eqn:E.
    + apply String.eqb_eq in E. subst k'. exfalso. apply Hnotin.
      apply (in_map fst) in H. exact H.
    + apply IH; assumption.
Qed.

Lemma Map_of_entries_values {V} (entries : list (string * V)) k v :
  In (k, v) (Map_of_entries entries) -> last_entry k entries = Some v.
Proof.
  intros Hin. apply In_assoc_NoDup in Hin.
  - unfold Map_of_entries in Hin. rewrite Map_fold_assoc in Hin.
    destruct (last_entry k entries); [exact Hin | discriminate].
  - rewrite Map_of_entries_keys. apply first_occurrences_NoDup.
Qed.

Lemma last_entry_key (ms : list RelatedIssue) k x :
  last_with_key k ms = Some x -> ri_key x = k.
Proof.
  unfold last_with_key. induction ms as [|m ms IH]; simpl; [discriminate|].
  destruct (last_entry k (map (fun m0 => (ri_key m0, m0)) ms)).
  - exact IH.
  - destruct (String.eqb (ri_key m) k) eqn:E; [|discriminate].
    intros H. inversion H; subst. apply String.eqb_eq. exact E.
Qed.

(** ** Traversals *)

Lemma with_prop_assoc {V B} name (k : V -> B) d props :
  with_prop name k d props
  = match assoc name props with Some v => k v | None => d end.
Proof.
  unfold assoc. induction props as [|[n v] props IH]; simpl; [reflexivity|].
  destruct (String.eqb n name); [reflexivity | exact IH].
Qed.

Lemma assoc_In {V} name (props : list (string * V)) v :
  assoc name props = Some v -> In (name, v) props.
Proof.
  unfold assoc. induction props as [|[n x] props IH]; simpl; [discriminate|].
  destruct (String.eqb n name) eqn:E; [|auto].
  intros H. inversion H; subst. apply String.eqb_eq in E. subst. auto.
Qed.

Lemma forEachR_total {A B} (f : A -> B -> result B) l :
  Forall (fun a => forall st, exists st', f a st = Ok st') l ->
  forall st, exists st', forEachR f l st = Ok st'.
Proof.
  induction 1 as [|a l Ha _ IH]; intros st; simpl.
  - eexists. reflexivity.
  - destruct (Ha st) as [st' ->]. simpl. apply IH.
Qed.

Lemma forallb_Forall_impl {A} (p : A -> bool) (Q : A -> Prop) l :
  Forall (fun a => p a = true -> Q a) l -> forallb p l = true -> Forall Q l.
Proof.
  induction 1 as [|a l Ha _ IH]; simpl; intros H; constructor;
    apply andb_prop in H; destruct H; auto.
Qed.

(** On well-formed nodes the walk of the Mention Extractor returns. *)
Lemma processNode_total_nested source commentId v :
  (wf_node v = true ->
   forall mentions, exists mentions',
     processNode source commentId v mentions = Ok mentions')
  /\ match v with
     | VArr items =>
         forallb wf_node items = true ->
         forall mentions, exists mentions',
           forEachR (processNode source commentId) items mentions = Ok mentions'
     | _ => True
     end.
Proof.
  induction v as [| | | | |items IH|props IH] using value_nested_ind;
    try (split; [discriminate | exact I]).
  - split; [discriminate|]. intros Hwf. apply forEachR_total.
    apply (forallb_Forall_impl wf_node); [|exact Hwf].
    eapply Forall_impl; [|exact IH]. intros a [Ha _]. exact Ha.
  - split; [|exact I].
    intros Hwf mentions. simpl in Hwf.
    apply andb_prop in Hwf. destruct Hwf as [Hwf Hcontent].
    apply andb_prop in Hwf. destruct Hwf as [Htext Hattrs].
    cbn [processNode].
    assert (H1 : exists m1,
      (if is_string (lookup props "type") "inlineCard"
          && truthy (get_opt (lookup props "attrs") "url")
       then match get_opt (lookup props "attrs") "url" with
            | VStr url =>
                match match_browse url with
                | Some k => Ok (mentions ++ [mk_mention k source commentId])%list
                | None => Ok mentions
                end
            | _ => Err TypeError
            end
       else Ok mentions) = Ok m1).
    { destruct (is_string (lookup props "type") "inlineCard"); simpl;
        [|eexists; reflexivity].
      destruct (lookup props "attrs") as [| | | | | |attrs]; try discriminate;
        simpl; try (eexists; reflexivity).
      destruct (lookup attrs "url") as [| | | |url| |]; try discriminate;
        simpl; try (eexists; reflexivity).
      destruct (negb (url =? "")); [|eexists; reflexivity].
      destruct (match_browse url); eexists; reflexivity. }
    destruct H1 as [m1 ->]. cbn [rbind].
    assert (H2 : exists m2,
      (if is_string (lookup props "type") "text" && truthy (lookup props "text")
       then match lookup props "text" with
            | VStr text =>
                Ok (m1 ++ map (fun k => mk_mention k source commentId)
                            (match_keys text))%list
            | _ => Err TypeError
            end
       else Ok m1) = Ok m2).
    { destruct (is_string (lookup props "type") "text"); simpl;
        [|eexists; reflexivity].
      destruct (lookup props "text"); try discriminate; simpl;
        try (eexists; reflexivity).
      destruct (negb (s =? "")); eexists; reflexivity. }
    destruct H2 as [m2 ->]. cbn [rbind].
    rewrite with_prop_assoc. rewrite with_prop_assoc in Hcontent.
    destruct (assoc "content" props) as [c|] eqn:Ec; [|eexists; reflexivity].
    destruct c as [| | | | |children|]; try discriminate. simpl.
    rewrite Forall_forall in IH.
    destruct (IH _ (assoc_In _ _ Ec)) as [_ Hc]. simpl in Hc.
    apply Hc. exact Hcontent.
Qed.

Lemma walk_total source commentId nodes :
  forallb wf_node nodes = true ->
  exists mentions,
    forEachR (processNode source commentId) nodes [] = Ok mentions.
Proof.
  intros Hwf.
  destruct (processNode_total_nested source commentId (VArr nodes)) as [_ H].
  apply H. exact Hwf.
Qed.

(** C1.  On every well-formed node list and for every provenance tag, the
    Mention Extractor returns a list in which each identifier occurs
    exactly once: the identifiers of the mentions the depth-first walk
    produced, each at the place of its first occurrence, and each entry is
    the last mention of the walk with its identifier. *)
Theorem C1_mentions_deduplicated :
  forall (nodes : list value) (source : Source) (commentId : option string),
    forallb wf_node nodes = true ->
    exists walked returned,
      forEachR (processNode source commentId) nodes [] = Ok walked
      /\ extractIssueMentions source commentId (VArr nodes) = Ok returned
      /\ NoDup (map ri_key returned)
      /\ map ri_key returned = first_occurrences (map ri_key walked)
      /\ (forall k, In k (map ri_key walked) <-> In k (map ri_key returned))
      /\ (forall m, In m returned ->
                    last_with_key (ri_key m) walked = Some m).
Proof.
  intros nodes source commentId Hwf.
  destruct (walk_total source commentId nodes Hwf) as [walked Hwalk].
  exists walked.
  exists (Map_values (Map_of_entries (map (fun m => (ri_key m, m)) walked))).
  assert (Hvals : forall m,
             In m (Map_values (Map_of_entries
                                 (map (fun m => (ri_key m, m)) walked))) ->
             last_with_key (ri_key m) walked = Some m).
  { intros m Hin. unfold Map_values in Hin. apply in_map_iff in Hin.
    destruct Hin as [[k x] [Hx Hin]]. simpl in Hx. subst x.
    apply Map_of_entries_values in Hin.
    pose proof (last_entry_key walked k Hin) as Hk. rewrite Hk. exact Hin. }
  assert (Hkeys : map ri_key (Map_values (Map_of_entries
                                 (map (fun m => (ri_key m, m)) walked)))
                  = first_occurrences (map ri_key walked)).
  { rewrite <- (map_map (fun m => (ri_key m, m)) fst walked : 
                 map fst (map (fun m => (ri_key m, m)) walked) = map ri_key walked).
    rewrite <- Map_of_entries_keys.
    unfold Map_values. rewrite map_map.
    apply map_ext_in. intros [k x] Hin. simpl.
    apply Map_of_entries_values in Hin.
    apply (last_entry_key walked k Hin). }
  split; [exact Hwalk|]. split.
  - unfold extractIssueMentions. rewrite Hwalk. reflexivity.
  - split; [rewrite Hkeys; apply first_occurrences_NoDup|].
    split; [exact Hkeys|]. split; [|exact Hvals].
    intros k. rewrite Hkeys. symmetry. apply first_occurrences_In.
Qed.

(** ** Document Text Extractor *)

Lemma extractTextContent_unfold nodes :
  extractTextContent (VArr nodes)
  = (pieces <- mapR text_piece nodes ;; Array_join "" pieces).
Proof. reflexivity. Qed.

Lemma append_nil_r (s : string) : s ++ "" = s.
Proof. induction s as [|c s IH]; simpl; [reflexivity | rewrite IH; reflexivity]. Qed.

Lemma append_assoc (a b c : string) : (a ++ b) ++ c = a ++ b ++ c.
Proof. induction a as [|x a IH]; simpl; [reflexivity | rewrite IH; reflexivity]. Qed.

Lemma concat_empty_cons (x : string) (l : list string) :
  String.concat "" (x :: l) = x ++ String.concat "" l.
Proof. destruct l; simpl; [rewrite append_nil_r|]; reflexivity. Qed.

Lemma concat_empty_app (a b : list string) :
  String.concat "" (a ++ b) = String.concat "" a ++ String.concat "" b.
Proof.
  induction a as [|x a IH]; [reflexivity|].
  rewrite <- app_comm_cons, !concat_empty_cons, IH, append_assoc. reflexivity.
Qed.

Lemma Array_join_strings (l : list string) :
  Array_join "" (map VStr l) = Ok (String.concat "" l).
Proof.
  unfold Array_join.
  assert (H : mapR (fun item => match item with
                                | VUndefined | VNull => Ok ""
                                | _ => ToString item
                                end) (map VStr l) = Ok l).
  { induction l as [|x l IH]; simpl; [reflexivity | rewrite IH; reflexivity]. }
  rewrite H. reflexivity.
Qed.

Lemma mapR_pointwise {A B} (f : A -> result B) (g : A -> B) l :
  Forall (fun a => f a = Ok (g a)) l -> mapR f l = Ok (map g l).
Proof.
  induction 1 as [|a l Ha _ IH]; simpl; [reflexivity|].
  rewrite Ha, IH. reflexivity.
Qed.

Lemma flat_map_leaves_concat (nodes : list value) :
  String.concat "" (map (fun n => String.concat "" (text_leaves n)) nodes)
  = String.concat "" (flat_map text_leaves nodes).
Proof.
  induction nodes as [|n nodes IH]; [reflexivity|].
  cbn [map flat_map]. rewrite concat_empty_cons, concat_empty_app, IH.
  reflexivity.
Qed.

(** On well-formed nodes the Text Extractor returns the text of the
    leaves. *)
Lemma text_piece_leaves v :
  (wf_node v = true ->
   text_piece v = Ok (VStr (String.concat "" (text_leaves v))))
  /\ match v with
     | VArr items =>
         forallb wf_node items = true ->
         extractTextContent v
         = Ok (String.concat "" (flat_map text_leaves items))
     | _ => True
     end.
Proof.
  induction v as [| | | | |items IH|props IH] using value_nested_ind;
    try (split; [discriminate | exact I]).
  - split; [discriminate|]. intros Hwf.
    rewrite extractTextContent_unfold.
    rewrite (mapR_pointwise text_piece
               (fun n => VStr (String.concat "" (text_leaves n)))).
    + cbn [rbind].
      rewrite <- (map_map (fun n => String.concat "" (text_leaves n)) VStr).
      rewrite Array_join_strings, flat_map_leaves_concat. reflexivity.
    + apply (forallb_Forall_impl wf_node); [|exact Hwf].
      eapply Forall_impl; [|exact IH]. intros a [Ha _]. exact Ha.
  - split; [|exact I].
    intros Hwf. simpl in Hwf.
    apply andb_prop in Hwf. destruct Hwf as [Hwf Hcontent].
    apply andb_prop in Hwf. destruct Hwf as [Htext _].
    cbn [text_piece text_leaves].
    destruct (is_string (lookup props "type") "text").
    + destruct (lookup props "text") as [| | | |s| |]; try discriminate.
      * reflexivity.
      * unfold or_else. simpl. destruct s; simpl; [reflexivity|].
        rewrite append_nil_r || reflexivity.
    + rewrite !with_prop_assoc. rewrite with_prop_assoc in Hcontent.
      destruct (assoc "content" props) as [c|] eqn:Ec; [|reflexivity].
      destruct c as [| | | | |children|]; try discriminate.
      rewrite Forall_forall in IH.
      destruct (IH _ (assoc_In _ _ Ec)) as [_ Hc]. cbn [snd] in Hc.
      cbn [truthy]. rewrite (Hc Hcontent). reflexivity.
Qed.

(** C4.  On every well-formed node list the Document Text Extractor
    returns the concatenation, in depth-first document order and with
    nothing in between, of the text payloads of all text leaves; a node
    that is neither a text leaf nor a container adds nothing; input that is
    not an array gives the empty string. *)
Theorem C4_text_is_concatenation_of_leaves :
  (forall nodes : list value,
      forallb wf_node nodes = true ->
      extractTextContent (VArr nodes)
      = Ok (String.concat "" (flat_map text_leaves nodes)))
  /\ (forall props : list (string * value),
         is_string (lookup props "type") "text" = false ->
         assoc "content" props = None ->
         text_leaves (VObj props) = []
         /\ text_piece (VObj props) = Ok (VStr ""))
  /\ (forall content : value,
         Array_isArray content = false ->
         extractTextContent content = Ok "").
Proof.
  split; [|split].
  - intros nodes Hwf.
    destruct (text_piece_leaves (VArr nodes)) as [_ H]. apply H. exact Hwf.
  - intros props Htype Hcontent.
    cbn [text_leaves text_piece]. rewrite Htype, !with_prop_assoc, Hcontent.
    split; reflexivity.
  - intros content Hnot. destruct content; try reflexivity. discriminate.
Qed.

(** ** Record Normalizer *)

Lemma mapR_clean_link links :
  forallb has_linked_issue links = true ->
  exists entries,
    mapR clean_link links = Ok entries
    /\ Forall2 (fun l e =>
                  clean_link l = Ok e
                  /\ ri_type e = Link /\ ri_source e = Description
                  /\ exists li, linked_issue l = Some li
                                /\ ri_key e = rr_key li)
         links entries.
Proof.
  induction links as [|l links IH]; simpl; intros H.
  - exists []. split; [reflexivity | constructor].
  - apply andb_prop in H. destruct H as [Hl Hrest].
    destruct (IH Hrest) as [entries [Hmap Hall]].
    unfold has_linked_issue in Hl.
    destruct (linked_issue l) as [li|] eqn:Eli; [|discriminate].
    assert (Hc : exists e, clean_link l = Ok e /\ ri_type e = Link
                           /\ ri_source e = Description /\ ri_key e = rr_key li).
    { unfold clean_link. unfold linked_issue in Eli. rewrite Eli.
      eexists. split; [reflexivity|]. repeat split. }
    destruct Hc as [e [Hce [Ht [Hs Hk]]]].
    exists (e :: entries). rewrite Hce, Hmap. split; [reflexivity|].
    constructor; [|exact Hall].
    split; [exact Hce|]. split; [exact Ht|]. split; [exact Hs|].
    exists li. split; [exact Eli | exact Hk].
Qed.

Lemma narrative_mentions_total issue :
  wf_content (content_of (field issue f_description)) = true ->
  exists narrative, narrative_mentions issue = Ok narrative.
Proof.
  unfold wf_content, narrative_mentions. intros H.
  destruct (truthy (content_of (field issue f_description)));
    [|eexists; reflexivity].
  destruct (content_of (field issue f_description)); try discriminate.
  destruct (walk_total Description None items H) as [walked Hw].
  eexists. unfold extractIssueMentions. rewrite Hw. reflexivity.
Qed.

(** C3.  For every payload whose narrative content is absent or well
    formed and whose links each have a linked issue, the Record Normalizer
    returns a record whose relationship list is the narrative mentions
    followed by one entry per structured link, in payload order, each of
    kind [Link] and of provenance [Description]; the links are appended
    whether or not there are narrative mentions. *)
Theorem C3_links_appended_after_mentions :
  forall issue : RawIssue,
    wf_content (content_of (field issue f_description)) = true ->
    forallb has_linked_issue (issuelinks_of issue) = true ->
    exists cleaned narrative entries,
      cleanIssue issue = Ok cleaned
      /\ narrative_mentions issue = Ok narrative
      /\ relatedIssues cleaned = (narrative ++ entries)%list
      /\ Forall2 (fun l e =>
                    clean_link l = Ok e
                    /\ ri_type e = Link /\ ri_source e = Description
                    /\ exists li, linked_issue l = Some li
                                  /\ ri_key e = rr_key li)
           (issuelinks_of issue) entries.
Proof.
  intros issue Hwf Hlinks.
  destruct (narrative_mentions_total issue Hwf) as [narrative Hn].
  destruct (mapR_clean_link _ Hlinks) as [entries [Hmap Hall]].
  assert (Htext : exists d,
    (if truthy (content_of (field issue f_description))
     then extractTextContent (content_of (field issue f_description))
     else Ok "") = Ok d).
  { unfold wf_content in Hwf.
    destruct (truthy (content_of (field issue f_description)));
      [|eexists; reflexivity].
    destruct (content_of (field issue f_description)); try discriminate.
    eexists. destruct (text_piece_leaves (VArr items)) as [_ H].
    apply H. exact Hwf. }
  destruct Htext as [d Hd].
  unfold cleanIssue. rewrite Hd. cbn [rbind].
  pose proof Hn as Hn0. unfold narrative_mentions in Hn.
  assert (Hbase :
    (if truthy (content_of (field issue f_description))
     then mentions <- extractIssueMentions Description None
                        (content_of (field issue f_description)) ;;
          Ok (if Nat.ltb 0 (List.length mentions) then mentions else [])
     else Ok []) = Ok narrative).
  { destruct (truthy (content_of (field issue f_description)));
      [|exact Hn].
    rewrite Hn. cbn [rbind]. destruct narrative; reflexivity. }
  rewrite Hbase. cbn [rbind].
  unfold issuelinks_of in Hmap, Hall.
  destruct (field issue f_issuelinks) as [[|l links]|] eqn:El.
  - inversion Hall; subst. cbn [rbind].
    eexists; exists narrative, []. split; [reflexivity|].
    split; [exact Hn0|]. simpl. rewrite app_nil_r.
    split; [reflexivity | unfold issuelinks_of; rewrite El; constructor].
  - cbv beta match. rewrite Hmap. cbn [rbind].
    eexists; exists narrative, entries. split; [reflexivity|].
    split; [exact Hn0|]. split; [reflexivity|].
    unfold issuelinks_of. rewrite El. exact Hall.
  - inversion Hall; subst. cbn [rbind].
    eexists; exists narrative, []. split; [reflexivity|].
    split; [exact Hn0|]. simpl. rewrite app_nil_r.
    split; [reflexivity | unfold issuelinks_of; rewrite El; constructor].
Qed.

(** ** Malformed and absent content *)



(** Content that is a string passes the Text Extractor's array test and
    stops the Mention Extractor, which has no such test. *)
Example string_content :
  extractTextContent (VStr "plain") = Ok ""
  /\ extractIssueMentions Description None (VStr "plain") = Err TypeError
  /\ cleanComment {| rc_id := "c4";
                     rc_body := Some {| doc_content := VStr "plain" |};
                     rc_author := None;
                     rc_created := "2024-01-05";
                     rc_updated := "2024-01-05" |} = Err TypeError.
Proof. repeat split. Qed.

(** ** Computations *)

Lemma outcome_bind {A B} (m : IO A) (f : A -> IO B) :
  outcome (bind m f)
  = match outcome m with
    | Ok a => outcome (f a)
    | Err e => Err e
    end.
Proof. unfold bind. destruct (outcome m); reflexivity. Qed.

Lemma outcome_bind_ok {A B} (m : IO A) (f : A -> IO B) a :
  outcome m = Ok a -> outcome (bind m f) = outcome (f a).
Proof. intros H. rewrite outcome_bind, H. reflexivity. Qed.

Lemma outcome_bind_err {A B} (m : IO A) (f : A -> IO B) e :
  outcome m = Err e -> outcome (bind m f) = Err e.
Proof. intros H. rewrite outcome_bind, H. reflexivity. Qed.

Lemma outcome_try_catch {A} (m : IO A) (h : exn -> IO A) :
  outcome (try_catch m h)
  = match outcome m with
    | Ok a => Ok a
    | Err e => outcome (h e)
    end.
Proof.
  unfold try_catch. destruct (outcome m) eqn:E; [exact E | reflexivity].
Qed.

Lemma Promise_all_fulfilled {A} settle (members : list (IO A)) values :
  Forall2 (fun m a => outcome m = Ok a) members values ->
  outcome (Promise_all settle members) = Ok values.
Proof.
  intros H. unfold Promise_all, outcome at 1. cbn [snd].
  assert (Hr : forall i, rejections_from i (map outcome members) = []).
  { induction H as [|m a ms vs Hm _ IH]; intros i; simpl; [reflexivity|].
    rewrite Hm. apply IH. }
  rewrite Hr. f_equal. clear Hr.
  induction H as [|m a ms vs Hm _ IH]; simpl; [reflexivity|].
  rewrite Hm. f_equal. exact IH.
Qed.

Lemma Forall2_map_l {A B C} (R : B -> C -> Prop) (f : A -> B) l l' :
  Forall2 (fun a c => R (f a) c) l l' -> Forall2 R (map f l) l'.
Proof. induction 1; simpl; constructor; assumption. Qed.

Lemma Forall_exists_Forall2 {A B} (R : A -> B -> Prop) l :
  Forall (fun a => exists b, R a b) l -> exists l', Forall2 R l l'.
Proof.
  induction 1 as [|a l [b Hb] _ [l' IH]].
  - exists []. constructor.
  - exists (b :: l'). constructor; assumption.
Qed.

(** ** Relationship merge *)

Lemma with_comments_relatedIssues issue cs :
  relatedIssues (with_comments issue cs)
  = (relatedIssues issue ++ List.concat (map c_mentions cs))%list.
Proof. unfold with_comments. simpl. rewrite flat_map_concat_map. reflexivity. Qed.

Lemma with_comments_epicLink issue cs :
  epicLink (with_comments issue cs) = epicLink issue.
Proof. reflexivity. Qed.

(** What [getIssueWithComments] does once the two sub-fetches are in. *)
Lemma getIssueWithComments_assembled baseUrl remote settle issueId
      issueData commentsData cleaned cs :
  outcome (fetchJson baseUrl remote issue_api (issue_path issueId) "GET" None)
  = Ok issueData ->
  outcome (fetchJson baseUrl remote comment_api (comment_path issueId) "GET" None)
  = Ok commentsData ->
  cleanIssue issueData = Ok cleaned ->
  mapR cleanComment (cp_comments commentsData) = Ok cs ->
  outcome (getIssueWithComments baseUrl remote settle issueId)
  = match epicLink cleaned with
    | Some epic =>
        match outcome (fetchJson baseUrl remote issue_api
                         (epic_summary_path (ref_key epic)) "GET" None) with
        | Ok epicData =>
            Ok (set_epicLink_summary (with_comments cleaned cs)
                  (field epicData f_summary))
        | Err _ => Ok (with_comments cleaned cs)
        end
    | None => Ok (with_comments cleaned cs)
    end.
Proof.
  intros Hi Hc Hclean Hcs.
  unfold getIssueWithComments.
  change (fetchJson baseUrl remote issue_api
            ("/rest/api/3/issue/" ++ issueId ++ "?"
               ++ URLSearchParams_toString
                    [("fields", issue_fields);
                     ("expand", "names,renderedFields")]) "GET" None)
    with (fetchJson baseUrl remote issue_api (issue_path issueId) "GET" None).
  change (fetchJson baseUrl remote comment_api
            ("/rest/api/3/issue/" ++ issueId ++ "/comment") "GET" None)
    with (fetchJson baseUrl remote comment_api (comment_path issueId) "GET" None).
  rewrite (outcome_bind_ok _ _ (a := (issueData, commentsData))).
  2:{ rewrite outcome_try_catch. unfold Promise_all2, outcome at 1. cbn [snd].
      rewrite Hi, Hc. reflexivity. }
  rewrite (outcome_bind_ok _ _ (a := cleaned)); [|exact Hclean].
  rewrite (outcome_bind_ok _ _ (a := cs)); [|exact Hcs].
  rewrite with_comments_epicLink.
  destruct (epicLink cleaned) as [epic|]; [|reflexivity].
  rewrite outcome_try_catch, outcome_bind.
  change (fetchJson baseUrl remote issue_api
            ("/rest/api/3/issue/" ++ ref_key epic ++ "?fields=summary") "GET" None)
    with (fetchJson baseUrl remote issue_api (epic_summary_path (ref_key epic)) "GET" None).
  destruct (outcome (fetchJson baseUrl remote issue_api
                       (epic_summary_path (ref_key epic)) "GET" None));
    reflexivity.
Qed.

Lemma getEpicChildren_member baseUrl remote issue commentsData cleaned cs :
  outcome (fetchJson baseUrl remote comment_api
             (comment_path (raw_key issue)) "GET" None) = Ok commentsData ->
  cleanIssue issue = Ok cleaned ->
  mapR cleanComment (cp_comments commentsData) = Ok cs ->
  outcome
    (commentsData <~ fetchJson baseUrl remote comment_api
                       ("/rest/api/3/issue/" ++ raw_key issue ++ "/comment")
                       "GET" None ;;
     cleanedIssue <~ lift (cleanIssue issue) ;;
     comments <~ lift (mapR cleanComment (cp_comments commentsData)) ;;
     ret (with_comments cleanedIssue comments))
  = Ok (with_comments cleaned cs).
Proof.
  intros Hc Hclean Hcs.
  rewrite (outcome_bind_ok _ _ (a := commentsData)); [|exact Hc].
  rewrite (outcome_bind_ok _ _ (a := cleaned)); [|exact Hclean].
  rewrite (outcome_bind_ok _ _ (a := cs)); [|exact Hcs].
  reflexivity.
Qed.

(** C2.  Both aggregates give a fetched record the relationship list of
    its normalised form followed by the mention lists of its comments, in
    comment order, with nothing removed. *)
Theorem C2_aggregates_append_comment_mentions :
  forall (baseUrl : string) (remote : Remote) (settle : nat -> nat),
    (forall issueId issueData commentsData,
        outcome (fetchJson baseUrl remote issue_api
                   (issue_path issueId) "GET" None) = Ok issueData ->
        outcome (fetchJson baseUrl remote comment_api
                   (comment_path issueId) "GET" None) = Ok commentsData ->
        (exists cleaned cs,
            cleanIssue issueData = Ok cleaned
            /\ mapR cleanComment (cp_comments commentsData) = Ok cs) ->
        exists r,
          outcome (getIssueWithComments baseUrl remote settle issueId) = Ok r
          /\ merged issueData commentsData r)
    /\ (forall epicKey data,
           outcome (fetchJson baseUrl remote search_api
                      (epic_children_path epicKey) "GET" None) = Ok data ->
           Forall (fun issue =>
                     exists commentsData cleaned cs,
                       outcome (fetchJson baseUrl remote comment_api
                                  (comment_path (raw_key issue)) "GET" None)
                       = Ok commentsData
                       /\ cleanIssue issue = Ok cleaned
                       /\ mapR cleanComment (cp_comments commentsData) = Ok cs)
             (sp_issues data) ->
           exists rs,
             outcome (getEpicChildren baseUrl remote settle epicKey) = Ok rs
             /\ Forall2 (fun issue r =>
                           exists commentsData,
                             outcome (fetchJson baseUrl remote comment_api
                                        (comment_path (raw_key issue))
                                        "GET" None) = Ok commentsData
                             /\ merged issue commentsData r)
                  (sp_issues data) rs).
Proof.
  intros baseUrl remote settle. split.
  - intros issueId issueData commentsData Hi Hc [cleaned [cs [Hclean Hcs]]].
    rewrite (getIssueWithComments_assembled _ _ settle _ Hi Hc Hclean Hcs).
    assert (Hm : merged issueData commentsData (with_comments cleaned cs)).
    { exists cleaned, cs. split; [exact Hclean|]. split; [exact Hcs|].
      split; [apply with_comments_relatedIssues | reflexivity]. }
    destruct (epicLink cleaned) as [epic|] eqn:Eepic;
      [|eexists; split; [reflexivity | exact Hm]].
    destruct (outcome (fetchJson baseUrl remote issue_api
                         (epic_summary_path (ref_key epic)) "GET" None));
      [|eexists; split; [reflexivity | exact Hm]].
    eexists. split; [reflexivity|].
    destruct Hm as [c' [cs' [H1 [H2 [H3 H4]]]]].
    exists c', cs'. split; [exact H1|]. split; [exact H2|].
    split; [exact H3 | exact H4].
  - intros epicKey data Hsearch Hall.
    apply Forall_exists_Forall2 in Hall. destruct Hall as [cds Hall].
    assert (Hrs : exists rs,
               Forall2 (fun issue r =>
                          exists commentsData cleaned cs,
                            outcome (fetchJson baseUrl remote comment_api
                                       (comment_path (raw_key issue)) "GET" None)
                            = Ok commentsData
                            /\ cleanIssue issue = Ok cleaned
                            /\ mapR cleanComment (cp_comments commentsData) = Ok cs
                            /\ r = with_comments cleaned cs)
                 (sp_issues data) rs).
    { clear Hsearch. induction Hall as [|issue cd l l' [cleaned [cs [H1 [H2 H3]]]] _ [rs IH]].
      - exists []. constructor.
      - exists (with_comments cleaned cs :: rs). constructor; [|exact IH].
        exists cd, cleaned, cs. repeat split; assumption. }
    destruct Hrs as [rs Hrs]. exists rs. split.
    + unfold getEpicChildren.
      change (fetchJson baseUrl remote search_api
                ("/rest/api/3/search?"
                   ++ URLSearchParams_toString
                        [("jql", dq ++ "Epic Link" ++ dq ++ " = " ++ epicKey);
                         ("maxResults", "100"); ("fields", issue_fields);
                         ("expand", "names,renderedFields")]) "GET" None)
        with (fetchJson baseUrl remote search_api
                (epic_children_path epicKey) "GET" None).
      rewrite (outcome_bind_ok _ _ (a := data)); [|exact Hsearch].
      apply Promise_all_fulfilled. apply Forall2_map_l.
      eapply Forall2_impl; [|exact Hrs].
      intros issue r [cd [cleaned [cs [H1 [H2 [H3 ->]]]]]].
      apply (getEpicChildren_member _ _ _ H1 H2 H3).
    + eapply Forall2_impl; [|exact Hrs].
      intros issue r [cd [cleaned [cs [H1 [H2 [H3 ->]]]]]].
      exists cd. split; [exact H1|]. exists cleaned, cs.
      split; [exact H2|]. split; [exact H3|].
      split; [apply with_comments_relatedIssues | reflexivity].
Qed.

(** ** Failures of the single-record aggregate *)

Lemma prefix_app (p s : string) : String.prefix p (p ++ s) = true.
Proof.
  induction p as [|c p IH]; simpl; [destruct s; reflexivity|].
  destruct (ascii_dec c c) as [_|n]; [exact IH | contradiction].
Qed.

Lemma includes_prefix (s sub : string) :
  String.prefix sub s = true -> includes s sub = true.
Proof. intros H. destruct s; cbn [includes]; rewrite H; reflexivity. Qed.

Lemma includes_app_l (a s sub : string) :
  includes s sub = true -> includes (a ++ s) sub = true.
Proof.
  intros H. induction a as [|c a IH]; [exact H|].
  cbn [append includes]. rewrite IH.
  destruct (String.prefix sub (String c (a ++ s))); reflexivity.
Qed.

Lemma includes_middle (a sub b : string) :
  includes (a ++ sub ++ b) sub = true.
Proof. apply includes_app_l, includes_prefix, prefix_app. Qed.

Lemma mapR_err {A B} (f : A -> result B) l e :
  mapR f l = Err e -> exists a, In a l /\ f a = Err e.
Proof.
  induction l as [|a l IH]; simpl; [discriminate|].
  destruct (f a) eqn:Ea; simpl.
  - destruct (mapR f l); simpl; [discriminate|].
    intros H. destruct (IH H) as [x [Hin Hx]]. exists x. auto.
  - intros H. inversion H; subst. exists a. auto.
Qed.

Lemma ToString_err v e : ToString v = Err e -> e = TypeError.
Proof.
  revert e.
  induction v as [| | | | |items IH|props _] using value_nested_ind;
    intros e; simpl; try discriminate.
  - destruct b; discriminate.
  - destruct (mapR _ items) eqn:Em; simpl; [discriminate|].
    intros H. inversion H; subst.
    apply mapR_err in Em. destruct Em as [a [Hin Ha]].
    rewrite Forall_forall in IH. apply (IH a Hin).
    destruct a; try discriminate; exact Ha.
  - destruct (has_own props "toString"); [|discriminate].
    intros H. inversion H. reflexivity.
Qed.

(** The error built for a response with status 404 carries the text the
    single-record aggregate looks for. *)
Lemma handleFetchError_404 {T} (response : Response T) :
  resp_status response = 404%N ->
  handleFetchError response = TypeError
  \/ exists message,
       handleFetchError response = Failure message
       /\ includes message "(Status: 404)" = true.
Proof.
  intros Hs. unfold handleFetchError, resp_ok. rewrite Hs.
  change (negb (N.leb 200 404 && N.leb 404 299)) with true. cbv iota.
  match goal with
  | |- context [if truthy ?m then _ else _] => destruct (truthy m)
  end.
  - match goal with
    | |- context [ToString ?m] => destruct (ToString m) eqn:Et
    end; cbn [rbind].
    + right. eexists. split; [reflexivity|].
      do 3 apply includes_app_l. reflexivity.
    + left. apply ToString_err in Et. exact Et.
  - right. eexists. split; [reflexivity|].
    do 3 apply includes_app_l. reflexivity.
Qed.

Lemma fetchJson_outcome baseUrl remote {T}
      (api : Remote -> Request -> FetchOutcome T) url method body :
  outcome (fetchJson baseUrl remote api url method body)
  = match api remote {| req_method := method; req_url := baseUrl ++ url;
                        req_body := body |} with
    | NetworkFailure message => Err (Failure message)
    | Responded response =>
        if negb (resp_ok response) then Err (handleFetchError response)
        else match resp_json response with
             | Parsed _ typed => Ok typed
             | SyntaxError message => Err (Failure message)
             end
    end.
Proof.
  unfold fetchJson. rewrite outcome_bind. unfold fetch, outcome at 1. cbn [snd].
  destruct (api remote _) as [m|response]; [reflexivity|].
  destruct (negb (resp_ok response)); [reflexivity|].
  destruct (resp_json response); reflexivity.
Qed.

Lemma getIssueWithComments_rejected baseUrl remote settle issueId e :
  outcome (joined_fetch baseUrl remote settle issueId) = Err e ->
  outcome (getIssueWithComments baseUrl remote settle issueId)
  = Err (reported issueId e).
Proof.
  intros H. unfold getIssueWithComments.
  apply outcome_bind_err. rewrite outcome_try_catch.
  unfold joined_fetch, issue_path, comment_path in H. rewrite H.
  unfold reported. destruct e as [|m]; [reflexivity|].
  destruct (includes m "(Status: 404)"); reflexivity.
Qed.

(** C6, as the code has it.  The single-record aggregate fails when one of
    its two sub-fetches fails, and what it handles is the error of the
    failed sub-fetch that settles first.  When the message of that error
    contains [(Status: 404)], which the error built for a 404 response to
    either sub-fetch does, the operation fails with
    [Issue not found: <id>]; any other error is propagated unchanged. *)
Theorem C6_not_found_is_told_by_the_message :
  forall (baseUrl : string) (remote : Remote) (settle : nat -> nat)
         (issueId : string),
    let record := fetchJson baseUrl remote issue_api
                    (issue_path issueId) "GET" None in
    let comments := fetchJson baseUrl remote comment_api
                      (comment_path issueId) "GET" None in
    let result := outcome (getIssueWithComments baseUrl remote settle issueId) in
    (forall e, outcome record = Err e ->
               (forall c, outcome comments = Ok c -> result = Err (reported issueId e))
               /\ (forall e', outcome comments = Err e' ->
                              result = Err (reported issueId
                                              (if Nat.ltb (settle 1) (settle 0)
                                               then e' else e))))
    /\ (forall i e', outcome record = Ok i -> outcome comments = Err e' ->
                     result = Err (reported issueId e'))
    /\ (forall message,
           includes message "(Status: 404)" = true ->
           reported issueId (Failure message)
           = Failure ("Issue not found: " ++ issueId))
    /\ (forall e,
           (forall message, e = Failure message ->
                            includes message "(Status: 404)" = false) ->
           reported issueId e = e)
    /\ (forall (T : Type) (response : Response T),
           resp_status response = 404%N ->
           handleFetchError response = TypeError
           \/ exists message,
                handleFetchError response = Failure message
                /\ includes message "(Status: 404)" = true)
    /\ (forall response c,
           issue_api remote {| req_method := "GET";
                               req_url := baseUrl ++ issue_path issueId;
                               req_body := None |} = Responded response ->
           resp_status response = 404%N ->
           outcome comments = Ok c ->
           result = Err (Failure ("Issue not found: " ++ issueId))
           \/ result = Err TypeError).
Proof.
  intros baseUrl remote settle issueId record comments result.
  split; [|split; [|split; [|split; [|split]]]].
  - intros e He. split.
    + intros c Hc. apply getIssueWithComments_rejected.
      unfold joined_fetch, Promise_all2, outcome at 1. cbn [snd].
      fold record comments. rewrite He, Hc. reflexivity.
    + intros e' Hc. apply getIssueWithComments_rejected.
      unfold joined_fetch, Promise_all2, outcome at 1. cbn [snd].
      fold record comments. rewrite He, Hc. cbn [first_rejection fst snd].
      destruct (Nat.ltb (settle 1) (settle 0)); reflexivity.
  - intros i e' Hi Hc. apply getIssueWithComments_rejected.
    unfold joined_fetch, Promise_all2, outcome at 1. cbn [snd].
    fold record comments. rewrite Hi, Hc. reflexivity.
  - intros message H. unfold reported. rewrite H. reflexivity.
  - intros e H. unfold reported. destruct e as [|m]; [reflexivity|].
    rewrite (H m eq_refl). reflexivity.
  - intros T response. apply handleFetchError_404.
  - intros response c Hr Hs Hc.
    assert (He : outcome record = Err (handleFetchError response)).
    { unfold record. rewrite fetchJson_outcome, Hr.
      unfold resp_ok. rewrite Hs. reflexivity. }
    assert (Hres : result = Err (reported issueId (handleFetchError response))).
    { apply getIssueWithComments_rejected.
      unfold joined_fetch, Promise_all2, outcome at 1. cbn [snd].
      fold record comments. rewrite He, Hc. reflexivity. }
    rewrite Hres.
    destruct (handleFetchError_404 response Hs) as [-> | [m [-> Hm]]].
    + right. reflexivity.
    + left. unfold reported. rewrite Hm. reflexivity.
Qed.

(** ** The epic follow-up *)

Lemma cleanIssue_epicLink issue cleaned epic :
  cleanIssue issue = Ok cleaned ->
  epicLink cleaned = Some epic ->
  ref_summary epic = None /\ ref_id epic = ref_key epic.
Proof.
  unfold cleanIssue. intros H.
  destruct (if truthy (content_of (field issue f_description))
            then extractTextContent (content_of (field issue f_description))
            else Ok ""); [|discriminate].
  cbn [rbind] in H.
  match type of H with
  | rbind ?m _ = _ => destruct m; [|discriminate]
  end.
  cbn [rbind] in H.
  match type of H with
  | rbind ?m _ = _ => destruct m; [|discriminate]
  end.
  cbn [rbind] in H. inversion H; subst. cbn [epicLink].
  destruct (field issue f_customfield_10014) as [e|]; [|discriminate].
  destruct (nonempty e); [|discriminate].
  intros He. inversion He; subst. split; reflexivity.
Qed.

(** C7.  When the record and its comments have been fetched and assembled
    and the record carries an epic link, a failure of the follow-up fetch
    of the epic's summary is not propagated: the aggregate returns the
    record exactly as assembled, the summary of its epic link unset. *)
Theorem C7_epic_summary_failure_swallowed :
  forall (baseUrl : string) (remote : Remote) (settle : nat -> nat)
         (issueId : string) issueData commentsData cleaned cs epic e,
    outcome (fetchJson baseUrl remote issue_api
               (issue_path issueId) "GET" None) = Ok issueData ->
    outcome (fetchJson baseUrl remote comment_api
               (comment_path issueId) "GET" None) = Ok commentsData ->
    cleanIssue issueData = Ok cleaned ->
    mapR cleanComment (cp_comments commentsData) = Ok cs ->
    epicLink cleaned = Some epic ->
    outcome (fetchJson baseUrl remote issue_api
               (epic_summary_path (ref_key epic)) "GET" None) = Err e ->
    outcome (getIssueWithComments baseUrl remote settle issueId)
    = Ok (with_comments cleaned cs)
    /\ epicLink (with_comments cleaned cs) = Some epic
    /\ ref_summary epic = None.
Proof.
  intros baseUrl remote settle issueId issueData commentsData cleaned cs
         epic e Hi Hc Hclean Hcs Hepic Hfail.
  rewrite (getIssueWithComments_assembled _ _ settle _ Hi Hc Hclean Hcs).
  rewrite Hepic, Hfail. split; [reflexivity|].
  split; [exact Hepic|].
  apply (cleanIssue_epicLink _ Hclean Hepic).
Qed.

(** ** Requests issued *)

Lemma trace_bind {A B} (m : IO A) (f : A -> IO B) :
  trace (bind m f)
  = match outcome m with
    | Ok a => (trace m ++ trace (f a))%list
    | Err _ => trace m
    end.
Proof. unfold bind. destruct (outcome m); reflexivity. Qed.

Lemma Forall_trace_bind {A B} (P : Request -> Prop) (m : IO A) (f : A -> IO B) :
  Forall P (trace m) -> (forall a, Forall P (trace (f a))) ->
  Forall P (trace (bind m f)).
Proof.
  intros Hm Hf. rewrite trace_bind. destruct (outcome m); [|exact Hm].
  apply Forall_app. split; [exact Hm | apply Hf].
Qed.

Lemma Forall_trace_try_catch {A} (P : Request -> Prop) (m : IO A) h :
  Forall P (trace m) -> (forall e, Forall P (trace (h e))) ->
  Forall P (trace (try_catch m h)).
Proof.
  intros Hm Hh. unfold try_catch. destruct (outcome m); [exact Hm|].
  unfold trace at 1. cbn [fst]. apply Forall_app. split; [exact Hm | apply Hh].
Qed.

Lemma trace_fetchJson baseUrl remote {T}
      (api : Remote -> Request -> FetchOutcome T) url method body :
  trace (fetchJson baseUrl remote api url method body)
  = [{| req_method := method; req_url := baseUrl ++ url; req_body := body |}].
Proof.
  unfold fetchJson. rewrite trace_bind. unfold fetch, outcome, trace. cbn [fst snd].
  destruct (api remote _) as [m|response]; [reflexivity|].
  destruct (negb (resp_ok response)); [reflexivity|].
  destruct (resp_json response); reflexivity.
Qed.

Lemma fetchJson_GET baseUrl remote {T}
      (api : Remote -> Request -> FetchOutcome T) url :
  Forall is_GET (trace (fetchJson baseUrl remote api url "GET" None)).
Proof. rewrite trace_fetchJson. constructor; [reflexivity | constructor]. Qed.

Lemma findStoryPointsField_GET baseUrl remote projectKey issueType :
  Forall is_GET (trace (findStoryPointsField baseUrl remote projectKey issueType)).
Proof.
  unfold findStoryPointsField.
  apply Forall_trace_try_catch; [|intros; constructor].
  apply Forall_trace_bind; [apply fetchJson_GET|].
  intros createMeta. destruct (scan_createMeta createMeta _); [constructor|].
  apply Forall_trace_bind.
  - unfold searchIssues. apply Forall_trace_bind; [apply fetchJson_GET|].
    intros data. apply Forall_trace_bind; [constructor | intros; constructor].
  - intros searchResult. destruct (issues searchResult); [constructor|].
    apply Forall_trace_bind; [apply fetchJson_GET | intros; constructor].
Qed.

(** Discovery never rejects. *)
Lemma findStoryPointsField_returns baseUrl remote projectKey issueType :
  exists r,
    outcome (findStoryPointsField baseUrl remote projectKey issueType) = Ok r.
Proof.
  unfold findStoryPointsField. rewrite outcome_try_catch.
  match goal with
  | |- context [match ?o with Ok _ => _ | Err _ => _ end] => destruct o
  end; eexists; reflexivity.
Qed.

(** C9.  When discovery for the project of an issue key finds no field,
    the update fails with an error whose message names the project, and
    the only requests issued are those of discovery, all of them reads:
    no update request is sent. *)
Theorem C9_update_fails_when_field_unresolved :
  forall (baseUrl : string) (remote : Remote) (issueKey : string)
         (storyPoints : value),
    let projectKey := before_first "-" issueKey in
    outcome (findStoryPointsField baseUrl remote projectKey (Some "Story"))
    = Ok None ->
    outcome (updateStoryPoints baseUrl remote issueKey storyPoints)
    = Err (Failure (not_found_message projectKey))
    /\ includes (not_found_message projectKey) projectKey = true
    /\ trace (updateStoryPoints baseUrl remote issueKey storyPoints)
       = trace (findStoryPointsField baseUrl remote projectKey (Some "Story"))
    /\ Forall is_GET
         (trace (updateStoryPoints baseUrl remote issueKey storyPoints)).
Proof.
  intros baseUrl remote issueKey storyPoints projectKey Hnone.
  assert (Ht : trace (updateStoryPoints baseUrl remote issueKey storyPoints)
               = trace (findStoryPointsField baseUrl remote projectKey
                          (Some "Story"))).
  { unfold updateStoryPoints. fold projectKey. rewrite trace_bind, Hnone.
    unfold throw, trace at 2. cbn [fst]. apply app_nil_r. }
  split; [|split; [|split]].
  - unfold updateStoryPoints. fold projectKey.
    rewrite (outcome_bind_ok _ _ Hnone). reflexivity.
  - unfold not_found_message. apply includes_middle.
  - exact Ht.
  - rewrite Ht. apply findStoryPointsField_GET.
Qed.

(** ** Field discovery *)

Lemma scan_fields_find fields :
  scan_fields fields
  = option_map fst (find (fun kv => names_story_points (snd kv)) fields).
Proof.
  induction fields as [|[fieldId info] fields IH]; [reflexivity|].
  change (scan_fields ((fieldId, info) :: fields))
    with (if names_story_points info then Some fieldId else scan_fields fields).
  cbn [find snd].
  destruct (names_story_points info); [reflexivity | exact IH].
Qed.

Lemma scan_createMeta_metadata_field createMeta issueType :
  scan_createMeta createMeta issueType = metadata_field createMeta issueType.
Proof.
  unfold scan_createMeta, metadata_field, matching_issue_type.
  destruct (cm_projects createMeta) as [[|project ?]|]; try reflexivity.
  destruct (mp_issuetypes project) as [its|]; [|reflexivity].
  destruct (find _ its) as [it|]; [|reflexivity].
  destruct (it_fields it); [apply scan_fields_find | reflexivity].
Qed.

Lemma probe_names_find fullIssue candidates :
  probe_names fullIssue candidates
  = find (resolves_story_points fullIssue) candidates.
Proof.
  induction candidates as [|fieldId rest IH]; [reflexivity|].
  cbn [probe_names find]. rewrite IH.
  unfold resolves_story_points.
  destruct (np_names fullIssue) as [names|]; [|reflexivity].
  destruct (name_of names fieldId) as [n|]; [|reflexivity].
  destruct (nonempty n); reflexivity.
Qed.

Lemma find_first {A} (p : A -> bool) x after :
  p x = true -> forall before, Forall (fun a => p a = false) before ->
  find p (before ++ x :: after) = Some x.
Proof.
  intros Hx before. induction 1 as [|a l Ha _ IH]; simpl.
  - rewrite Hx. reflexivity.
  - rewrite Ha. exact IH.
Qed.

Lemma find_none {A} (p : A -> bool) l :
  Forall (fun a => p a = false) l -> find p l = None.
Proof. induction 1 as [|a l Ha _ IH]; simpl; [|rewrite Ha]; auto. Qed.

(** Discovery, step by step. *)
Lemma findStoryPointsField_discovered baseUrl remote projectKey issueType :
  outcome (findStoryPointsField baseUrl remote projectKey issueType)
  = Ok (discovered baseUrl remote projectKey issueType).
Proof.
  unfold findStoryPointsField, discovered. fold (role issueType).
  rewrite outcome_try_catch, outcome_bind.
  destruct (outcome (getCreateMeta baseUrl remote projectKey (role issueType)))
    as [createMeta|]; [|reflexivity].
  rewrite scan_createMeta_metadata_field.
  destruct (metadata_field createMeta (role issueType)); [reflexivity|].
  rewrite outcome_bind. fold (probe_jql projectKey (role issueType)).
  destruct (outcome (searchIssues baseUrl remote _)) as [searchResult|];
    [|reflexivity].
  destruct (issues searchResult) as [|first rest]; [reflexivity|].
  rewrite outcome_bind. fold (names_path (key first)).
  destruct (outcome (fetchJson baseUrl remote names_api _ "GET" None));
    [|reflexivity].
  cbn [outcome ret snd]. rewrite probe_names_find. reflexivity.
Qed.

(** C8.  Discovery returns the field the creation metadata names: the
    identifier of the first field, in metadata order, of the matching
    issue type whose lower-cased name contains one of the story-point
    words.  Failing that, it probes one existing record of the role and
    returns the first identifier of the shortlist that is present in the
    record's field-name map with a name containing both [story] and
    [point].  When neither resolves the result is [None], and an
    identifier that is returned is always a field of the metadata or a
    member of the shortlist. *)
Theorem C8_discovery_metadata_then_probe :
  forall (baseUrl : string) (remote : Remote) (projectKey : string)
         (issueType : option string),
    let found := outcome (findStoryPointsField baseUrl remote projectKey
                            issueType) in
    let createMeta_of := outcome (getCreateMeta baseUrl remote projectKey
                                    (role issueType)) in
    let search := outcome (searchIssues baseUrl remote
                             (probe_jql projectKey (role issueType))) in
    found = Ok (discovered baseUrl remote projectKey issueType)
    /\ (forall createMeta it before fieldId info after,
           createMeta_of = Ok createMeta ->
           matching_issue_type createMeta (role issueType) = Some it ->
           it_fields it = Some (before ++ (fieldId, info) :: after)%list ->
           names_story_points info = true ->
           Forall (fun kv => names_story_points (snd kv) = false) before ->
           found = Ok (Some fieldId))
    /\ (forall createMeta searchResult first rest fullIssue
               before fieldId after,
           createMeta_of = Ok createMeta ->
           metadata_field createMeta (role issueType) = None ->
           search = Ok searchResult ->
           issues searchResult = first :: rest ->
           outcome (fetchJson baseUrl remote names_api
                      (names_path (key first)) "GET" None) = Ok fullIssue ->
           commonStoryPointsFields = (before ++ fieldId :: after)%list ->
           resolves_story_points fullIssue fieldId = true ->
           Forall (fun c => resolves_story_points fullIssue c = false) before ->
           found = Ok (Some fieldId))
    /\ (forall createMeta searchResult,
           createMeta_of = Ok createMeta ->
           metadata_field createMeta (role issueType) = None ->
           search = Ok searchResult ->
           (issues searchResult = []
            \/ exists first rest fullIssue,
                 issues searchResult = first :: rest
                 /\ outcome (fetchJson baseUrl remote names_api
                               (names_path (key first)) "GET" None)
                    = Ok fullIssue
                 /\ Forall (fun c => resolves_story_points fullIssue c = false)
                      commonStoryPointsFields) ->
           found = Ok None)
    /\ (forall fieldId,
           found = Ok (Some fieldId) ->
           (exists createMeta it fields info,
               createMeta_of = Ok createMeta
               /\ matching_issue_type createMeta (role issueType) = Some it
               /\ it_fields it = Some fields
               /\ In (fieldId, info) fields
               /\ names_story_points info = true)
           \/ In fieldId commonStoryPointsFields).
Proof.
  intros baseUrl remote projectKey issueType found createMeta_of search.
  assert (Hd : found = Ok (discovered baseUrl remote projectKey issueType))
    by apply findStoryPointsField_discovered.
  split; [exact Hd|]. rewrite Hd. unfold discovered.
  fold createMeta_of search.
  split; [|split; [|split]].
  - intros createMeta it before fieldId info after Hm Hit Hf Hinfo Hbefore.
    rewrite Hm. unfold metadata_field. rewrite Hit, Hf.
    rewrite (find_first (fun kv => names_story_points (snd kv))
               (fieldId, info) after Hinfo Hbefore).
    reflexivity.
  - intros createMeta searchResult first rest fullIssue before fieldId after
           Hm Hnone Hs Hi Hfull Hlist Hres Hbefore.
    rewrite Hm, Hnone, Hs, Hi, Hfull. unfold probed_field. rewrite Hlist.
    rewrite (find_first _ fieldId after Hres Hbefore). reflexivity.
  - intros createMeta searchResult Hm Hnone Hs
           [Hi | [first [rest [fullIssue [Hi [Hfull Hall]]]]]];
      rewrite Hm, Hnone, Hs, Hi; [reflexivity|].
    rewrite Hfull. unfold probed_field. rewrite (find_none _ Hall).
    reflexivity.
  - intros fieldId H.
    destruct createMeta_of as [createMeta|]; [|discriminate].
    destruct (metadata_field createMeta (role issueType)) as [f|] eqn:Em.
    + left. inversion H; subst f. unfold metadata_field in Em.
      destruct (matching_issue_type createMeta (role issueType)) as [it|] eqn:Eit;
        [|discriminate].
      destruct (it_fields it) as [fields|] eqn:Ef; [|discriminate].
      destruct (find _ fields) as [[f info]|] eqn:Efind; [|discriminate].
      simpl in Em. inversion Em; subst f.
      apply find_some in Efind. destruct Efind as [Hin Hp].
      exists createMeta, it, fields, info. repeat split; assumption.
    + right. destruct search as [searchResult|]; [|discriminate].
      destruct (issues searchResult) as [|first rest]; [discriminate|].
      destruct (outcome (fetchJson baseUrl remote names_api _ "GET" None))
        as [fullIssue|]; [|discriminate].
      inversion H as [Hp]. unfold probed_field in Hp.
      apply find_some in Hp. exact (proj1 Hp).
Qed.

Lemma updateStoryPoints_unresolved baseUrl remote issueKey storyPoints :
  outcome (findStoryPointsField baseUrl remote (before_first "-" issueKey)
             (Some "Story")) = Ok None ->
  outcome (updateStoryPoints baseUrl remote issueKey storyPoints)
  = Err (Failure (not_found_message (before_first "-" issueKey))).
Proof.
  intros H. unfold updateStoryPoints.
  rewrite (outcome_bind_ok _ _ H). reflexivity.
Qed.

(** C10.  Discovery never rejects.  A failure of the metadata query, of
    the probe search or of the fetch of the probed record is caught and
    gives the same [None] as a field that cannot be resolved, so the
    update that depends on it fails in the same way in both cases. *)
Theorem C10_discovery_swallows_every_failure :
  forall (baseUrl : string) (remote : Remote) (projectKey : string)
         (issueType : option string),
    let found := outcome (findStoryPointsField baseUrl remote projectKey
                            issueType) in
    let createMeta_of := outcome (getCreateMeta baseUrl remote projectKey
                                    (role issueType)) in
    let search := outcome (searchIssues baseUrl remote
                             (probe_jql projectKey (role issueType))) in
    (exists r, found = Ok r)
    /\ (forall e, createMeta_of = Err e -> found = Ok None)
    /\ (forall createMeta e,
           createMeta_of = Ok createMeta ->
           metadata_field createMeta (role issueType) = None ->
           search = Err e ->
           found = Ok None)
    /\ (forall createMeta searchResult first rest e,
           createMeta_of = Ok createMeta ->
           metadata_field createMeta (role issueType) = None ->
           search = Ok searchResult ->
           issues searchResult = first :: rest ->
           outcome (fetchJson baseUrl remote names_api
                      (names_path (key first)) "GET" None) = Err e ->
           found = Ok None)
    /\ (forall (remote' : Remote) (issueKey : string) (storyPoints : value),
           outcome (findStoryPointsField baseUrl remote
                      (before_first "-" issueKey) (Some "Story")) = Ok None ->
           outcome (findStoryPointsField baseUrl remote'
                      (before_first "-" issueKey) (Some "Story")) = Ok None ->
           outcome (updateStoryPoints baseUrl remote issueKey storyPoints)
           = outcome (updateStoryPoints baseUrl remote' issueKey storyPoints)).
Proof.
  intros baseUrl remote projectKey issueType found createMeta_of search.
  assert (Hd : found = Ok (discovered baseUrl remote projectKey issueType))
    by apply findStoryPointsField_discovered.
  split; [exists (discovered baseUrl remote projectKey issueType); exact Hd|].
  rewrite Hd. unfold discovered. fold createMeta_of search.
  split; [|split; [|split]].
  - intros e He. rewrite He. reflexivity.
  - intros createMeta e Hm Hnone Hs. rewrite Hm, Hnone, Hs. reflexivity.
  - intros createMeta searchResult first rest e Hm Hnone Hs Hi Hf.
    rewrite Hm, Hnone, Hs, Hi, Hf. reflexivity.
  - intros remote' issueKey storyPoints H H'.
    rewrite (updateStoryPoints_unresolved _ _ _ storyPoints H).
    rewrite (updateStoryPoints_unresolved _ _ _ storyPoints H').
    reflexivity.
Qed.

(** * Worked instances *)

(** C1 on the sample paragraph, whose walk meets [B-1], [C-2], [B-1],
    [D-3]. *)
Lemma C1_sample_paragraph :
  exists walked returned,
    forEachR (processNode Comment (Some "c1")) sample_nodes [] = Ok walked
    /\ extractIssueMentions Comment (Some "c1") (VArr sample_nodes)
       = Ok returned
    /\ NoDup (map ri_key returned)
    /\ map ri_key returned = first_occurrences (map ri_key walked)
    /\ (forall k, In k (map ri_key walked) <-> In k (map ri_key returned))
    /\ (forall m, In m returned -> last_with_key (ri_key m) walked = Some m).
Proof.
  apply (C1_mentions_deduplicated sample_nodes Comment (Some "c1")).
  reflexivity.
Defined.

Example sample_paragraph_walk :
  option_map (map ri_key)
    (match forEachR (processNode Comment (Some "c1")) sample_nodes [] with
     | Ok walked => Some walked
     | Err _ => None
     end)
  = Some ["B-1"; "C-2"; "B-1"; "D-3"].
Proof. reflexivity. Qed.

Example sample_paragraph_mentions :
  extractIssueMentions Comment (Some "c1") (VArr sample_nodes)
  = Ok [mk_mention "B-1" Comment (Some "c1");
        mk_mention "C-2" Comment (Some "c1");
        mk_mention "D-3" Comment (Some "c1")].
Proof. reflexivity. Qed.

(** An overwritten key keeps its place and takes the later value. *)
Example Map_overwrite :
  Map_values (Map_of_entries [("A", 1); ("B", 2); ("A", 3)]) = [3; 2].
Proof. reflexivity. Qed.

(** C2 on the sample record, alone and as the child of its epic. *)
Lemma C2_sample_record :
  (exists r,
      outcome (getIssueWithComments sample_base sample_remote in_order "P-1")
      = Ok r
      /\ merged sample_issue sample_comments r)
  /\ (exists rs,
         outcome (getEpicChildren sample_base sample_remote in_order "E-9")
         = Ok rs
         /\ Forall2 (fun issue r =>
                       exists commentsData,
                         outcome (fetchJson sample_base sample_remote comment_api
                                    (comment_path (raw_key issue)) "GET" None)
                         = Ok commentsData
                         /\ merged issue commentsData r)
              [sample_issue] rs).
Proof.
  destruct (C2_aggregates_append_comment_mentions
              sample_base sample_remote in_order) as [H1 H2].
  split.
  - apply (H1 "P-1" sample_issue sample_comments);
      [reflexivity | reflexivity |].
    eexists. eexists. split; reflexivity.
  - apply (H2 "E-9" {| sp_total := Some (VNum "1");
                       sp_issues := [sample_issue] |}); [reflexivity|].
    constructor; [|constructor].
    exists sample_comments. eexists. eexists.
    split; [reflexivity|]. split; reflexivity.
Defined.

Example sample_record_relationships :
  match outcome (getIssueWithComments sample_base sample_remote in_order "P-1")
  with
  | Ok r => map ri_key (relatedIssues r)
  | Err _ => []
  end
  = ["A-1"; "B-2"; "C-3"; "X-7"; "Y-8"; "X-7"].
Proof. reflexivity. Qed.

(** C3 on the sample record. *)
Lemma C3_sample_record :
  exists cleaned narrative entries,
    cleanIssue sample_issue = Ok cleaned
    /\ narrative_mentions sample_issue = Ok narrative
    /\ relatedIssues cleaned = (narrative ++ entries)%list
    /\ Forall2 (fun l e =>
                  clean_link l = Ok e
                  /\ ri_type e = Link /\ ri_source e = Description
                  /\ exists li, linked_issue l = Some li
                                /\ ri_key e = rr_key li)
         (issuelinks_of sample_issue) entries.
Proof.
  apply (C3_links_appended_after_mentions sample_issue); reflexivity.
Defined.

Example sample_record_normalised :
  match cleanIssue sample_issue with
  | Ok cleaned =>
      map (fun e => (ri_key e, ri_type e, ri_source e)) (relatedIssues cleaned)
  | Err _ => []
  end
  = [("A-1", Mention, Description); ("B-2", Mention, Description);
     ("C-3", Link, Description)].
Proof. reflexivity. Qed.

(** C4 on the sample paragraph, on a node that is neither text nor
    container, and on a string. *)
Lemma C4_sample_paragraph :
  extractTextContent (VArr sample_nodes)
  = Ok (String.concat "" (flat_map text_leaves sample_nodes))
  /\ (text_leaves (VObj [("type", VStr "rule")]) = []
      /\ text_piece (VObj [("type", VStr "rule")]) = Ok (VStr ""))
  /\ extractTextContent (VStr "plain") = Ok "".
Proof.
  destruct C4_text_is_concatenation_of_leaves as [H1 [H2 H3]].
  split; [apply H1; reflexivity|].
  split; [apply H2; reflexivity | apply H3; reflexivity].
Defined.

Example sample_paragraph_text :
  extractTextContent (VArr sample_nodes) = Ok "see B-1 and  then B-1, D-3".
Proof. reflexivity. Qed.


(** C6 as stated fails.  With the record served and its comments
    answering 404, the failure is that of the comments fetch, and it is
    not propagated: the operation reports the record as not found.  With
    the record fetch answering 500 under a message that quotes a 404, the
    server error is reported as a record not found as well. *)
Lemma C6_other_failures_reported_as_not_found :
  (outcome (fetchJson sample_base remote_comments_gone issue_api
              (issue_path "P-1") "GET" None) = Ok sample_issue
   /\ exists original,
        outcome (fetchJson sample_base remote_comments_gone comment_api
                   (comment_path "P-1") "GET" None) = Err original
        /\ outcome (getIssueWithComments sample_base remote_comments_gone
                      in_order "P-1")
           = Err (Failure "Issue not found: P-1")
        /\ original <> Failure "Issue not found: P-1")
  /\ (issue_api remote_server_error
        {| req_method := "GET"; req_url := sample_base ++ issue_path "P-1";
           req_body := None |}
      = refused 500 "Internal Server Error" "upstream said (Status: 404)"
          no_issue
      /\ outcome (getIssueWithComments sample_base remote_server_error
                    in_order "P-1")
         = Err (Failure "Issue not found: P-1")).
Proof.
  split.
  - split; [reflexivity|]. eexists. split; [reflexivity|].
    split; [reflexivity | discriminate].
  - split; reflexivity.
Qed.

(** C6 on the sample remotes. *)
Lemma C6_sample_failures :
  outcome (getIssueWithComments sample_base remote_record_gone in_order "P-1")
  = Err (Failure "Issue not found: P-1")
  /\ outcome (getIssueWithComments sample_base remote_comments_gone in_order "P-1")
     = Err (Failure "Issue not found: P-1")
  /\ outcome (getIssueWithComments sample_base remote_down in_order "P-1")
     = Err (Failure "fetch failed")
  /\ outcome (getIssueWithComments sample_base remote_server_error in_order
                "P-1")
     = Err (Failure "Issue not found: P-1")
  /\ reported "P-1" (Failure "x (Status: 404)") = Failure "Issue not found: P-1"
  /\ reported "P-1" (Failure "fetch failed") = Failure "fetch failed"
  /\ (exists message,
         handleFetchError {| resp_status := 404; resp_statusText := "Not Found";
                             resp_json := @SyntaxError unit "Unexpected token" |}
         = Failure message
         /\ includes message "(Status: 404)" = true).
Proof.
  split; [|split; [|split; [|split; [|split; [|split]]]]].
  - destruct (C6_not_found_is_told_by_the_message
                sample_base remote_record_gone in_order "P-1")
      as [_ [_ [_ [_ [_ H]]]]].
    destruct (H {| resp_status := 404; resp_statusText := "Not Found";
                   resp_json := Parsed (VObj [("errorMessages",
                                               VArr [VStr "Issue does not exist"]);
                                              ("errors", VObj [])]) no_issue |}
                sample_comments eq_refl eq_refl eq_refl) as [E|E];
      [exact E | discriminate E].
  - destruct (C6_not_found_is_told_by_the_message
                sample_base remote_comments_gone in_order "P-1")
      as [_ [H _]].
    exact (H sample_issue _ eq_refl eq_refl).
  - destruct (C6_not_found_is_told_by_the_message
                sample_base remote_down in_order "P-1") as [H _].
    destruct (H (Failure "fetch failed") eq_refl) as [_ H'].
    exact (H' (Failure "fetch failed") eq_refl).
  - destruct (C6_not_found_is_told_by_the_message
                sample_base remote_server_error in_order "P-1") as [H _].
    destruct (H _ eq_refl) as [H' _].
    exact (H' sample_comments eq_refl).
  - destruct (C6_not_found_is_told_by_the_message
                sample_base sample_remote in_order "P-1")
      as [_ [_ [H _]]].
    apply H. reflexivity.
  - destruct (C6_not_found_is_told_by_the_message
                sample_base sample_remote in_order "P-1")
      as [_ [_ [_ [H _]]]].
    apply H. intros message E. inversion E. reflexivity.
  - destruct (C6_not_found_is_told_by_the_message
                sample_base sample_remote in_order "P-1")
      as [_ [_ [_ [_ [H _]]]]].
    destruct (H unit {| resp_status := 404; resp_statusText := "Not Found";
                        resp_json := SyntaxError "Unexpected token" |} eq_refl)
      as [E | E]; [discriminate E | exact E].
Defined.

(** C7 on the sample record, whose epic [E-9] the remote does not know. *)
Lemma C7_sample_record :
  exists cleaned cs epic,
    outcome (getIssueWithComments sample_base sample_remote in_order "P-1")
    = Ok (with_comments cleaned cs)
    /\ epicLink (with_comments cleaned cs) = Some epic
    /\ ref_summary epic = None.
Proof.
  do 3 eexists.
  eapply (C7_epic_summary_failure_swallowed sample_base sample_remote in_order
            "P-1" (issueData := sample_issue) (commentsData := sample_comments));
    reflexivity.
Defined.

Example sample_record_epic :
  option_map epicLink
    (match outcome (getIssueWithComments sample_base sample_remote in_order "P-1")
     with Ok r => Some r | Err _ => None end)
  = Some (Some {| ref_id := "E-9"; ref_key := "E-9"; ref_summary := None |}).
Proof. reflexivity. Qed.

(** C8 on three remotes: the metadata names [Story Point Estimate]; the
    metadata names nothing and the probed record has [customfield_10016]
    as [Story Points]; neither resolves. *)
Lemma C8_sample_discoveries :
  outcome (findStoryPointsField sample_base sample_remote "P" None)
  = Ok (Some "customfield_10031")
  /\ outcome (findStoryPointsField sample_base remote_probe "P" None)
     = Ok (Some "customfield_10016")
  /\ outcome (findStoryPointsField sample_base remote_unresolved "P" None)
     = Ok None
  /\ ((exists createMeta it fields info,
          outcome (getCreateMeta sample_base sample_remote "P" (role None))
          = Ok createMeta
          /\ matching_issue_type createMeta (role None) = Some it
          /\ it_fields it = Some fields
          /\ In ("customfield_10031", info) fields
          /\ names_story_points info = true)
      \/ In "customfield_10031" commonStoryPointsFields).
Proof.
  split; [|split; [|split]].
  - destruct (C8_discovery_metadata_then_probe sample_base sample_remote "P" None)
      as [_ [H _]].
    apply (H (story_meta [("summary", named "Summary");
                          ("customfield_10031", named "Story Point Estimate");
                          ("customfield_10016", named "Story Points")])
             {| it_name := "Story";
                it_fields := Some [("summary", named "Summary");
                                   ("customfield_10031",
                                    named "Story Point Estimate");
                                   ("customfield_10016", named "Story Points")] |}
             [("summary", named "Summary")]
             "customfield_10031" (named "Story Point Estimate")
             [("customfield_10016", named "Story Points")]);
      try reflexivity.
    constructor; [reflexivity | constructor].
  - destruct (C8_discovery_metadata_then_probe sample_base remote_probe "P" None)
      as [_ [_ [H _]]].
    eapply (H (story_meta [("summary", named "Summary")]) _ _ _
              {| np_names := Some [("summary", "Summary");
                                   ("customfield_10020", "Sprint");
                                   ("customfield_10016", "Story Points")] |}
              ["customfield_10002"] "customfield_10016"
              ["customfield_10020"; "customfield_10026"; "customfield_10004";
               "customfield_10008"]);
      try reflexivity.
    constructor; [reflexivity | constructor].
  - destruct (C8_discovery_metadata_then_probe sample_base remote_unresolved
                "P" None) as [_ [_ [_ [H _]]]].
    eapply (H (story_meta [("summary", named "Summary")]));
      [reflexivity | reflexivity | reflexivity |].
    left. reflexivity.
  - destruct (C8_discovery_metadata_then_probe sample_base sample_remote "P" None)
      as [_ [_ [_ [_ H]]]].
    apply H. reflexivity.
Defined.

(** C9 on the remote where nothing resolves. *)
Lemma C9_sample_update :
  outcome (updateStoryPoints sample_base remote_unresolved "P-1" (VNum "5"))
  = Err (Failure (not_found_message "P"))
  /\ includes (not_found_message "P") "P" = true
  /\ trace (updateStoryPoints sample_base remote_unresolved "P-1" (VNum "5"))
     = trace (findStoryPointsField sample_base remote_unresolved "P"
                (Some "Story"))
  /\ Forall is_GET
       (trace (updateStoryPoints sample_base remote_unresolved "P-1" (VNum "5"))).
Proof.
  apply (C9_update_fails_when_field_unresolved sample_base remote_unresolved
           "P-1" (VNum "5")).
  reflexivity.
Defined.

(** Where discovery resolves, the update is sent. *)
Example sample_update_sent :
  map req_method (trace (updateStoryPoints sample_base sample_remote "P-1"
                           (VNum "5")))
  = ["GET"; "PUT"]
  /\ outcome (updateStoryPoints sample_base sample_remote "P-1" (VNum "5"))
     = Ok tt.
Proof. split; reflexivity. Qed.

(** C10 on remotes where the metadata query, the probe search and the
    fetch of the probed record fail in turn, against one that answers and
    resolves nothing. *)
Lemma C10_sample_failures :
  (exists r, outcome (findStoryPointsField sample_base remote_down "P" None)
             = Ok r)
  /\ outcome (findStoryPointsField sample_base remote_down "P" None) = Ok None
  /\ outcome (findStoryPointsField sample_base remote_search_down "P" None)
     = Ok None
  /\ outcome (findStoryPointsField sample_base remote_names_down "P" None)
     = Ok None
  /\ outcome (updateStoryPoints sample_base remote_down "P-1" (VNum "5"))
     = outcome (updateStoryPoints sample_base remote_unresolved "P-1" (VNum "5")).
Proof.
  destruct (C10_discovery_swallows_every_failure sample_base remote_down "P" None)
    as [H1 [H2 [_ [_ H5]]]].
  destruct (C10_discovery_swallows_every_failure sample_base remote_search_down
              "P" None) as [_ [_ [H3 _]]].
  destruct (C10_discovery_swallows_every_failure sample_base remote_names_down
              "P" None) as [_ [_ [_ [H4 _]]]].
  split; [exact H1|]. split; [|split; [|split]].
  - apply (H2 (Failure "fetch failed")). reflexivity.
  - apply (H3 (story_meta [("summary", named "Summary")])
              (Failure "fetch failed")); reflexivity.
  - eapply (H4 (story_meta [("summary", named "Summary")]) _ _ _
              (Failure "fetch failed")); reflexivity.
  - apply (H5 remote_unresolved "P-1" (VNum "5")); reflexivity.
Defined.

(** * Further properties *)

(** ** Plain text written as a document and read back *)

Lemma last_entry_In {V} k (entries : list (string * V)) v :
  last_entry k entries = Some v -> In v (map snd entries).
Proof.
  induction entries as [|[k' v'] es IH]; simpl; [discriminate|].
  destruct (last_entry k es).
  - intros H. right. apply IH. exact H.
  - destruct (String.eqb k' k); [|discriminate].
    intros H. inversion H. left. reflexivity.
Qed.

Lemma Map_values_In {V} (entries : list (string * V)) x :
  In x (Map_values (Map_of_entries entries)) -> In x (map snd entries).
Proof.
  unfold Map_values. intros H. apply in_map_iff in H.
  destruct H as [[k v] [Hv Hin]]. simpl in Hv. subst v.
  apply Map_of_entries_values in Hin. apply (last_entry_In _ _ Hin).
Qed.

Lemma deduplicated_In (walked : list RelatedIssue) m :
  In m (Map_values (Map_of_entries (map (fun m => (ri_key m, m)) walked))) ->
  In m walked.
Proof.
  intros H. apply Map_values_In in H. rewrite map_map in H. simpl in H.
  rewrite map_id in H. exact H.
Qed.

Lemma deduplicated_keys (walked : list RelatedIssue) :
  map ri_key (Map_values (Map_of_entries (map (fun m => (ri_key m, m)) walked)))
  = first_occurrences (map ri_key walked).
Proof.
  rewrite <- (map_map (fun m => (ri_key m, m)) fst walked :
                 map fst (map (fun m => (ri_key m, m)) walked) = map ri_key walked).
  rewrite <- Map_of_entries_keys.
  unfold Map_values. rewrite map_map.
  apply map_ext_in. intros [k x] Hin. simpl.
  apply Map_of_entries_values in Hin.
  apply (last_entry_key walked k Hin).
Qed.

Lemma walk_of_plain_text source commentId text :
  forEachR (processNode source commentId)
    match get_opt (createAdfFromBody text) "content" with
    | VArr nodes => nodes
    | _ => []
    end []
  = Ok (map (fun k => mk_mention k source commentId) (match_keys text)).
Proof. destruct text; reflexivity. Qed.

(** X1.  The document [createAdfFromBody] builds for a text reads back as
    that text, and the mentions found in it are the identifiers the scan
    of the text finds, each once, in order of first occurrence. *)
Theorem createAdfFromBody_reads_back :
  forall (text : string) (source : Source) (commentId : option string),
    extractTextContent (get_opt (createAdfFromBody text) "content") = Ok text
    /\ exists mentions,
         extractIssueMentions source commentId
           (get_opt (createAdfFromBody text) "content") = Ok mentions
         /\ map ri_key mentions = first_occurrences (match_keys text)
         /\ Forall (fun m => m = mk_mention (ri_key m) source commentId)
              mentions.
Proof.
  intros text source commentId. split; [destruct text; reflexivity|].
  pose proof (walk_of_plain_text source commentId text) as Hw.
  change (get_opt (createAdfFromBody text) "content")
    with (VArr match get_opt (createAdfFromBody text) "content" with
               | VArr nodes => nodes
               | _ => []
               end).
  unfold extractIssueMentions. rewrite Hw. cbn [rbind].
  eexists. split; [reflexivity|]. split.
  - rewrite deduplicated_keys, map_map. simpl. rewrite map_id. reflexivity.
  - apply Forall_forall. intros m Hin. apply deduplicated_In in Hin.
    apply in_map_iff in Hin. destruct Hin as [k [<- _]]. reflexivity.
Qed.

(** ** What the two regular expressions find *)

Lemma span_spec p s run rest :
  span p s = (run, rest) -> s = run ++ rest /\ all_chars p run = true.
Proof.
  revert run rest. induction s as [|c s IH]; intros run rest; simpl.
  - intros H. inversion H. split; reflexivity.
  - destruct (p c) eqn:Ec.
    + destruct (span p s) as [run' rest'] eqn:Es.
      intros H. inversion H; subst.
      destruct (IH run' rest eq_refl) as [-> Hall].
      split; [reflexivity|]. simpl. rewrite Ec. exact Hall.
    + intros H. inversion H. split; reflexivity.
Qed.

Lemma match_key_spec s m rest :
  match_key s = Some (m, rest) -> s = m ++ rest /\ key_shape m.
Proof.
  unfold match_key.
  destruct (span is_upper s) as [letters after_letters] eqn:El.
  apply span_spec in El. destruct El as [-> Hup].
  destruct letters as [|l letters]; [discriminate|].
  destruct after_letters as [|c after]; [discriminate|].
  destruct (Ascii.eqb c "-") eqn:Ec; [|discriminate].
  apply Ascii.eqb_eq in Ec. subst c.
  destruct (span is_digit after) as [digits rest'] eqn:Ed.
  apply span_spec in Ed. destruct Ed as [-> Hd].
  destruct digits as [|d digits]; [discriminate|].
  intros H. inversion H; subst. split.
  - simpl. f_equal. rewrite append_assoc. reflexivity.
  - exists (String l letters), (String d digits).
    repeat split; try discriminate; assumption.
Qed.

Lemma occurs_in_tail sub c s : occurs_in sub s -> occurs_in sub (String c s).
Proof.
  intros [before [after ->]]. exists (String c before), after. reflexivity.
Qed.

Lemma match_keys_from_spec s :
  forall skip k,
    In k (match_keys_from skip s) -> key_shape k /\ occurs_in k s.
Proof.
  induction s as [|c s IH]; intros skip k; simpl; [tauto|].
  destruct skip as [|n].
  - destruct (match_key (String c s)) as [[m rest]|] eqn:Em.
    + intros [<-|Hin].
      * apply match_key_spec in Em. destruct Em as [Hs Hk].
        split; [exact Hk|]. exists "", rest. exact Hs.
      * destruct (IH _ _ Hin) as [Hk Ho].
        split; [exact Hk | apply occurs_in_tail, Ho].
    + intros Hin. destruct (IH _ _ Hin) as [Hk Ho].
      split; [exact Hk | apply occurs_in_tail, Ho].
  - intros Hin. destruct (IH _ _ Hin) as [Hk Ho].
    split; [exact Hk | apply occurs_in_tail, Ho].
Qed.

Lemma match_keys_from_exhausted s :
  forall skip, String.length s <= skip -> match_keys_from skip s = [].
Proof.
  induction s as [|c s IH]; intros skip H; simpl; [reflexivity|].
  destruct skip as [|n]; [simpl in H; inversion H|].
  apply IH. simpl in H. apply le_S_n. exact H.
Qed.

Lemma span_all p s rest :
  all_chars p s = true ->
  match rest with
  | EmptyString => True
  | String c _ => p c = false
  end ->
  span p (s ++ rest) = (s, rest).
Proof.
  intros Hall Hrest. induction s as [|c s IH]; simpl.
  - destruct rest as [|c r]; simpl; [reflexivity|]. rewrite Hrest. reflexivity.
  - simpl in Hall. apply andb_prop in Hall. destruct Hall as [Hc Hs].
    rewrite Hc, (IH Hs). reflexivity.
Qed.

Lemma append_length (a b : string) :
  String.length (a ++ b) = String.length a + String.length b.
Proof. induction a as [|c a IH]; simpl; [reflexivity | rewrite IH; reflexivity]. Qed.

Lemma match_key_exact k : key_shape k -> match_key k = Some (k, "").
Proof.
  intros [letters [digits [-> [Hl [Hd [Hup Hdig]]]]]].
  unfold match_key.
  rewrite (span_all is_upper letters ("-" ++ digits) Hup eq_refl).
  destruct letters as [|l letters]; [contradiction|].
  cbn [append]. change (Ascii.eqb "-" "-") with true. cbv iota.
  rewrite <- (append_nil_r digits) at 1.
  rewrite (span_all is_digit digits "" Hdig I).
  destruct digits as [|d digits]; [contradiction|]. reflexivity.
Qed.

(** X5.  The scan of a text for identifiers returns only texts of the
    shape letters-hyphen-digits, each of which occurs in the scanned text;
    and a text that is itself such an identifier is found, whole and
    alone. *)
Theorem text_scan_finds_identifiers_of_the_text :
  forall text : string,
    (forall k, In k (match_keys text) -> key_shape k /\ occurs_in k text)
    /\ (key_shape text -> match_keys text = [text]).
Proof.
  intros text. split.
  - intros k. apply match_keys_from_spec.
  - intros Hk. unfold match_keys.
    pose proof (match_key_exact Hk) as Hm.
    destruct text as [|c s].
    + destruct Hk as [l [d [H _]]]. destruct l; discriminate.
    + cbn [match_keys_from]. rewrite Hm.
      rewrite match_keys_from_exhausted; [reflexivity|].
      simpl. rewrite Nat.sub_0_r. apply le_n.
Qed.

Lemma strip_prefix_spec p s r : strip_prefix p s = Some r -> s = p ++ r.
Proof.
  revert s. induction p as [|a p IH]; intros s; simpl.
  - intros H. inversion H. reflexivity.
  - destruct s as [|b s]; [discriminate|].
    destruct (Ascii.eqb a b) eqn:E; [|discriminate].
    apply Ascii.eqb_eq in E. subst b. intros H. rewrite (IH _ H). reflexivity.
Qed.

Lemma match_browse_spec url :
  forall k, match_browse url = Some k ->
            key_shape k /\ occurs_in ("/browse/" ++ k) url.
Proof.
  induction url as [|c url IH]; intros k.
  - simpl. discriminate.
  - cbn [match_browse].
    destruct (strip_prefix "/browse/" (String c url)) as [after|] eqn:Es.
    + destruct (match_key after) as [[m rest]|] eqn:Em.
      * intros H. inversion H; subst m.
        apply match_key_spec in Em. destruct Em as [-> Hk].
        apply strip_prefix_spec in Es.
        split; [exact Hk|]. exists "", rest.
        rewrite Es, append_assoc. reflexivity.
      * intros H. destruct (IH _ H) as [Hk Ho].
        split; [exact Hk | apply occurs_in_tail, Ho].
    + intros H. destruct (IH _ H) as [Hk Ho].
      split; [exact Hk | apply occurs_in_tail, Ho].
Qed.

(** X6.  The address of a card gives an identifier only when it contains
    [/browse/] followed by that identifier, which has the shape
    letters-hyphen-digits; an address without [/browse/] gives none. *)
Theorem card_address_gives_the_browsed_identifier :
  forall url : string,
    (forall k, match_browse url = Some k ->
               key_shape k /\ occurs_in ("/browse/" ++ k) url)
    /\ (includes url "/browse/" = false -> match_browse url = None).
Proof.
  intros url. split; [apply match_browse_spec|].
  intros Hno. destruct (match_browse url) as [k|] eqn:Em; [|reflexivity].
  exfalso. destruct (match_browse_spec _ Em) as [_ [before [after Hurl]]].
  rewrite Hurl, append_assoc, includes_middle in Hno. discriminate.
Qed.

(** ** What the Mention Extractor returns, whatever it is given *)

Lemma rbind_Ok {A B} (r : result A) (f : A -> result B) b :
  rbind r f = Ok b -> exists a, r = Ok a /\ f a = Ok b.
Proof. destruct r as [a|e]; simpl; [eauto | discriminate]. Qed.

Lemma forEachR_preserves {A B} (f : A -> B -> result B) (Q : B -> Prop) l :
  Forall (fun a => forall st st', f a st = Ok st' -> Q st -> Q st') l ->
  forall st st', forEachR f l st = Ok st' -> Q st -> Q st'.
Proof.
  induction 1 as [|a l Ha _ IH]; intros st st'; simpl.
  - intros H. inversion H; subst. auto.
  - intros H Hq. apply rbind_Ok in H. destruct H as [st1 [H1 H2]].
    apply (IH _ _ H2). apply (Ha _ _ H1 Hq).
Qed.

Lemma processNode_mentions source commentId v :
  (forall ms ms',
      processNode source commentId v ms = Ok ms' ->
      Forall (mention_of source commentId) ms ->
      Forall (mention_of source commentId) ms')
  /\ match v with
     | VArr items =>
         forall ms ms',
           forEachR (processNode source commentId) items ms = Ok ms' ->
           Forall (mention_of source commentId) ms ->
           Forall (mention_of source commentId) ms'
     | _ => True
     end.
Proof.
  induction v as [| | | | |items IH|props IH] using value_nested_ind;
    try solve [split; [simpl; intros ms ms' H; inversion H; subst; auto
                      | exact I]].
  - split; [simpl; intros ms ms' H; inversion H; subst; auto|].
    apply (forEachR_preserves _ (Forall (mention_of source commentId))).
    eapply Forall_impl; [|exact IH]. intros a [Ha _]. exact Ha.
  - split; [|exact I].
    intros ms ms' H Hms. cbn [processNode] in H.
    apply rbind_Ok in H. destruct H as [m1 [H1 H]].
    apply rbind_Ok in H. destruct H as [m2 [H2 H3]].
    assert (Hm1 : Forall (mention_of source commentId) m1).
    { destruct (is_string (lookup props "type") "inlineCard"
                && truthy (get_opt (lookup props "attrs") "url"));
        [|inversion H1; subst; exact Hms].
      destruct (get_opt (lookup props "attrs") "url"); try discriminate.
      destruct (match_browse s) as [k|] eqn:Ek;
        inversion H1; subst; [|exact Hms].
      apply Forall_app. split; [exact Hms|].
      constructor; [|constructor].
      split; [apply (match_browse_spec _ Ek) | reflexivity]. }
    assert (Hm2 : Forall (mention_of source commentId) m2).
    { destruct (is_string (lookup props "type") "text"
                && truthy (lookup props "text"));
        [|inversion H2; subst; exact Hm1].
      destruct (lookup props "text"); try discriminate.
      inversion H2; subst.
      apply Forall_app. split; [exact Hm1|].
      apply Forall_forall. intros m Hin. apply in_map_iff in Hin.
      destruct Hin as [k [<- Hk]].
      split; [apply (match_keys_from_spec _ _ _ Hk) | reflexivity]. }
    rewrite with_prop_assoc in H3.
    destruct (assoc "content" props) as [c|] eqn:Ec;
      [|inversion H3; subst; exact Hm2].
    destruct (truthy c); [|inversion H3; subst; exact Hm2].
    destruct c as [| | | | |children|]; try discriminate.
    rewrite Forall_forall in IH.
    destruct (IH _ (assoc_In _ _ Ec)) as [_ Hc]. cbn [snd] in Hc.
    apply (Hc _ _ H3 Hm2).
Qed.

Lemma extractIssueMentions_invariant content source commentId mentions :
  extractIssueMentions source commentId content = Ok mentions ->
  NoDup (map ri_key mentions)
  /\ Forall (mention_of source commentId) mentions.
Proof.
  intros H. unfold extractIssueMentions in H.
  destruct content as [| | | | |nodes|]; try discriminate.
  apply rbind_Ok in H. destruct H as [walked [Hw H]].
  inversion H; subst. split.
  - rewrite deduplicated_keys. apply first_occurrences_NoDup.
  - destruct (processNode_mentions source commentId (VArr nodes)) as [_ Hp].
    pose proof (Hp _ _ Hw (Forall_nil _)) as Hall.
    rewrite Forall_forall in *. intros m Hin.
    apply Hall. apply deduplicated_In. exact Hin.
Qed.

(** X7.  Whatever content the Mention Extractor is given, well formed or
    not, when it returns, the list it returns names no identifier twice,
    and every entry is a mention under the provenance asked for, with an
    identifier of the shape letters-hyphen-digits. *)
Theorem extractIssueMentions_returns_distinct_mentions :
  forall (content : value) (source : Source) (commentId : option string)
         (mentions : list RelatedIssue),
    extractIssueMentions source commentId content = Ok mentions ->
    NoDup (map ri_key mentions)
    /\ Forall (mention_of source commentId) mentions.
Proof.
  intros content source commentId mentions.
  apply extractIssueMentions_invariant.
Qed.

(** ** Provenance *)

Lemma mapR_Ok {A B} (f : A -> result B) l l' :
  mapR f l = Ok l' -> Forall2 (fun a b => f a = Ok b) l l'.
Proof.
  revert l'. induction l as [|a l IH]; intros l'; simpl.
  - intros H. inversion H. constructor.
  - intros H. apply rbind_Ok in H. destruct H as [b [Hb H]].
    apply rbind_Ok in H. destruct H as [bs [Hbs H]].
    inversion H; subst. constructor; [exact Hb | apply IH, Hbs].
Qed.

Lemma clean_link_provenance l e :
  clean_link l = Ok e ->
  ri_type e = Link /\ ri_source e = Description /\ ri_commentId e = None.
Proof.
  unfold clean_link.
  destruct (match rl_inwardIssue l with
            | Some i => Some i
            | None => rl_outwardIssue l
            end); [|discriminate].
  intros H. inversion H. repeat split.
Qed.

Lemma cleanIssue_relatedIssues issue cleaned :
  cleanIssue issue = Ok cleaned ->
  exists narrative links,
    narrative_mentions issue = Ok narrative
    /\ mapR clean_link (issuelinks_of issue) = Ok links
    /\ relatedIssues cleaned = (narrative ++ links)%list.
Proof.
  unfold cleanIssue, narrative_mentions, issuelinks_of. intros H.
  apply rbind_Ok in H. destruct H as [d [_ H]].
  apply rbind_Ok in H. destruct H as [r1 [H1 H]].
  apply rbind_Ok in H. destruct H as [r2 [H2 H]].
  inversion H; subst. cbn [relatedIssues].
  assert (Hn : (if truthy (content_of (field issue f_description))
                then extractIssueMentions Description None
                       (content_of (field issue f_description))
                else Ok []) = Ok r1).
  { destruct (truthy (content_of (field issue f_description))); [|exact H1].
    apply rbind_Ok in H1. destruct H1 as [ms [Hms H1]].
    rewrite Hms. inversion H1. destruct ms; reflexivity. }
  exists r1.
  destruct (field issue f_issuelinks) as [[|l links]|].
  - inversion H2; subst. exists []. rewrite app_nil_r. auto.
  - cbv beta match in H2. apply rbind_Ok in H2.
    destruct H2 as [ls [Hls H2]]. inversion H2; subst.
    exists ls. auto.
  - inversion H2; subst. exists []. rewrite app_nil_r. auto.
Qed.

(** X8.  Provenance is kept by the normalizers.  Every mention of a
    cleaned comment carries the comment's own identifier and the
    provenance [Comment]; every relationship of a cleaned record, mention
    or link, carries the provenance [Description] and no comment
    identifier; and a cleaned record has no comments of its own. *)
Theorem normalizers_keep_provenance :
  (forall comment cleaned,
      cleanComment comment = Ok cleaned ->
      c_id cleaned = rc_id comment
      /\ NoDup (map ri_key (c_mentions cleaned))
      /\ Forall (mention_of Comment (Some (rc_id comment)))
           (c_mentions cleaned))
  /\ (forall issue cleaned,
         cleanIssue issue = Ok cleaned ->
         Forall (fun e => ri_source e = Description /\ ri_commentId e = None)
           (relatedIssues cleaned)
         /\ comments cleaned = None).
Proof.
  split.
  - intros comment cleaned H. unfold cleanComment in H.
    apply rbind_Ok in H. destruct H as [body [_ H]].
    apply rbind_Ok in H. destruct H as [ms [Hms H]].
    inversion H; subst. cbn [c_id c_mentions]. split; [reflexivity|].
    destruct (truthy (content_of (rc_body comment))).
    + apply (extractIssueMentions_invariant _ _ _ Hms).
    + inversion Hms; subst. split; constructor.
  - intros issue cleaned H. split.
    + destruct (cleanIssue_relatedIssues _ H)
        as [narrative [links [Hn [Hl ->]]]].
      apply Forall_app. split.
      * unfold narrative_mentions in Hn.
        destruct (truthy (content_of (field issue f_description)));
          [|inversion Hn; constructor].
        destruct (extractIssueMentions_invariant _ _ _ Hn)
          as [_ Hall].
        eapply Forall_impl; [|exact Hall].
        intros m [_ ->]. split; reflexivity.
      * apply mapR_Ok in Hl. clear Hn.
        induction Hl as [|l e ls es He _ IH]; constructor; [|exact IH].
        destruct (clean_link_provenance _ He) as [_ [Hs Hc]]. auto.
    + unfold cleanIssue in H.
      apply rbind_Ok in H. destruct H as [d [_ H]].
      apply rbind_Ok in H. destruct H as [r1 [_ H]].
      apply rbind_Ok in H. destruct H as [r2 [_ H]].
      inversion H. reflexivity.
Qed.

(** ** Transport errors *)

Lemma includes_status pre status rest :
  includes (pre ++ " (Status: " ++ N_to_string status ++ ")" ++ rest)
    (status_text status) = true.
Proof.
  replace (pre ++ " (Status: " ++ N_to_string status ++ ")" ++ rest)
    with ((pre ++ " ") ++ status_text status ++ rest).
  - apply includes_middle.
  - unfold status_text. rewrite !append_assoc. reflexivity.
Qed.

Lemma handleFetchError_message {T} (response : Response T) :
  resp_ok response = false ->
  handleFetchError response = TypeError
  \/ exists category printed,
       handleFetchError response
       = Failure ("JIRA API Error" ++ category ++ printed
                    ++ " (Status: " ++ N_to_string (resp_status response) ++ ")"
                    ++ newline ++ "Details: "
                    ++ JSON_stringify match resp_json response with
                                      | Parsed any _ => any
                                      | SyntaxError _ => VObj []
                                      end)
       /\ category
          = (let status := resp_status response in
             if N.eqb status 401 then " [AUTHENTICATION_ERROR]"
             else if N.eqb status 403 then " [PERMISSION_ERROR]"
             else if N.eqb status 404 then " [NOT_FOUND_ERROR]"
             else if N.eqb status 400 then " [VALIDATION_ERROR]"
             else if N.leb 500 status then " [SERVER_ERROR]"
             else "").
Proof.
  intros Hok. unfold handleFetchError. rewrite Hok. cbn [negb].
  match goal with
  | |- context [if truthy ?m then _ else _] => destruct (truthy m)
  end.
  - match goal with
    | |- context [ToString ?m] => destruct (ToString m) as [p|e] eqn:Et
    end; cbn [rbind].
    + right. eexists. exists (": " ++ p). split; reflexivity.
    + left. apply ToString_err in Et. exact Et.
  - right. eexists. exists "". split; reflexivity.
Qed.

Lemma includes_empty s : includes s "" = true.
Proof. destruct s; reflexivity. Qed.

Lemma prefix_split (p s : string) :
  String.prefix p s = true -> exists rest, s = p ++ rest.
Proof.
  revert s. induction p as [|a p IH]; intros s.
  - intros _. exists s. reflexivity.
  - destruct s as [|b s]; simpl; [intros H; discriminate H|].
    destruct (ascii_dec a b) as [->|]; [|intros H; discriminate H].
    intros H. destruct (IH _ H) as [rest ->]. exists rest. reflexivity.
Qed.

Lemma includes_occurs (s sub : string) :
  includes s sub = true <-> occurs_in sub s.
Proof.
  split.
  - induction s as [|c s IH]; cbn [includes].
    + destruct (String.prefix sub "") eqn:E; [|discriminate].
      intros _. apply prefix_split in E. destruct E as [rest E].
      exists "", rest. exact E.
    + destruct (String.prefix sub (String c s)) eqn:E.
      * intros _. apply prefix_split in E. destruct E as [rest E].
        exists "", rest. exact E.
      * intros H. apply occurs_in_tail, IH, H.
  - intros [before [after ->]]. apply includes_middle.
Qed.

Lemma includes_app_r (s r sub : string) :
  includes s sub = true -> includes (s ++ r) sub = true.
Proof.
  intros H. apply includes_occurs in H. destruct H as [before [after ->]].
  rewrite !append_assoc. apply includes_middle.
Qed.

(** X11.  For a response that is not a success, the error
    [handleFetchError] builds starts with [JIRA API Error] and contains
    the status as [(Status: n)]; it carries the tag of the status class
    for 401, 403, 404, 400 and for 500 and above.  When the body is not
    JSON the error is always built, with the status text as its message;
    the one other outcome is the [TypeError] of a message that cannot be
    printed. *)
Theorem handleFetchError_names_status_and_class :
  forall (T : Type) (response : Response T),
    resp_ok response = false ->
    (handleFetchError response = TypeError
     \/ exists message,
          handleFetchError response = Failure message
          /\ String.prefix "JIRA API Error" message = true
          /\ includes message (status_text (resp_status response)) = true
          /\ (resp_status response = 401%N ->
              includes message "[AUTHENTICATION_ERROR]" = true)
          /\ (resp_status response = 403%N ->
              includes message "[PERMISSION_ERROR]" = true)
          /\ (resp_status response = 404%N ->
              includes message "[NOT_FOUND_ERROR]" = true)
          /\ (resp_status response = 400%N ->
              includes message "[VALIDATION_ERROR]" = true)
          /\ (N.leb 500 (resp_status response) = true ->
              includes message "[SERVER_ERROR]" = true))
    /\ (forall syntaxError,
           resp_json response = SyntaxError syntaxError ->
           exists message,
             handleFetchError response = Failure message
             /\ includes message (resp_statusText response) = true
             /\ includes message "Details: {}" = true).
Proof.
  intros T response Hok. split.
  - destruct (handleFetchError_message response Hok)
      as [H | [category [printed [H Hc]]]]; [left; exact H|].
    right. eexists. split; [exact H|].
    split; [apply prefix_app|].
    split; [do 3 apply includes_app_l; exact (includes_status "" _ _)|].
    assert (Htag : forall tag rest,
               category = String " " tag ->
               includes ("JIRA API Error" ++ category ++ rest) tag = true).
    { intros tag rest ->. apply includes_app_l.
      exact (includes_middle " " tag rest). }
    cbv zeta in Hc.
    repeat split; intros Hs; apply Htag; rewrite Hc.
    + rewrite Hs. reflexivity.
    + rewrite Hs. reflexivity.
    + rewrite Hs. reflexivity.
    + rewrite Hs. reflexivity.
    + destruct (N.eqb (resp_status response) 401) eqn:E1;
        [apply N.eqb_eq in E1; rewrite E1 in Hs; discriminate|].
      destruct (N.eqb (resp_status response) 403) eqn:E2;
        [apply N.eqb_eq in E2; rewrite E2 in Hs; discriminate|].
      destruct (N.eqb (resp_status response) 404) eqn:E3;
        [apply N.eqb_eq in E3; rewrite E3 in Hs; discriminate|].
      destruct (N.eqb (resp_status response) 400) eqn:E4;
        [apply N.eqb_eq in E4; rewrite E4 in Hs; discriminate|].
      rewrite Hs. reflexivity.
  - intros syntaxError Hj. unfold handleFetchError. rewrite Hok, Hj.
    cbn [negb].
    assert (Hprinted :
      exists printed,
        (if truthy (VStr (resp_statusText response))
         then printed0 <- ToString (VStr (resp_statusText response)) ;;
              Ok (": " ++ printed0)
         else Ok "") = Ok printed
        /\ includes printed (resp_statusText response) = true).
    { destruct (resp_statusText response) as [|c txt].
      - exists "". split; reflexivity.
      - exists (": " ++ String c txt). split; [reflexivity|].
        apply includes_app_l. apply includes_prefix.
        rewrite <- (append_nil_r (String c txt)) at 2. apply prefix_app. }
    destruct Hprinted as [printed [-> Hp]].
    eexists. split; [reflexivity|]. split.
    + do 2 apply includes_app_l. apply includes_app_r. exact Hp.
    + do 7 apply includes_app_l. reflexivity.
Qed.

(** ** One request, and only successes answered *)

(** X12.  [fetchJson] sends exactly one request, whatever happens to it,
    and fulfils only with the parsed body of a response whose status is a
    success: a response of any other status, a body that is not JSON and a
    failure of the network all reject. *)
Theorem fetchJson_one_request_success_only :
  forall (baseUrl : string) (remote : Remote) (T : Type)
         (api : Remote -> Request -> FetchOutcome T)
         (url method : string) (body : option value),
    let request := request_of baseUrl url method body in
    let call := fetchJson baseUrl remote api url method body in
    trace call = [request]
    /\ (forall typed,
           outcome call = Ok typed <->
           exists response any,
             api remote request = Responded response
             /\ resp_ok response = true
             /\ resp_json response = Parsed any typed)
    /\ (forall message,
           api remote request = NetworkFailure message ->
           outcome call = Err (Failure message))
    /\ (forall response message,
           api remote request = Responded response ->
           resp_ok response = true ->
           resp_json response = SyntaxError message ->
           outcome call = Err (Failure message))
    /\ (forall response,
           api remote request = Responded response ->
           resp_ok response = false ->
           outcome call = Err (handleFetchError response)).
Proof.
  intros baseUrl remote T api url method body request call.
  split; [apply trace_fetchJson|].
  unfold call. unfold request, request_of.
  split; [|split; [|split]].
  - intros typed. rewrite fetchJson_outcome. split.
    + destruct (api remote _) as [m|response]; [discriminate|].
      destruct (resp_ok response) eqn:Eok; cbn [negb]; [|discriminate].
      destruct (resp_json response) as [m|any t] eqn:Ej; [discriminate|].
      intros H. inversion H; subst. exists response, any. auto.
    + intros [response [any [-> [-> ->]]]]. reflexivity.
  - intros message H. rewrite fetchJson_outcome, H. reflexivity.
  - intros response message H Hok Hj.
    rewrite fetchJson_outcome, H, Hok, Hj. reflexivity.
  - intros response H Hok. rewrite fetchJson_outcome, H, Hok. reflexivity.
Qed.

Lemma updateIssue_trace baseUrl remote issueKey fields :
  trace (updateIssue baseUrl remote issueKey fields)
  = [request_of baseUrl ("/rest/api/3/issue/" ++ issueKey) "PUT"
       (Some (VObj [("fields", VObj fields)]))].
Proof.
  unfold updateIssue. rewrite trace_bind. unfold fetch, outcome, trace.
  cbn [fst snd].
  destruct (update_api remote _) as [m|response]; [reflexivity|].
  destruct (negb (resp_ok response)); reflexivity.
Qed.

Lemma updateIssue_outcome baseUrl remote issueKey fields :
  outcome (updateIssue baseUrl remote issueKey fields)
  = match update_api remote
            (request_of baseUrl ("/rest/api/3/issue/" ++ issueKey) "PUT"
               (Some (VObj [("fields", VObj fields)]))) with
    | NetworkFailure message => Err (Failure message)
    | Responded response =>
        if resp_ok response then Ok tt else Err (handleFetchError response)
    end.
Proof.
  unfold updateIssue. rewrite outcome_bind. unfold fetch, outcome at 1.
  cbn [snd]. unfold request_of.
  destruct (update_api remote _) as [m|response]; [reflexivity|].
  destruct (resp_ok response); reflexivity.
Qed.

(** X13.  [updateIssue] sends one [PUT] to the issue with the fields under
    [fields], and succeeds exactly when the response has a success
    status: the body of the response is never read, so an empty or
    unparsable body, which makes [fetchJson] reject, does not make the
    update fail. *)
Theorem updateIssue_ignores_the_response_body :
  forall (baseUrl : string) (remote : Remote) (issueKey : string)
         (fields : list (string * value)),
    let request := request_of baseUrl ("/rest/api/3/issue/" ++ issueKey) "PUT"
                     (Some (VObj [("fields", VObj fields)])) in
    trace (updateIssue baseUrl remote issueKey fields) = [request]
    /\ (outcome (updateIssue baseUrl remote issueKey fields) = Ok tt <->
        exists response,
          update_api remote request = Responded response
          /\ resp_ok response = true)
    /\ (forall response message,
           update_api remote request = Responded response ->
           resp_ok response = true ->
           resp_json response = SyntaxError message ->
           outcome (updateIssue baseUrl remote issueKey fields) = Ok tt
           /\ outcome (fetchJson baseUrl remote update_api
                         ("/rest/api/3/issue/" ++ issueKey) "PUT"
                         (Some (VObj [("fields", VObj fields)])))
              = Err (Failure message)).
Proof.
  intros baseUrl remote issueKey fields request.
  split; [apply updateIssue_trace|]. split.
  - rewrite updateIssue_outcome. fold request. split.
    + destruct (update_api remote request) as [m|response]; [discriminate|].
      destruct (resp_ok response) eqn:E; [|discriminate].
      intros _. exists response. auto.
    + intros [response [-> ->]]. reflexivity.
  - intros response message H Hok Hj. split.
    + rewrite updateIssue_outcome. fold request. rewrite H, Hok. reflexivity.
    + rewrite fetchJson_outcome.
      change {| req_method := "PUT";
                req_url := baseUrl ++ "/rest/api/3/issue/" ++ issueKey;
                req_body := Some (VObj [("fields", VObj fields)]) |}
        with request.
      rewrite H, Hok, Hj. reflexivity.
Qed.

(** X14.  When discovery resolves a field for the project of an issue key,
    [updateStoryPoints] sends, after the requests of discovery, exactly one
    [PUT] to that issue whose [fields] hold the value under the resolved
    identifier and nothing else, and settles as that update does. *)
Theorem updateStoryPoints_sends_one_update :
  forall (baseUrl : string) (remote : Remote) (issueKey : string)
         (storyPoints : value) (fieldId : string),
    let discovery := findStoryPointsField baseUrl remote
                       (before_first "-" issueKey) (Some "Story") in
    outcome discovery = Ok (Some fieldId) ->
    nonempty fieldId = true ->
    trace (updateStoryPoints baseUrl remote issueKey storyPoints)
    = (trace discovery
         ++ [request_of baseUrl ("/rest/api/3/issue/" ++ issueKey) "PUT"
               (Some (VObj [("fields", VObj [(fieldId, storyPoints)])]))])%list
    /\ outcome (updateStoryPoints baseUrl remote issueKey storyPoints)
       = outcome (updateIssue baseUrl remote issueKey [(fieldId, storyPoints)])
    /\ Forall is_GET (trace discovery).
Proof.
  intros baseUrl remote issueKey storyPoints fieldId discovery Hd Hne.
  split; [|split].
  - unfold updateStoryPoints. fold discovery. rewrite trace_bind, Hd, Hne.
    rewrite updateIssue_trace. reflexivity.
  - unfold updateStoryPoints. fold discovery.
    rewrite (outcome_bind_ok _ _ Hd), Hne. reflexivity.
  - apply findStoryPointsField_GET.
Qed.

(** ** Requests of the aggregates *)

Lemma getEpicChildren_unfold baseUrl remote settle epicKey :
  getEpicChildren baseUrl remote settle epicKey
  = (data <~ fetchJson baseUrl remote search_api
               (epic_children_path epicKey) "GET" None ;;
     Promise_all settle (map (epic_child baseUrl remote) (sp_issues data))).
Proof. reflexivity. Qed.

Lemma epic_child_trace baseUrl remote issue :
  trace (epic_child baseUrl remote issue)
  = [request_of baseUrl (comment_path (raw_key issue)) "GET" None].
Proof.
  unfold epic_child. rewrite trace_bind, trace_fetchJson.
  destruct (outcome (fetchJson baseUrl remote comment_api _ "GET" None));
    [|reflexivity].
  rewrite trace_bind. unfold lift at 1. unfold outcome at 1, trace at 1.
  cbn [fst snd].
  destruct (cleanIssue issue); [|reflexivity].
  rewrite trace_bind. unfold lift at 1. unfold outcome at 1, trace at 1.
  cbn [fst snd].
  destruct (mapR cleanComment _); reflexivity.
Qed.

Lemma Promise_all_trace {A} settle (members : list (IO A)) :
  trace (Promise_all settle members) = List.concat (map trace members).
Proof. reflexivity. Qed.

Lemma first_rejection_In settle rejections :
  forall best,
    In (first_rejection settle best rejections)
       (map snd (best :: rejections)).
Proof.
  induction rejections as [|r rest IH]; intros best; cbn [first_rejection].
  - left. reflexivity.
  - destruct (Nat.ltb (settle (fst r)) (settle (fst best))).
    + destruct (IH r) as [H|H]; [right; left; exact H | right; right; exact H].
    + destruct (IH best) as [H|H]; [left; exact H | right; right; exact H].
Qed.

Lemma rejections_from_In {A} (outcomes : list (result A)) :
  forall i e,
    In e (map snd (rejections_from i outcomes)) <-> In (Err e) outcomes.
Proof.
  induction outcomes as [|o os IH]; intros i e; simpl; [tauto|].
  destruct o as [a|e0]; simpl.
  - rewrite IH. split; [auto|]. intros [H|H]; [discriminate | exact H].
  - rewrite IH. split.
    + intros [<-|H]; auto.
    + intros [H|H]; [inversion H; auto | auto].
Qed.

Lemma Promise_all_outcome {A} settle (members : list (IO A)) :
  (forall values,
      outcome (Promise_all settle members) = Ok values <->
      Forall2 (fun m a => outcome m = Ok a) members values)
  /\ (forall e,
         outcome (Promise_all settle members) = Err e ->
         exists m, In m members /\ outcome m = Err e).
Proof.
  split.
  - intros values. split; [|apply Promise_all_fulfilled].
    unfold Promise_all, outcome at 1. cbn [snd].
    destruct (rejections_from 0 (map outcome members)) as [|r rest] eqn:Er;
      [|discriminate].
    intros H. inversion H; subst. clear H.
    assert (Hno : forall e, ~ In (Err e) (map outcome members)).
    { intros e Hin. apply (rejections_from_In _ 0) in Hin.
      rewrite Er in Hin. exact Hin. }
    clear Er. induction members as [|m ms IH]; simpl; [constructor|].
    destruct (outcome m) as [a|e] eqn:Em.
    + constructor; [exact Em|]. apply IH. intros e Hin.
      apply (Hno e). simpl. rewrite Em. right. exact Hin.
    + exfalso. apply (Hno e). simpl. rewrite Em. left. reflexivity.
  - intros e. unfold Promise_all, outcome at 1. cbn [snd].
    destruct (rejections_from 0 (map outcome members)) as [|r rest] eqn:Er;
      [discriminate|].
    intros H. inversion H; subst. clear H.
    pose proof (first_rejection_In settle rest r) as Hin.
    rewrite <- Er in Hin. apply rejections_from_In in Hin.
    apply in_map_iff in Hin. destruct Hin as [m [Hm Hin]].
    exists m. auto.
Qed.

(** X15.  [getEpicChildren] asks first for the children of the epic; when
    that search answers, it asks for the comments of every record found,
    in the order of the search, whether or not some of these requests, or
    the cleaning of some record, fail; when the search fails it asks for
    nothing more. *)
Theorem getEpicChildren_asks_for_every_child :
  forall (baseUrl : string) (remote : Remote) (settle : nat -> nat)
         (epicKey : string),
    let search := fetchJson baseUrl remote search_api
                    (epic_children_path epicKey) "GET" None in
    let asked := request_of baseUrl (epic_children_path epicKey) "GET" None in
    (forall data,
        outcome search = Ok data ->
        trace (getEpicChildren baseUrl remote settle epicKey)
        = asked :: map (fun issue =>
                          request_of baseUrl (comment_path (raw_key issue))
                            "GET" None)
                     (sp_issues data))
    /\ (forall e,
           outcome search = Err e ->
           trace (getEpicChildren baseUrl remote settle epicKey) = [asked]
           /\ outcome (getEpicChildren baseUrl remote settle epicKey) = Err e).
Proof.
  intros baseUrl remote settle epicKey search asked. split.
  - intros data Hd. rewrite getEpicChildren_unfold, trace_bind.
    fold search. rewrite Hd. unfold search. rewrite trace_fetchJson.
    rewrite Promise_all_trace, map_map. cbn [app]. f_equal.
    induction (sp_issues data) as [|issue l IH]; [reflexivity|].
    cbn [map List.concat]. rewrite epic_child_trace, IH. reflexivity.
  - intros e He. rewrite getEpicChildren_unfold. split.
    + rewrite trace_bind. fold search. rewrite He. apply trace_fetchJson.
    + apply outcome_bind_err. exact He.
Qed.

Lemma Forall2_map_l_inv {A B C} (R : B -> C -> Prop) (f : A -> B) l :
  forall l', Forall2 R (map f l) l' -> Forall2 (fun a c => R (f a) c) l l'.
Proof.
  induction l as [|a l IH]; intros l' H; simpl in H; inversion H; subst;
    constructor; auto.
Qed.

(** X16.  [getEpicChildren] returns all the children or none.  It returns
    a list exactly when every record of the search is assembled, one
    entry per record in the order of the search; one record whose
    comments cannot be fetched or which cannot be cleaned makes the whole
    operation fail, and the error is that of one of the records. *)
Theorem getEpicChildren_all_or_nothing :
  forall (baseUrl : string) (remote : Remote) (settle : nat -> nat)
         (epicKey : string) (data : SearchPayload),
    outcome (fetchJson baseUrl remote search_api
               (epic_children_path epicKey) "GET" None) = Ok data ->
    (forall children,
        outcome (getEpicChildren baseUrl remote settle epicKey) = Ok children <->
        Forall2 (fun issue child =>
                   outcome (epic_child baseUrl remote issue) = Ok child)
          (sp_issues data) children)
    /\ (forall issue e,
           In issue (sp_issues data) ->
           outcome (epic_child baseUrl remote issue) = Err e ->
           exists issue' e',
             In issue' (sp_issues data)
             /\ outcome (epic_child baseUrl remote issue') = Err e'
             /\ outcome (getEpicChildren baseUrl remote settle epicKey)
                = Err e').
Proof.
  intros baseUrl remote settle epicKey data Hd.
  assert (Hout : outcome (getEpicChildren baseUrl remote settle epicKey)
                 = outcome (Promise_all settle
                              (map (epic_child baseUrl remote) (sp_issues data)))).
  { rewrite getEpicChildren_unfold, (outcome_bind_ok _ _ Hd). reflexivity. }
  rewrite Hout.
  destruct (Promise_all_outcome settle
              (map (epic_child baseUrl remote) (sp_issues data)))
    as [Hok Herr].
  split.
  - intros children. rewrite Hok. split.
    + intros H. apply Forall2_map_l_inv in H. exact H.
    + intros H. apply Forall2_map_l. exact H.
  - intros issue e Hin He.
    assert (Hcases :
      (exists children,
          outcome (Promise_all settle
                     (map (epic_child baseUrl remote) (sp_issues data)))
          = Ok children)
      \/ (exists e',
             outcome (Promise_all settle
                        (map (epic_child baseUrl remote) (sp_issues data)))
             = Err e')).
    { destruct (outcome (Promise_all settle
                           (map (epic_child baseUrl remote) (sp_issues data))));
        eauto. }
    destruct Hcases as [[children Ep] | [e' Ep]].
    + exfalso. apply Hok in Ep. apply Forall2_map_l_inv in Ep.
      remember (sp_issues data) as l. clear Heql Hok Herr Hout Hd.
      induction Ep as [|i child l children Hi _ IH]; [contradiction|].
      destruct Hin as [->|Hin]; [rewrite He in Hi; discriminate | auto].
    + destruct (Herr e' Ep) as [m [Hm Hme]].
      apply in_map_iff in Hm. destruct Hm as [issue' [<- Hin']].
      exists issue', e'. auto.
Qed.

Lemma try_catch_throw_trace {A} (m : IO A) (h : exn -> exn) :
  trace (try_catch m (fun e => throw (h e))) = trace m.
Proof.
  unfold try_catch. destruct (outcome m); [reflexivity|].
  unfold throw, trace. cbn [fst]. apply app_nil_r.
Qed.

Lemma getIssueWithComments_fetched_trace baseUrl remote settle issueId :
  trace (try_catch
           (Promise_all2 settle
              (fetchJson baseUrl remote issue_api (issue_path issueId) "GET" None)
              (fetchJson baseUrl remote comment_api (comment_path issueId)
                 "GET" None))
           (fun error =>
              match error with
              | Failure message =>
                  if includes message "(Status: 404)"
                  then throw (Failure ("Issue not found: " ++ issueId))
                  else throw error
              | TypeError => throw error
              end))
  = [request_of baseUrl (issue_path issueId) "GET" None;
     request_of baseUrl (comment_path issueId) "GET" None].
Proof.
  unfold try_catch.
  assert (Ht : trace (Promise_all2 settle
              (fetchJson baseUrl remote issue_api (issue_path issueId) "GET" None)
              (fetchJson baseUrl remote comment_api (comment_path issueId)
                 "GET" None))
          = [request_of baseUrl (issue_path issueId) "GET" None;
             request_of baseUrl (comment_path issueId) "GET" None]).
  { unfold Promise_all2, trace at 1. cbn [fst].
    rewrite !trace_fetchJson. reflexivity. }
  destruct (outcome (Promise_all2 _ _ _)) as [a|e]; [exact Ht|].
  unfold trace at 1. cbn [fst]. fold (trace (Promise_all2 settle
              (fetchJson baseUrl remote issue_api (issue_path issueId) "GET" None)
              (fetchJson baseUrl remote comment_api (comment_path issueId)
                 "GET" None))).
  rewrite Ht. destruct e as [|m]; [reflexivity|].
  destruct (includes m "(Status: 404)"); reflexivity.
Qed.

Lemma best_effort_trace {A B} (m : IO A) (g : A -> B) (b : B) :
  trace (try_catch (bind m (fun a => ret (g a))) (fun _ => ret b)) = trace m.
Proof.
  assert (Hb : trace (bind m (fun a => ret (g a))) = trace m).
  { rewrite trace_bind. destruct (outcome m); [apply app_nil_r | reflexivity]. }
  unfold try_catch. destruct (outcome (bind m (fun a => ret (g a)))).
  - exact Hb.
  - unfold trace at 1. cbn [fst].
    fold (trace (bind m (fun a => ret (g a)))). rewrite Hb. apply app_nil_r.
Qed.

Lemma bind_cases {A B} (m : IO A) (f : A -> IO B)
      (P : list Request -> result B -> Prop) :
  (forall e, outcome m = Err e -> P (trace m) (Err e)) ->
  (forall a, outcome m = Ok a ->
             P (trace m ++ trace (f a))%list (outcome (f a))) ->
  P (trace (bind m f)) (outcome (bind m f)).
Proof.
  intros He Ha. rewrite trace_bind, outcome_bind.
  destruct (outcome m) as [a|e]; auto.
Qed.

(** X17.  [getIssueWithComments] always asks for the record and for its
    comments, in this order, and then at most once more, for the summary
    of an epic; every request is a read; and a call that fails has asked
    for the record and its comments only. *)
Theorem getIssueWithComments_requests :
  forall (baseUrl : string) (remote : Remote) (settle : nat -> nat)
         (issueId : string),
    let asked := [request_of baseUrl (issue_path issueId) "GET" None;
                  request_of baseUrl (comment_path issueId) "GET" None] in
    let call := getIssueWithComments baseUrl remote settle issueId in
    (trace call = asked
     \/ exists epicKey,
          trace call
          = (asked ++ [request_of baseUrl (epic_summary_path epicKey)
                         "GET" None])%list)
    /\ Forall is_GET (trace call)
    /\ (forall e, outcome call = Err e -> trace call = asked).
Proof.
  intros baseUrl remote settle issueId asked call.
  set (shape := fun (t : list Request) (o : result CleanJiraIssue) =>
         (t = asked
          \/ exists epicKey,
               t = (asked ++ [request_of baseUrl (epic_summary_path epicKey)
                                "GET" None])%list)
         /\ match o with
            | Err _ => t = asked
            | Ok _ => True
            end).
  assert (H : shape (trace call) (outcome call)).
  { unfold call, getIssueWithComments.
    change (fetchJson baseUrl remote issue_api
              ("/rest/api/3/issue/" ++ issueId ++ "?"
                 ++ URLSearchParams_toString
                      [("fields", issue_fields);
                       ("expand", "names,renderedFields")]) "GET" None)
      with (fetchJson baseUrl remote issue_api (issue_path issueId) "GET" None).
    change (fetchJson baseUrl remote comment_api
              ("/rest/api/3/issue/" ++ issueId ++ "/comment") "GET" None)
      with (fetchJson baseUrl remote comment_api (comment_path issueId)
              "GET" None).
    apply bind_cases; rewrite getIssueWithComments_fetched_trace; fold asked.
    { intros e _. split; [left|]; reflexivity. }
    intros [issueData commentsData] _.
    apply (bind_cases (lift (cleanIssue issueData)) _
             (fun t o => shape (asked ++ t)%list o)).
    { intros e _. split; [left|]; apply app_nil_r. }
    intros cleaned _.
    apply (bind_cases (lift (mapR cleanComment (cp_comments commentsData))) _
             (fun t o => shape (asked ++ [] ++ t)%list o)).
    { intros e _. split; [left|]; apply app_nil_r. }
    intros cs _. cbn [lift trace fst app].
    rewrite with_comments_epicLink.
    destruct (epicLink cleaned) as [epic|];
      [|split; [left; apply app_nil_r | exact I]].
    change (fetchJson baseUrl remote issue_api
              ("/rest/api/3/issue/" ++ ref_key epic ++ "?fields=summary")
              "GET" None)
      with (fetchJson baseUrl remote issue_api
              (epic_summary_path (ref_key epic)) "GET" None).
    split.
    - right. exists (ref_key epic). f_equal.
      rewrite best_effort_trace. apply trace_fetchJson.
    - rewrite outcome_try_catch, outcome_bind.
      destruct (outcome (fetchJson baseUrl remote issue_api _ "GET" None));
        exact I. }
  destruct H as [Hshape Herr].
  split; [exact Hshape|]. split.
  - destruct Hshape as [-> | [epicKey ->]];
      repeat (constructor; try reflexivity).
  - intros e He. rewrite He in Herr. exact Herr.
Qed.

(** ** Writing *)

(** X2.  [addCommentToIssue] posts the text as the document
    [createAdfFromBody] builds for it, in one request; and when the remote
    answers with a comment whose body is that document, the text it
    returns is the text that was posted. *)
Theorem addCommentToIssue_posts_and_reads_back :
  forall (baseUrl : string) (remote : Remote)
         (comment_post_api : Request -> FetchOutcome JiraCommentResponse)
         (issueIdOrKey body : string),
    let request := request_of baseUrl
                     ("/rest/api/3/issue/" ++ issueIdOrKey ++ "/comment")
                     "POST" (Some (VObj [("body", createAdfFromBody body)])) in
    let call := addCommentToIssue baseUrl remote comment_post_api
                  issueIdOrKey body in
    trace call = [request]
    /\ (forall response any answered,
           comment_post_api request = Responded response ->
           resp_ok response = true ->
           resp_json response = Parsed any answered ->
           doc_content (jc_body answered)
           = get_opt (createAdfFromBody body) "content" ->
           outcome call
           = Ok {| ac_id := jc_id answered;
                   ac_author := au_displayName (jc_author answered);
                   ac_created := jc_created answered;
                   ac_updated := jc_updated answered;
                   ac_body := body |}).
Proof.
  intros baseUrl remote comment_post_api issueIdOrKey body request call.
  split.
  - unfold call, addCommentToIssue. rewrite trace_bind, trace_fetchJson.
    fold request.
    destruct (outcome (fetchJson _ _ _ _ _ _)) as [response|]; [|reflexivity].
    rewrite trace_bind. unfold lift at 1. unfold outcome at 1, trace at 1.
    cbn [fst snd].
    destruct (extractTextContent _); reflexivity.
  - intros response any answered Hr Hok Hj Hdoc.
    unfold call, addCommentToIssue.
    rewrite (outcome_bind_ok _ _ (a := answered)).
    + rewrite Hdoc.
      rewrite (outcome_bind_ok _ _ (a := body)); [reflexivity|].
      unfold lift, outcome. cbn [snd]. destruct body; reflexivity.
    + rewrite fetchJson_outcome. fold (request_of baseUrl
        ("/rest/api/3/issue/" ++ issueIdOrKey ++ "/comment") "POST"
        (Some (VObj [("body", createAdfFromBody body)]))).
      fold request. rewrite Hr, Hok, Hj. reflexivity.
Qed.

Lemma transitionIssue_trace baseUrl remote transition_api issueKey
      transitionId comment :
  trace (transitionIssue baseUrl remote transition_api issueKey transitionId
           comment)
  = [request_of baseUrl ("/rest/api/3/issue/" ++ issueKey ++ "/transitions")
       "POST" (Some (transition_payload transitionId comment))].
Proof.
  unfold transitionIssue. rewrite trace_bind. unfold fetch, outcome, trace.
  cbn [fst snd].
  destruct (transition_api _) as [m|response]; [reflexivity|].
  destruct (negb (resp_ok response)); reflexivity.
Qed.

(** X3.  [transitionIssue] sends one [POST] whose payload names the
    transition.  A comment that is absent or empty adds nothing to the
    payload; a non-empty comment is added as one comment whose document
    reads back as the comment's text. *)
Theorem transitionIssue_payload :
  forall (baseUrl : string) (remote : Remote)
         (transition_api : Request -> FetchOutcome unit)
         (issueKey transitionId : string) (comment : option string),
    let payload := transition_payload transitionId comment in
    trace (transitionIssue baseUrl remote transition_api issueKey
             transitionId comment)
    = [request_of baseUrl ("/rest/api/3/issue/" ++ issueKey ++ "/transitions")
         "POST" (Some payload)]
    /\ get_opt (get_opt payload "transition") "id" = VStr transitionId
    /\ ((comment = None \/ comment = Some "") ->
        payload = VObj [("transition", VObj [("id", VStr transitionId)])])
    /\ (forall text,
           comment = Some text -> text <> "" ->
           exists document,
             get_opt payload "update"
             = VObj [("comment", VArr [VObj [("add",
                                              VObj [("body", document)])]])]
             /\ extractTextContent (get_opt document "content") = Ok text).
Proof.
  intros baseUrl remote transition_api issueKey transitionId comment payload.
  split; [apply transitionIssue_trace|].
  unfold payload, transition_payload.
  split; [|split].
  - destruct comment as [c|]; [destruct (nonempty c)|]; reflexivity.
  - intros [-> | ->]; reflexivity.
  - intros text -> Hne.
    destruct text as [|c text]; [contradiction|].
    eexists. split; reflexivity.
Qed.

Lemma has_own_assoc (props : list (string * value)) k :
  has_own props k = match assoc k props with
                    | Some _ => true
                    | None => false
                    end.
Proof. unfold has_own. apply with_prop_assoc. Qed.

Lemma lookup_assoc (props : list (string * value)) k :
  lookup props k = match assoc k props with
                   | Some v => v
                   | None => VUndefined
                   end.
Proof. unfold lookup. apply with_prop_assoc. Qed.

Lemma assoc_cons {V} k0 k (v : V) props :
  assoc k0 ((k, v) :: props)
  = if String.eqb k k0 then Some v else assoc k0 props.
Proof. reflexivity. Qed.

Lemma insert_index_assoc props n k v k0 :
  assoc k props = None ->
  assoc k0 (insert_index props n k v)
  = if String.eqb k k0 then Some v else assoc k0 props.
Proof.
  induction props as [|[k' v'] props IH]; intros Hk; cbn [insert_index].
  - reflexivity.
  - rewrite assoc_cons in Hk.
    destruct (String.eqb k' k) eqn:E; [discriminate|].
    destruct (array_index k') as [n'|]; [|reflexivity].
    destruct (N.ltb n n'); [reflexivity|].
    rewrite !assoc_cons, (IH Hk).
    destruct (String.eqb k' k0) eqn:E0; [|reflexivity].
    destruct (String.eqb k k0) eqn:E1; [|reflexivity].
    apply String.eqb_eq in E0, E1. subst.
    rewrite String.eqb_refl in E. discriminate.
Qed.

Lemma append_entry_assoc {V} (props : list (string * V)) k v k0 :
  assoc k props = None ->
  assoc k0 (props ++ [(k, v)])
  = if String.eqb k k0 then Some v else assoc k0 props.
Proof.
  induction props as [|[k' v'] props IH]; intros Hk.
  - reflexivity.
  - rewrite assoc_cons in Hk.
    destruct (String.eqb k' k) eqn:E; [discriminate|].
    rewrite <- app_comm_cons, !assoc_cons, (IH Hk).
    destruct (String.eqb k' k0) eqn:E0; [|reflexivity].
    destruct (String.eqb k k0) eqn:E1; [|reflexivity].
    apply String.eqb_eq in E0, E1. subst.
    rewrite String.eqb_refl in E. discriminate.
Qed.

Lemma define_property_assoc props k v k0 :
  assoc k0 (define_property props k v)
  = if String.eqb k k0 then Some v else assoc k0 props.
Proof.
  unfold define_property. rewrite has_own_assoc.
  destruct (assoc k props) eqn:Ek.
  - apply Map_set_assoc.
  - destruct (array_index k).
    + apply insert_index_assoc, Ek.
    + apply append_entry_assoc, Ek.
Qed.

Lemma spread_assoc source k0 :
  forall target,
    assoc k0 (spread target source)
    = match last_entry k0 source with
      | Some v => Some v
      | None => assoc k0 target
      end.
Proof.
  unfold spread.
  induction source as [|[k v] source IH]; intros target; simpl; [reflexivity|].
  rewrite IH, define_property_assoc.
  destruct (last_entry k0 source); [reflexivity|].
  destruct (String.eqb k k0); reflexivity.
Qed.

Lemma createIssue_fields_assoc projectKey issueType summary description
      fields k :
  assoc k (createIssue_fields projectKey issueType summary description fields)
  = match last_entry k (given_fields fields) with
    | Some v => Some v
    | None => assoc k (own_fields projectKey issueType summary description)
    end.
Proof.
  unfold createIssue_fields, own_fields, given_fields.
  assert (Hown :
    assoc k match description with
            | Some d =>
                if nonempty d
                then spread [("project", VObj [("key", VStr projectKey)]);
                             ("summary", VStr summary);
                             ("issuetype", VObj [("name", VStr issueType)])]
                       [("description", createAdfFromBody d)]
                else [("project", VObj [("key", VStr projectKey)]);
                      ("summary", VStr summary);
                      ("issuetype", VObj [("name", VStr issueType)])]
            | None => [("project", VObj [("key", VStr projectKey)]);
                       ("summary", VStr summary);
                       ("issuetype", VObj [("name", VStr issueType)])]
            end
    = assoc k ([("project", VObj [("key", VStr projectKey)]);
                ("summary", VStr summary);
                ("issuetype", VObj [("name", VStr issueType)])]
                 ++ match description with
                    | Some d => if nonempty d
                                then [("description", createAdfFromBody d)]
                                else []
                    | None => []
                    end)%list).
  { destruct description as [d|]; [destruct (nonempty d)|]; reflexivity. }
  destruct fields as [f|]; [|exact Hown].
  rewrite spread_assoc, Hown. reflexivity.
Qed.

(** X4.  [createIssue] sends one [POST] whose [fields] hold, under every
    name, the caller's value when the caller's fields have that name, so
    that they replace even the summary, the project and the issue type,
    and otherwise what the operation writes itself; a description that is
    absent or empty is not written. *)
Theorem createIssue_caller_fields_win :
  forall (baseUrl : string) (remote : Remote)
         (create_api : Request -> FetchOutcome CreatedIssue)
         (projectKey issueType summary : string)
         (description : option string)
         (fields : option (list (string * value))),
    let sent := createIssue_fields projectKey issueType summary description
                  fields in
    trace (createIssue baseUrl remote create_api projectKey issueType summary
             description fields)
    = [request_of baseUrl "/rest/api/3/issue" "POST"
         (Some (VObj [("fields", VObj sent)]))]
    /\ (forall k v,
           last_entry k (given_fields fields) = Some v ->
           lookup sent k = v)
    /\ (forall k,
           last_entry k (given_fields fields) = None ->
           lookup sent k
           = lookup (own_fields projectKey issueType summary description) k)
    /\ ((description = None \/ description = Some "") ->
        last_entry "description" (given_fields fields) = None ->
        has_own sent "description" = false).
Proof.
  intros baseUrl remote create_api projectKey issueType summary description
         fields sent.
  split; [apply trace_fetchJson|].
  split; [|split].
  - intros k v H. rewrite lookup_assoc. unfold sent.
    rewrite createIssue_fields_assoc, H. reflexivity.
  - intros k H. rewrite !lookup_assoc. unfold sent.
    rewrite createIssue_fields_assoc, H. reflexivity.
  - intros Hd H. rewrite has_own_assoc. unfold sent.
    rewrite createIssue_fields_assoc, H.
    destruct Hd as [-> | ->]; reflexivity.
Qed.

(** ** Query strings *)

Lemma all_chars_app p a b :
  all_chars p (a ++ b) = all_chars p a && all_chars p b.
Proof.
  induction a as [|c a IH]; simpl; [reflexivity|].
  rewrite IH, andb_assoc. reflexivity.
Qed.

Lemma form_urlencode_char_safe c :
  all_chars query_safe (form_urlencode_char c) = true.
Proof.
  destruct c as [b0 b1 b2 b3 b4 b5 b6 b7].
  destruct b0, b1, b2, b3, b4, b5, b6, b7; vm_compute; reflexivity.
Qed.

Lemma form_urlencode_safe s : all_chars query_safe (form_urlencode s) = true.
Proof.
  induction s as [|c s IH]; [reflexivity|].
  cbn [form_urlencode]. rewrite all_chars_app, form_urlencode_char_safe, IH.
  reflexivity.
Qed.

Lemma count_char_app c a b :
  count_char c (a ++ b) = count_char c a + count_char c b.
Proof.
  induction a as [|x a IH]; simpl; [reflexivity|].
  rewrite IH. apply Nat.add_assoc.
Qed.

Lemma count_char_safe c s :
  query_safe c = false -> all_chars query_safe s = true -> count_char c s = 0.
Proof.
  intros Hc. induction s as [|x s IH]; simpl; [reflexivity|].
  intros H. apply andb_prop in H. destruct H as [Hx Hs].
  rewrite (IH Hs). destruct (Ascii.eqb x c) eqn:E; [|reflexivity].
  apply Ascii.eqb_eq in E. subst x. rewrite Hc in Hx. discriminate.
Qed.

Lemma count_char_concat c sep l :
  count_char c (String.concat sep l)
  = list_sum (map (count_char c) l) + (List.length l - 1) * count_char c sep.
Proof.
  induction l as [|x l IH]; [reflexivity|].
  destruct l as [|y l].
  - simpl. rewrite !Nat.add_0_r. reflexivity.
  - change (String.concat sep (x :: y :: l))
      with (x ++ sep ++ String.concat sep (y :: l)).
    rewrite !count_char_app, IH.
    cbn [map list_sum List.length Nat.sub]. rewrite Nat.sub_0_r.
    cbn [Nat.mul]. unfold list_sum. cbn [fold_right]. lia.
Qed.

Lemma query_string_count c entries :
  query_safe c = false ->
  count_char c (URLSearchParams_toString entries)
  = List.length entries * count_char c "="
    + (List.length entries - 1) * count_char c "&".
Proof.
  intros Hc. unfold URLSearchParams_toString.
  rewrite count_char_concat, length_map. f_equal.
  induction entries as [|e entries IH]; [reflexivity|].
  cbn [map List.length Nat.mul].
  change (list_sum (?a :: ?r)) with (a + list_sum r).
  rewrite IH. f_equal.
  rewrite !count_char_app.
  rewrite !(count_char_safe _ _ Hc (form_urlencode_safe _)). lia.
Qed.

(** X20.  In a query string, names and values are escaped: what is written
    for one of them holds only letters, digits and the characters
    [*-._%+].  So whatever the names and values, the query string of a
    non-empty list has one [=] per entry and one [&] between two
    entries, and none of the characters that end or break a query. *)
Theorem query_string_is_escaped :
  forall (s : string) (entries : list (string * string)),
    all_chars query_safe (form_urlencode s) = true
    /\ count_char "=" (URLSearchParams_toString entries) = List.length entries
    /\ count_char "&" (URLSearchParams_toString entries)
       = List.length entries - 1
    /\ count_char " " (URLSearchParams_toString entries) = 0
    /\ count_char "#" (URLSearchParams_toString entries) = 0
    /\ count_char "?" (URLSearchParams_toString entries) = 0
    /\ count_char "/" (URLSearchParams_toString entries) = 0.
Proof.
  intros s entries. split; [apply form_urlencode_safe|].
  repeat split; rewrite query_string_count by reflexivity.
  - change (count_char "=" "=") with 1. change (count_char "=" "&") with 0. lia.
  - change (count_char "&" "=") with 0. change (count_char "&" "&") with 1. lia.
  - change (count_char " " "=") with 0. change (count_char " " "&") with 0. lia.
  - change (count_char "#" "=") with 0. change (count_char "#" "&") with 0. lia.
  - change (count_char "?" "=") with 0. change (count_char "?" "&") with 0. lia.
  - change (count_char "/" "=") with 0. change (count_char "/" "&") with 0. lia.
Qed.

(** ** Searches *)

Lemma mapR_Ok_inv {A B} (f : A -> result B) l l' :
  Forall2 (fun a b => f a = Ok b) l l' -> mapR f l = Ok l'.
Proof.
  induction 1 as [|a b l l' Hab _ IH]; simpl; [reflexivity|].
  rewrite Hab, IH. reflexivity.
Qed.

Lemma mapR_In_err {A B} (f : A -> result B) l a e :
  In a l -> f a = Err e -> exists e', mapR f l = Err e'.
Proof.
  induction l as [|x l IH]; simpl; [intros []|].
  intros [Hx|Hin] He.
  - subst x. rewrite He. eexists; reflexivity.
  - destruct (f x); simpl; [|eexists; reflexivity].
    destruct (IH Hin He) as [e' He']. rewrite He'. eexists; reflexivity.
Qed.

Lemma searchIssues_trace baseUrl remote searchString :
  trace (searchIssues baseUrl remote searchString)
  = [request_of baseUrl (search_path searchString) "GET" None].
Proof.
  unfold searchIssues. rewrite trace_bind, trace_fetchJson.
  destruct (outcome (fetchJson _ _ _ _ _ _)) as [data|e]; [|reflexivity].
  rewrite trace_bind. unfold lift at 1 2. unfold outcome at 1, trace at 1 2.
  cbn [fst snd].
  destruct (mapR cleanIssue (sp_issues data)); reflexivity.
Qed.

Lemma searchIssues_outcome baseUrl remote searchString :
  outcome (searchIssues baseUrl remote searchString)
  = match outcome (fetchJson baseUrl remote search_api
                     (search_path searchString) "GET" None) with
    | Ok data =>
        match mapR cleanIssue (sp_issues data) with
        | Ok cleaned => Ok {| total := sp_total data; issues := cleaned |}
        | Err e => Err e
        end
    | Err e => Err e
    end.
Proof.
  unfold searchIssues. rewrite outcome_bind.
  change ("/rest/api/3/search?" ++ URLSearchParams_toString _)
    with (search_path searchString).
  destruct (outcome (fetchJson _ _ _ _ _ _)) as [data|e]; [|reflexivity].
  rewrite outcome_bind. unfold lift, outcome at 1. cbn [snd].
  destruct (mapR cleanIssue (sp_issues data)); reflexivity.
Qed.

(** X19.  [searchIssues] sends one read, whatever the search text, and
    returns all the records of the page or none: when the search answers,
    it returns the total of the answer and one cleaned record per record
    of the page, in page order, exactly when every record can be cleaned;
    one record that cannot be cleaned makes the whole search fail, as
    does a failure of the request. *)
Theorem searchIssues_all_or_nothing :
  forall (baseUrl : string) (remote : Remote) (searchString : string),
    let search := fetchJson baseUrl remote search_api
                    (search_path searchString) "GET" None in
    let call := searchIssues baseUrl remote searchString in
    trace call = [request_of baseUrl (search_path searchString) "GET" None]
    /\ (forall e, outcome search = Err e -> outcome call = Err e)
    /\ (forall data,
           outcome search = Ok data ->
           (forall found,
               outcome call = Ok found <->
               total found = sp_total data
               /\ Forall2 (fun issue cleaned => cleanIssue issue = Ok cleaned)
                    (sp_issues data) (issues found))
           /\ (forall issue e,
                  In issue (sp_issues data) ->
                  cleanIssue issue = Err e ->
                  exists issue' e',
                    In issue' (sp_issues data)
                    /\ cleanIssue issue' = Err e'
                    /\ outcome call = Err e')).
Proof.
  intros baseUrl remote searchString search call.
  split; [apply searchIssues_trace|].
  unfold call, search. rewrite searchIssues_outcome.
  split.
  - intros e He. rewrite He. reflexivity.
  - intros data Hdata. rewrite Hdata. split.
    + intros [t found]. cbn [total issues]. split.
      * destruct (mapR cleanIssue (sp_issues data)) as [cleaned|e] eqn:E;
          [|discriminate].
        intros H. inversion H; subst. split; [reflexivity|].
        apply mapR_Ok, E.
      * intros [Ht H]. rewrite (@mapR_Ok_inv _ _ cleanIssue _ _ H), Ht. reflexivity.
    + intros issue e Hin He.
      destruct (@mapR_In_err _ _ cleanIssue _ _ _ Hin He) as [e' He'].
      rewrite He'. destruct (@mapR_err _ _ cleanIssue _ _ He') as [issue' [Hin' H']].
      exists issue', e'. auto.
Qed.

(** ** The shape of a cleaned record *)


(** ** Letter case in discovery *)

Lemma lower_char_idempotent c : lower_char (lower_char c) = lower_char c.
Proof.
  destruct c as [b0 b1 b2 b3 b4 b5 b6 b7].
  destruct b0, b1, b2, b3, b4, b5, b6, b7; vm_compute; reflexivity.
Qed.

Lemma toLowerCase_idempotent s : toLowerCase (toLowerCase s) = toLowerCase s.
Proof.
  induction s as [|c s IH]; [reflexivity|].
  cbn [toLowerCase]. rewrite lower_char_idempotent, IH. reflexivity.
Qed.

Lemma toLowerCase_length s : String.length (toLowerCase s) = String.length s.
Proof. induction s as [|c s IH]; [reflexivity|]. simpl. rewrite IH. reflexivity. Qed.

Lemma scan_fields_lower_names fields :
  scan_fields (map lower_name fields) = scan_fields fields.
Proof.
  induction fields as [|[fieldId [name]] fields IH]; [reflexivity|].
  cbn [map scan_fields lower_name fst snd mf_name]. rewrite IH.
  destruct name as [n|]; cbn [option_map]; [|reflexivity].
  rewrite toLowerCase_idempotent. reflexivity.
Qed.

(** X21.  Discovery does not depend on the case of letters.  Putting the
    role that is asked for, the names of the issue types or the names of
    the fields of the metadata in lower case changes nothing to the field
    the metadata scan returns; [toLowerCase] keeps the length of a text
    and changes nothing when applied a second time. *)
Theorem metadata_scan_ignores_case :
  (forall s,
      toLowerCase (toLowerCase s) = toLowerCase s
      /\ String.length (toLowerCase s) = String.length s)
  /\ (forall fields, scan_fields (map lower_name fields) = scan_fields fields)
  /\ (forall createMeta issueType,
         scan_createMeta createMeta (toLowerCase issueType)
         = scan_createMeta createMeta issueType)
  /\ (forall issuetypes issueType,
         scan_createMeta
           {| cm_projects :=
                Some [{| mp_issuetypes :=
                           Some (map (fun it =>
                                        {| it_name := toLowerCase (it_name it);
                                           it_fields := option_map
                                                          (map lower_name)
                                                          (it_fields it) |})
                                   issuetypes) |}] |}
           issueType
         = scan_createMeta
             {| cm_projects := Some [{| mp_issuetypes := Some issuetypes |}] |}
             issueType).
Proof.
  split; [intros s; split;
          [apply toLowerCase_idempotent | apply toLowerCase_length]|].
  split; [apply scan_fields_lower_names|].
  split.
  - intros createMeta issueType. unfold scan_createMeta.
    rewrite toLowerCase_idempotent. reflexivity.
  - intros issuetypes issueType. unfold scan_createMeta.
    cbn [cm_projects mp_issuetypes].
    induction issuetypes as [|it its IH]; [reflexivity|].
    cbn [map find it_name]. rewrite toLowerCase_idempotent.
    destruct (String.eqb (toLowerCase (it_name it)) (toLowerCase issueType)).
    + cbn [it_fields]. destruct (it_fields it) as [fields|]; [|reflexivity].
      cbn [option_map]. apply scan_fields_lower_names.
    + exact IH.
Qed.

(** ** The requests of discovery *)

Lemma getCreateMeta_trace baseUrl remote projectKey issueType :
  trace (getCreateMeta baseUrl remote projectKey issueType)
  = [request_of baseUrl (createmeta_path projectKey issueType) "GET" None].
Proof. unfold getCreateMeta. apply trace_fetchJson. Qed.

Lemma trace_try_catch_ret {A} (m : IO A) (a : A) :
  trace (try_catch m (fun _ => ret a)) = trace m.
Proof.
  unfold try_catch. destruct (outcome m); [reflexivity|].
  unfold trace at 1. cbn [fst]. unfold ret, trace at 2. cbn [fst].
  apply app_nil_r.
Qed.

Lemma findStoryPointsField_trace baseUrl remote projectKey issueType :
  trace (findStoryPointsField baseUrl remote projectKey issueType)
  = request_of baseUrl (createmeta_path projectKey (role issueType)) "GET" None
    :: match outcome (getCreateMeta baseUrl remote projectKey
                        (role issueType)) with
       | Err _ => []
       | Ok createMeta =>
           match scan_createMeta createMeta (role issueType) with
           | Some _ => []
           | None =>
               request_of baseUrl
                 (search_path (probe_jql projectKey (role issueType)))
                 "GET" None
               :: match outcome (searchIssues baseUrl remote
                                   (probe_jql projectKey (role issueType))) with
                  | Ok searchResult =>
                      match issues searchResult with
                      | first :: _ =>
                          [request_of baseUrl (names_path (key first))
                             "GET" None]
                      | [] => []
                      end
                  | Err _ => []
                  end
           end
       end.
Proof.
  unfold findStoryPointsField. rewrite trace_try_catch_ret.
  change (match issueType with Some t => t | None => "Story" end)
    with (role issueType).
  rewrite trace_bind, getCreateMeta_trace.
  destruct (outcome (getCreateMeta _ _ _ _)) as [createMeta|e]; [|reflexivity].
  destruct (scan_createMeta createMeta (role issueType)); [reflexivity|].
  rewrite trace_bind, searchIssues_trace.
  change ("project = " ++ projectKey ++ " AND issuetype = "
            ++ dq ++ role issueType ++ dq)
    with (probe_jql projectKey (role issueType)).
  destruct (outcome (searchIssues _ _ _)) as [searchResult|e]; [|reflexivity].
  destruct (issues searchResult) as [|first rest]; [reflexivity|].
  rewrite trace_bind, trace_fetchJson.
  destruct (outcome (fetchJson _ _ _ _ _ _)); reflexivity.
Qed.


(** ** What an API error reports *)

Lemma Array_join_texts sep msgs :
  Array_join sep (map VStr msgs) = Ok (String.concat sep msgs).
Proof.
  unfold Array_join.
  assert (H : mapR (fun item =>
                      match item with
                      | VUndefined | VNull => Ok ""
                      | _ => ToString item
                      end) (map VStr msgs) = Ok msgs).
  { induction msgs as [|m msgs IH]; [reflexivity|].
    cbn [map mapR ToString rbind]. rewrite IH. reflexivity. }
  rewrite H. reflexivity.
Qed.

Lemma includes_report category m status rest :
  includes ("JIRA API Error" ++ category ++ (": " ++ m)
              ++ " (Status: " ++ N_to_string status ++ ")" ++ rest)
    (": " ++ m ++ " " ++ status_text status) = true.
Proof.
  do 2 apply includes_app_l. apply includes_prefix.
  assert (E : (": " ++ m) ++ " (Status: " ++ N_to_string status ++ ")" ++ rest
              = (": " ++ m ++ " " ++ status_text status) ++ rest).
  { unfold status_text. rewrite !append_assoc. reflexivity. }
  rewrite E. apply prefix_app.
Qed.

Lemma reports_string {T} (response : Response T) any typed m :
  resp_ok response = false ->
  resp_json response = Parsed any typed ->
  m <> "" ->
  (match get any "errorMessages" with
   | Err _ => VStr (resp_statusText response)
   | Ok (VArr ((_ :: _) as errorMessages)) =>
       match Array_join "; " errorMessages with
       | Ok joined => VStr joined
       | Err _ => VStr (resp_statusText response)
       end
   | Ok _ =>
       if truthy (get_opt any "message") then get_opt any "message"
       else if truthy (get_opt any "errorMessage")
            then get_opt any "errorMessage"
            else VStr (resp_statusText response)
   end) = VStr m ->
  reports response m.
Proof.
  intros Hok Hj Hm Hmsg. unfold reports, handleFetchError.
  rewrite Hok, Hj. cbn [negb]. rewrite Hmsg.
  assert (Ht : truthy (VStr m) = true).
  { cbn [truthy]. destruct (String.eqb m "") eqn:E; [|reflexivity].
    apply String.eqb_eq in E. contradiction. }
  rewrite Ht. cbn [ToString rbind].
  eexists. split; [reflexivity|]. apply includes_report.
Qed.

(** X10.  The message an API error reports is chosen from the body of
    the response in a fixed order.  A non-empty array [errorMessages] of
    texts is reported, joined with [; ], whatever else the body holds;
    without one, the text under [message] is; without that, the text
    under [errorMessage]; and a body with none of them, as well as the
    body [null], leaves the status text of the response. *)
Theorem handleFetchError_message_priority :
  forall (T : Type) (response : Response T) (any : value) (typed : T),
    resp_ok response = false ->
    resp_json response = Parsed any typed ->
    (forall props msgs,
        any = VObj props ->
        lookup props "errorMessages" = VArr (map VStr msgs) ->
        String.concat "; " msgs <> "" ->
        reports response (String.concat "; " msgs))
    /\ (forall props m,
           any = VObj props ->
           nonempty_array (lookup props "errorMessages") = false ->
           lookup props "message" = VStr m -> m <> "" ->
           reports response m)
    /\ (forall props m,
           any = VObj props ->
           nonempty_array (lookup props "errorMessages") = false ->
           truthy (lookup props "message") = false ->
           lookup props "errorMessage" = VStr m -> m <> "" ->
           reports response m)
    /\ (forall props,
           any = VObj props ->
           nonempty_array (lookup props "errorMessages") = false ->
           truthy (lookup props "message") = false ->
           truthy (lookup props "errorMessage") = false ->
           resp_statusText response <> "" ->
           reports response (resp_statusText response))
    /\ (any = VNull ->
        resp_statusText response <> "" ->
        reports response (resp_statusText response)).
Proof.
  intros T response any typed Hok Hj.
  split; [|split; [|split; [|split]]].
  - intros props msgs -> He Hne.
    eapply reports_string; [exact Hok | exact Hj | exact Hne |].
    cbn [get]. rewrite He.
    destruct msgs as [|m msgs]; [exfalso; apply Hne; reflexivity|].
    change (VStr m :: map VStr msgs) with (map VStr (m :: msgs)).
    cbn [map]. change (VStr m :: map VStr msgs) with (map VStr (m :: msgs)).
    rewrite Array_join_texts. reflexivity.
  - intros props m -> Ha Hmsg Hne.
    eapply reports_string; [exact Hok | exact Hj | exact Hne |].
    cbn [get get_opt]. rewrite Hmsg.
    assert (Ht : truthy (VStr m) = true).
    { cbn [truthy]. destruct (String.eqb m "") eqn:E; [|reflexivity].
      apply String.eqb_eq in E. contradiction. }
    rewrite Ht.
    destruct (lookup props "errorMessages") as [| |b|r|s|[|x xs]|p];
      try reflexivity. discriminate Ha.
  - intros props m -> Ha Hf Hmsg Hne.
    eapply reports_string; [exact Hok | exact Hj | exact Hne |].
    cbn [get get_opt]. rewrite Hf, Hmsg.
    assert (Ht : truthy (VStr m) = true).
    { cbn [truthy]. destruct (String.eqb m "") eqn:E; [|reflexivity].
      apply String.eqb_eq in E. contradiction. }
    rewrite Ht.
    destruct (lookup props "errorMessages") as [| |b|r|s|[|x xs]|p];
      try reflexivity. discriminate Ha.
  - intros props -> Ha Hf1 Hf2 Hne.
    eapply reports_string; [exact Hok | exact Hj | exact Hne |].
    cbn [get get_opt]. rewrite Hf1, Hf2.
    destruct (lookup props "errorMessages") as [| |b|r|s|[|x xs]|p];
      try reflexivity. discriminate Ha.
  - intros -> Hne.
    eapply reports_string; [exact Hok | exact Hj | exact Hne |]. reflexivity.
Qed.

(** ** The project of an issue key *)

Lemma before_first_no_sep sep s : count_char sep (before_first sep s) = 0.
Proof.
  induction s as [|c s IH]; [reflexivity|].
  cbn [before_first]. destruct (Ascii.eqb c sep) eqn:E; [reflexivity|].
  cbn [count_char]. rewrite E. exact IH.
Qed.

Lemma before_first_prefix sep s : String.prefix (before_first sep s) s = true.
Proof.
  induction s as [|c s IH]; [reflexivity|].
  cbn [before_first]. destruct (Ascii.eqb c sep); [reflexivity|].
  cbn [String.prefix]. destruct (ascii_dec c c) as [_|n];
    [exact IH | contradiction].
Qed.

Lemma before_first_app sep p rest :
  count_char sep p = 0 -> before_first sep (p ++ String sep rest) = p.
Proof.
  induction p as [|c p IH]; cbn [append before_first count_char].
  - intros _. rewrite Ascii.eqb_refl. reflexivity.
  - destruct (Ascii.eqb c sep); [intros H; discriminate H|].
    intros H. rewrite (IH H). reflexivity.
Qed.

Lemma before_first_whole sep s :
  count_char sep s = 0 -> before_first sep s = s.
Proof.
  induction s as [|c s IH]; [reflexivity|].
  cbn [before_first count_char].
  destruct (Ascii.eqb c sep); [intros H; discriminate H|].
  intros H. rewrite (IH H). reflexivity.
Qed.

(** X9.  [updateStoryPoints] begins by asking for the creation metadata
    of the role [Story] in the project of the issue key, which is the
    text before the first hyphen of the key: it holds no hyphen and
    begins the key; for a key made of a project without hyphen, a hyphen
    and a number, it is that project; and a key without hyphen is taken
    whole as the project. *)
Theorem updateStoryPoints_asks_about_the_project :
  forall (baseUrl : string) (remote : Remote) (issueKey : string)
         (storyPoints : value),
    let projectKey := before_first "-" issueKey in
    (exists rest,
        trace (updateStoryPoints baseUrl remote issueKey storyPoints)
        = request_of baseUrl (createmeta_path projectKey "Story") "GET" None
          :: rest)
    /\ count_char "-" projectKey = 0
    /\ String.prefix projectKey issueKey = true
    /\ (forall project number,
           issueKey = project ++ "-" ++ number ->
           count_char "-" project = 0 ->
           projectKey = project)
    /\ (count_char "-" issueKey = 0 -> projectKey = issueKey).
Proof.
  intros baseUrl remote issueKey storyPoints projectKey. unfold projectKey.
  clear projectKey.
  split; [|split; [|split; [|split]]].
  - unfold updateStoryPoints. rewrite trace_bind.
    rewrite findStoryPointsField_trace.
    change (role (Some "Story")) with "Story".
    destruct (outcome (findStoryPointsField _ _ _ _));
      eexists; cbn [app]; reflexivity.
  - apply before_first_no_sep.
  - apply before_first_prefix.
  - intros project number -> H. apply before_first_app, H.
  - apply before_first_whole.
Qed.

(** ** The further properties on sample data *)

Lemma addCommentToIssue_sample_post :
  outcome (addCommentToIssue sample_base sample_remote
             (sample_comment_post "see B-1") "P-1" "see B-1")
  = Ok {| ac_id := "c9"; ac_author := Some "Ann";
          ac_created := "2024-01-05"; ac_updated := "2024-01-05";
          ac_body := "see B-1" |}.
Proof.
  destruct (@addCommentToIssue_posts_and_reads_back sample_base sample_remote
              (sample_comment_post "see B-1") "P-1" "see B-1") as [_ H].
  exact (H _ VNull (stored_comment "see B-1") eq_refl eq_refl eq_refl eq_refl).
Defined.

Lemma transitionIssue_sample_payloads :
  transition_payload "31" (Some "")
  = VObj [("transition", VObj [("id", VStr "31")])]
  /\ exists document,
       get_opt (transition_payload "31" (Some "done")) "update"
       = VObj [("comment", VArr [VObj [("add", VObj [("body", document)])]])]
       /\ extractTextContent (get_opt document "content") = Ok "done".
Proof.
  split.
  - destruct (@transitionIssue_payload sample_base sample_remote
                sample_transition "P-1" "31" (Some "")) as [_ [_ [H _]]].
    apply H. right. reflexivity.
  - destruct (@transitionIssue_payload sample_base sample_remote
                sample_transition "P-1" "31" (Some "done")) as [_ [_ [_ H]]].
    apply (H "done" eq_refl). discriminate.
Defined.

Lemma createIssue_sample_fields :
  lookup (createIssue_fields "P" "Story" "A story" (Some "")
            (Some [("summary", VStr "Another"); ("labels", VArr [])]))
    "summary" = VStr "Another"
  /\ lookup (createIssue_fields "P" "Story" "A story" (Some "")
               (Some [("summary", VStr "Another"); ("labels", VArr [])]))
       "project" = VObj [("key", VStr "P")]
  /\ has_own (createIssue_fields "P" "Story" "A story" (Some "")
                (Some [("summary", VStr "Another"); ("labels", VArr [])]))
       "description" = false.
Proof.
  destruct (@createIssue_caller_fields_win sample_base sample_remote
              sample_create "P" "Story" "A story" (Some "")
              (Some [("summary", VStr "Another"); ("labels", VArr [])]))
    as [_ [H1 [H2 H3]]].
  split; [|split].
  - apply H1. reflexivity.
  - apply (H2 "project"). reflexivity.
  - apply H3; [right|]; reflexivity.
Defined.

Lemma text_scan_sample :
  (key_shape "AB-12" /\ occurs_in "AB-12" "see AB-12 now")
  /\ match_keys "AB-12" = ["AB-12"].
Proof.
  split.
  - destruct (@text_scan_finds_identifiers_of_the_text "see AB-12 now")
      as [H _].
    apply H. left. reflexivity.
  - destruct (@text_scan_finds_identifiers_of_the_text "AB-12") as [_ H].
    apply H. exists "AB", "12".
    repeat split; (reflexivity || discriminate).
Defined.

Lemma card_address_sample :
  (key_shape "C-2"
   /\ occurs_in ("/browse/" ++ "C-2") "https://jira.example/browse/C-2")
  /\ match_browse "https://jira.example/issues/C-2" = None.
Proof.
  split.
  - destruct (@card_address_gives_the_browsed_identifier
                "https://jira.example/browse/C-2") as [H _].
    apply H. reflexivity.
  - destruct (@card_address_gives_the_browsed_identifier
                "https://jira.example/issues/C-2") as [_ H].
    apply H. reflexivity.
Defined.

Lemma extractIssueMentions_sample_nodes :
  exists mentions,
    extractIssueMentions Comment (Some "c1") (VArr sample_nodes) = Ok mentions
    /\ NoDup (map ri_key mentions)
    /\ Forall (mention_of Comment (Some "c1")) mentions.
Proof.
  eexists. split; [reflexivity|].
  apply (@extractIssueMentions_returns_distinct_mentions (VArr sample_nodes)
           Comment (Some "c1")).
  reflexivity.
Defined.

Lemma normalizers_sample_provenance :
  (exists cleaned,
      cleanComment (sample_comment "c2" "Y-8 and X-7") = Ok cleaned
      /\ c_id cleaned = "c2"
      /\ NoDup (map ri_key (c_mentions cleaned))
      /\ Forall (mention_of Comment (Some "c2")) (c_mentions cleaned))
  /\ (exists cleaned,
         cleanIssue sample_issue = Ok cleaned
         /\ Forall (fun e => ri_source e = Description /\ ri_commentId e = None)
              (relatedIssues cleaned)
         /\ comments cleaned = None).
Proof.
  destruct normalizers_keep_provenance as [Hc Hi].
  split.
  - eexists. split; [reflexivity|].
    apply (Hc (sample_comment "c2" "Y-8 and X-7")). reflexivity.
  - eexists. split; [reflexivity|]. apply (Hi sample_issue). reflexivity.
Defined.

Lemma handleFetchError_sample_not_found :
  exists message,
    handleFetchError {| resp_status := 404; resp_statusText := "Not Found";
                        resp_json := @SyntaxError unit "Unexpected token" |}
    = Failure message
    /\ includes message "(Status: 404)" = true
    /\ includes message "[NOT_FOUND_ERROR]" = true
    /\ includes message "Not Found" = true.
Proof.
  destruct (@handleFetchError_names_status_and_class unit
              {| resp_status := 404; resp_statusText := "Not Found";
                 resp_json := @SyntaxError unit "Unexpected token" |} eq_refl)
    as [[E | [m [E [_ [Hs [_ [_ [H404 _]]]]]]]] Hsyntax].
  - discriminate E.
  - exists m. split; [exact E|]. split; [exact Hs|].
    split; [apply H404; reflexivity|].
    destruct (Hsyntax _ eq_refl) as [m' [E' [Ht _]]].
    rewrite E in E'. inversion E'. exact Ht.
Defined.

Lemma fetchJson_sample_calls :
  outcome (fetchJson sample_base sample_remote issue_api (issue_path "P-1")
             "GET" None) = Ok sample_issue
  /\ outcome (fetchJson sample_base remote_down issue_api (issue_path "P-1")
                "GET" None) = Err (Failure "fetch failed")
  /\ outcome (fetchJson sample_base sample_remote update_api
                "/rest/api/3/issue/P-1" "GET" None)
     = Err (Failure "Unexpected end of JSON input").
Proof.
  split; [|split].
  - destruct (@fetchJson_one_request_success_only sample_base sample_remote
                RawIssue issue_api (issue_path "P-1") "GET" None)
      as [_ [H _]].
    apply H. eexists. exists VNull. repeat split; reflexivity.
  - destruct (@fetchJson_one_request_success_only sample_base remote_down
                RawIssue issue_api (issue_path "P-1") "GET" None)
      as [_ [_ [H _]]].
    apply H. reflexivity.
  - destruct (@fetchJson_one_request_success_only sample_base sample_remote
                unit update_api "/rest/api/3/issue/P-1" "GET" None)
      as [_ [_ [_ [H _]]]].
    eapply H; reflexivity.
Defined.

Lemma updateIssue_sample_no_content :
  outcome (updateIssue sample_base sample_remote "P-1"
             [("summary", VStr "Another")]) = Ok tt
  /\ outcome (fetchJson sample_base sample_remote update_api
                ("/rest/api/3/issue/" ++ "P-1") "PUT"
                (Some (VObj [("fields", VObj [("summary", VStr "Another")])])))
     = Err (Failure "Unexpected end of JSON input").
Proof.
  destruct (@updateIssue_ignores_the_response_body sample_base sample_remote
              "P-1" [("summary", VStr "Another")]) as [_ [_ H]].
  eapply H; reflexivity.
Defined.

Lemma updateStoryPoints_sample_update :
  trace (updateStoryPoints sample_base sample_remote "P-1" (VNum "5"))
  = (trace (findStoryPointsField sample_base sample_remote
              (before_first "-" "P-1") (Some "Story"))
       ++ [request_of sample_base ("/rest/api/3/issue/" ++ "P-1") "PUT"
             (Some (VObj [("fields",
                           VObj [("customfield_10031", VNum "5")])]))])%list
  /\ outcome (updateStoryPoints sample_base sample_remote "P-1" (VNum "5"))
     = outcome (updateIssue sample_base sample_remote "P-1"
                  [("customfield_10031", VNum "5")])
  /\ Forall is_GET (trace (findStoryPointsField sample_base sample_remote
                             (before_first "-" "P-1") (Some "Story"))).
Proof.
  apply (@updateStoryPoints_sends_one_update sample_base sample_remote "P-1"
           (VNum "5") "customfield_10031"); reflexivity.
Defined.

Lemma getEpicChildren_sample_requests :
  trace (getEpicChildren sample_base sample_remote in_order "E-9")
  = [request_of sample_base (epic_children_path "E-9") "GET" None;
     request_of sample_base (comment_path "P-1") "GET" None]
  /\ trace (getEpicChildren sample_base remote_down in_order "E-9")
     = [request_of sample_base (epic_children_path "E-9") "GET" None]
  /\ outcome (getEpicChildren sample_base remote_down in_order "E-9")
     = Err (Failure "fetch failed").
Proof.
  split.
  - destruct (@getEpicChildren_asks_for_every_child sample_base sample_remote
                in_order "E-9") as [H _].
    apply (H {| sp_total := Some (VNum "1"); sp_issues := [sample_issue] |}).
    reflexivity.
  - destruct (@getEpicChildren_asks_for_every_child sample_base remote_down
                in_order "E-9") as [_ H].
    apply H. reflexivity.
Defined.

Lemma getEpicChildren_sample_children :
  (exists child,
      outcome (epic_child sample_base sample_remote sample_issue) = Ok child
      /\ outcome (getEpicChildren sample_base sample_remote in_order "E-9")
         = Ok [child])
  /\ (exists issue e,
         In issue [sample_issue]
         /\ outcome (epic_child sample_base remote_comments_gone issue) = Err e
         /\ outcome (getEpicChildren sample_base remote_comments_gone in_order
                       "E-9") = Err e).
Proof.
  split.
  - destruct (@getEpicChildren_all_or_nothing sample_base sample_remote in_order
                "E-9" {| sp_total := Some (VNum "1");
                         sp_issues := [sample_issue] |} eq_refl) as [H _].
    eexists. split; [reflexivity|].
    apply H. constructor; [reflexivity | constructor].
  - destruct (@getEpicChildren_all_or_nothing sample_base remote_comments_gone
                in_order "E-9" {| sp_total := Some (VNum "1");
                                  sp_issues := [sample_issue] |} eq_refl)
      as [_ H].
    eapply (H sample_issue); [left|]; reflexivity.
Defined.

Lemma getIssueWithComments_sample_requests :
  trace (getIssueWithComments sample_base remote_record_gone in_order "P-1")
  = [request_of sample_base (issue_path "P-1") "GET" None;
     request_of sample_base (comment_path "P-1") "GET" None]
  /\ Forall is_GET
       (trace (getIssueWithComments sample_base sample_remote in_order "P-1")).
Proof.
  split.
  - destruct (@getIssueWithComments_requests sample_base remote_record_gone
                in_order "P-1") as [_ [_ H]].
    eapply H. reflexivity.
  - destruct (@getIssueWithComments_requests sample_base sample_remote
                in_order "P-1") as [_ [H _]].
    exact H.
Defined.


Lemma searchIssues_sample_page :
  exists found,
    outcome (searchIssues sample_base remote_probe "project = P") = Ok found
    /\ total found = Some (VNum "1")
    /\ Forall2 (fun issue cleaned => cleanIssue issue = Ok cleaned)
         [sample_issue] (issues found).
Proof.
  destruct (@searchIssues_all_or_nothing sample_base remote_probe "project = P")
    as [_ [_ H]].
  destruct (H {| sp_total := Some (VNum "1"); sp_issues := [sample_issue] |}
              eq_refl) as [Hiff _].
  eexists. split; [reflexivity|]. apply Hiff. reflexivity.
Defined.


Lemma updateStoryPoints_sample_project :
  before_first "-" "P-1" = "P" /\ before_first "-" "P1" = "P1".
Proof.
  split.
  - destruct (@updateStoryPoints_asks_about_the_project sample_base
                sample_remote "P-1" (VNum "5")) as [_ [_ [_ [H _]]]].
    apply (H "P" "1"); reflexivity.
  - destruct (@updateStoryPoints_asks_about_the_project sample_base
                sample_remote "P1" (VNum "5")) as [_ [_ [_ [_ H]]]].
    apply H. reflexivity.
Defined.

Lemma handleFetchError_sample_priority :
  reports crowded_refusal "first; second"
  /\ reports {| resp_status := 400; resp_statusText := "Bad Request";
                resp_json := Parsed VNull tt |} "Bad Request".
Proof.
  split.
  - destruct (@handleFetchError_message_priority unit crowded_refusal
                _ tt eq_refl eq_refl) as [H _].
    apply (H _ ["first"; "second"] eq_refl); [reflexivity | discriminate].
  - destruct (@handleFetchError_message_priority unit
                {| resp_status := 400; resp_statusText := "Bad Request";
                   resp_json := Parsed VNull tt |}
                _ tt eq_refl eq_refl) as [_ [_ [_ [_ H]]]].
    apply H; [reflexivity | discriminate].
Defined.
